(** * Sucrase command line: file discovery and build orchestration

    A shallow embedding of [src/cli.ts]: the two discovery modes
    ([findFiles], [runGlob]), the resolution of options from a project
    manifest ([updateOptionsFromProject]), the sequential build loop
    ([buildDirectory], [buildFile]) and the option validation of [run].

    The program is asynchronous but strictly sequential (every effect is
    awaited), so it is embedded as a state-and-exception monad over a
    world made of a file system and a trace of observable effects. *)

From Stdlib Require Import Ascii ZArith.
From stdpp Require Import gmap strings list fin_maps.

Set Warnings "-register-all".

(** ** Strings as the program uses them *)

Module Str.

(** [String.prototype.endsWith]. *)
Fixpoint endsWith (s suffix : string) : bool :=
  if String.eqb s suffix then true
  else match s with
       | "" => false
       | String _ s' => endsWith s' suffix
       end.

(** [String.prototype.startsWith] for a one-character probe, as
    [charCodeAt(0) === 47] in Node's path module. *)
Definition startsWithSlash (s : string) : bool :=
  match s with
  | String c _ => bool_decide (c = "/"%char)
  | "" => false
  end.

(** [String.prototype.split] on a one-character separator. *)
Fixpoint split (sep : ascii) (s : string) : list string :=
  match s with
  | "" => [""]
  | String c r =>
      if bool_decide (c = sep) then "" :: split sep r
      else match split sep r with
           | [] => [String c ""]
           | h :: t => String c h :: t
           end
  end.

(** [Array.prototype.join]. *)
Fixpoint concat (sep : string) (l : list string) : string :=
  match l with
  | [] => ""
  | [x] => x
  | x :: l' => x +:+ sep +:+ concat sep l'
  end.

Fixpoint has_char (c : ascii) (s : string) : bool :=
  match s with
  | "" => false
  | String a r => bool_decide (a = c) || has_char c r
  end.

(** The class [\w] of a regular expression without flags. *)
Definition is_word_char (c : ascii) : bool :=
  let n := nat_of_ascii c in
  ((48 <=? n) && (n <=? 57)) || ((65 <=? n) && (n <=? 90))
  || ((97 <=? n) && (n <=? 122)) || (n =? 95).

Fixpoint all_word (s : string) : bool :=
  match s with
  | "" => true
  | String c r => is_word_char c && all_word r
  end.

Definition nonempty (s : string) : bool :=
  match s with "" => false | _ => true end.

(** The leftmost match of [/\.\w+$/] in [s]: the text before the match
    and the matched text. *)
Fixpoint match_ext (s : string) : option (string * string) :=
  match s with
  | "" => None
  | String c r =>
      if bool_decide (c = "."%char) && nonempty r && all_word r
      then Some ("", s)
      else match match_ext r with
           | Some (pre, m) => Some (String c pre, m)
           | None => None
           end
  end.

(** ECMAScript's GetSubstitution for a pattern without capture groups:
    [$$], [$&], [$`] and [$'] are expanded, every other character of the
    replacement text stands for itself. *)
Fixpoint getSubstitution (matched before after repl : string) : string :=
  match repl with
  | "" => ""
  | String c r =>
      if Ascii.eqb c "$" then
        match r with
        | String d r' =>
            if Ascii.eqb d "$" then
              String "$" (getSubstitution matched before after r')
            else if Ascii.eqb d "&" then
              matched +:+ getSubstitution matched before after r'
            else if Ascii.eqb d "`" then
              before +:+ getSubstitution matched before after r'
            else if Ascii.eqb d "'" then
              after +:+ getSubstitution matched before after r'
            else String c (getSubstitution matched before after r)
        | "" => String c ""
        end
      else String c (getSubstitution matched before after r)
  end.

(** [s.replace(/\.\w+$/, repl)]. *)
Definition replace_ext (s repl : string) : string :=
  match match_ext s with
  | None => s
  | Some (pre, m) => pre +:+ getSubstitution m pre "" repl
  end.

End Str.

(** ** Node's [path] module (POSIX flavour)

    The program imports [join], [dirname] and [relative] from Node's
    [path]; they are modelled on path segments. *)

Module Path.

(** One step of [normalizeString]: the stack of kept segments is held
    in reverse. *)
Definition norm_step (allowAbove : bool) (st : list string) (seg : string)
  : list string :=
  if bool_decide (seg = "") || bool_decide (seg = ".") then st
  else if bool_decide (seg = "..") then
    match st with
    | top :: rest =>
        if bool_decide (top = "..")
        then (if allowAbove then ".." :: st else st)
        else rest
    | [] => if allowAbove then [".."] else []
    end
  else seg :: st.

Definition norm_segs (allowAbove : bool) (segs : list string) : list string :=
  rev (fold_left (norm_step allowAbove) segs []).

Definition normalize (p : string) : string :=
  if bool_decide (p = "") then "."
  else
    let isAbsolute := Str.startsWithSlash p in
    let trailing := Str.endsWith p "/" in
    let path := Str.concat "/" (norm_segs (negb isAbsolute) (Str.split "/" p)) in
    if bool_decide (path = "") then
      (if isAbsolute then "/" else if trailing then "./" else ".")
    else
      let path := if trailing then path +:+ "/" else path in
      if isAbsolute then "/" +:+ path else path.

(** [path.join(...args)] on string arguments. *)
Definition join (args : list string) : string :=
  match filter (λ a, a ≠ "") args with
  | [] => "."
  | parts => normalize (Str.concat "/" parts)
  end.

(** The scan of [path.dirname], from the last character down to index 1:
    [n] counts the characters already passed. *)
Fixpoint dirname_end (rev_tail : list ascii) (matchedSlash : bool) (n : nat)
  : option nat :=
  match rev_tail with
  | [] => None
  | c :: r =>
      if bool_decide (c = "/"%char) then
        if matchedSlash then dirname_end r matchedSlash (S n) else Some n
      else dirname_end r false (S n)
  end.

Definition dirname (p : string) : string :=
  if bool_decide (p = "") then "."
  else
    let hasRoot := Str.startsWithSlash p in
    let chars := String.list_ascii_of_string p in
    match dirname_end (rev (tail chars)) true 0 with
    | None => if hasRoot then "/" else "."
    | Some n =>
        let end_ := (length chars - 1 - n)%nat in
        if hasRoot && (end_ =? 1)%nat then "//"
        else String.substring 0 end_ p
    end.

(** [path.basename(p)] without an extension argument. *)
Definition basename (p : string) : string :=
  match filter (λ a, a ≠ "") (Str.split "/" p) with
  | [] => ""
  | segs => List.last segs ""
  end.

(** [path.resolve] of one path against the working directory, as the
    list of its segments. *)
Definition resolve_segs (cwd p : string) : list string :=
  let full := if Str.startsWithSlash p then p else cwd +:+ "/" +:+ p in
  norm_segs false (Str.split "/" full).

Definition resolve (cwd p : string) : string :=
  "/" +:+ Str.concat "/" (resolve_segs cwd p).

Fixpoint strip_common (a b : list string) : list string * list string :=
  match a, b with
  | x :: a', y :: b' => if bool_decide (x = y) then strip_common a' b' else (a, b)
  | _, _ => (a, b)
  end.

(** [path.relative(from, to)]. *)
Definition relative (cwd from to : string) : string :=
  if bool_decide (from = to) then ""
  else
    let '(f, t) := strip_common (resolve_segs cwd from) (resolve_segs cwd to) in
    Str.concat "/" (map (λ _, "..") f ++ t).

(** The text that [join] puts before a file name [c] when it joins a
    directory [d] and [c]: it depends on the directory only. *)
Definition child_prefix (d : string) : string :=
  if bool_decide (d = "") then ""
  else
    (if Str.startsWithSlash d then "/" else "")
    +:+ match norm_segs (negb (Str.startsWithSlash d)) (Str.split "/" d) with
        | [] => ""
        | segs => Str.concat "/" segs +:+ "/"
        end.

End Path.

(** ** JavaScript values, errors and outcomes *)

(** A value as [JSON.parse] builds it, together with [undefined], which
    property access produces.  Numbers matter to the program only through
    their truthiness. *)
Inductive value : Type :=
| VUndefined
| VNull
| VBool (b : bool)
| VNum (z : Z)
| VStr (s : string)
| VArr (items : list value)
| VObj (fields : list (string * value)).

Inductive Err : Type :=
| TypeError (msg : string)
| SyntaxError (msg : string)
| ENOENT (path : string)
| EEXIST (path : string)
| EISDIR (path : string)
| ENOTDIR (path : string)
| ExternalError (msg : string).

(** How a computation ends: with a value, with an exception (a rejected
    promise), with [process.exit], or, in the model only, because the fuel
    that bounds the recursion of [findFiles] ran out. *)
Inductive Outcome (A : Type) : Type :=
| Ret (a : A)
| Throw (e : Err)
| Exit (code : Z)
| OutOfFuel.
Arguments Ret {A} a.
Arguments Throw {A} e.
Arguments Exit {A} code.
Arguments OutOfFuel {A}.

Module JS.

Fixpoint lookup_field (k : string) (fields : list (string * value)) : value :=
  match fields with
  | [] => VUndefined
  | (k', v) :: rest => if bool_decide (k' = k) then v else lookup_field k rest
  end.

Definition nullish (v : value) : bool :=
  match v with VUndefined | VNull => true | _ => false end.

(** The own property [k] of a value that is not nullish; none of the
    names the program reads exists on a primitive or on an array. *)
Definition prop (v : value) (k : string) : value :=
  match v with
  | VObj fields => lookup_field k fields
  | _ => VUndefined
  end.

(** Property access [v.k]. *)
Definition getProp (v : value) (k : string) : Err + value :=
  if nullish v
  then inl (TypeError ("Cannot read properties of undefined or null, reading " +:+ k))
  else inr (prop v k).

(** Whether a parsed value is an object with a member named [k]. *)
Definition has_member (v : value) (k : string) : bool :=
  match v with
  | VObj fields => bool_decide (k ∈ map fst fields)
  | _ => false
  end.

Definition truthy (v : value) : bool :=
  match v with
  | VUndefined | VNull => false
  | VBool b => b
  | VNum z => negb (z =? 0)%Z
  | VStr s => Str.nonempty s
  | VArr _ | VObj _ => true
  end.

Fixpoint chars (s : string) : list value :=
  match s with
  | "" => []
  | String c r => VStr (String c "") :: chars r
  end.

(** The values a [for ... of] loop visits. *)
Definition iterate (v : value) : Err + list value :=
  match v with
  | VArr items => inr items
  | VStr s => inr (chars s)
  | _ => inl (TypeError "value is not iterable")
  end.

(** [v.endsWith(suffix)]: only a string has the method. *)
Definition endsWith (v : value) (suffix : string) : Err + bool :=
  match v with
  | VStr s => inr (Str.endsWith s suffix)
  | _ => inl (TypeError "endsWith is not a function")
  end.

(** The argument check of Node's [path] and [fs] functions. *)
Definition asString (v : value) : Err + string :=
  match v with
  | VStr s => inr s
  | _ => inl (TypeError "The path argument must be of type string")
  end.

(** [v === true]. *)
Definition is_true (v : value) : bool :=
  match v with VBool true => true | _ => false end.

(** [v === "s"]. *)
Definition is_str (v : value) (s : string) : bool :=
  match v with VStr s' => bool_decide (s' = s) | _ => false end.

(** Truthiness of a [string | undefined]. *)
Definition truthy_str (o : option string) : bool :=
  match o with Some s => Str.nonempty s | None => false end.

(** Truthiness of a [true | undefined] flag. *)
Definition truthy_flag (o : option bool) : bool :=
  match o with Some b => b | None => false end.

(** A [string | undefined] inside a template literal. *)
Definition show (o : option string) : string :=
  match o with Some s => s | None => "undefined" end.

End JS.

(** ** The file system *)

Inductive node : Type :=
| File (content : string)
| Dir (entries : list string).

(** A file system maps the resolved, absolute form of a path to a node, so
    that two spellings of one location name one node; a directory keeps the
    names of its entries in listing order.  There are no symbolic links. *)
Module Fs.

Definition valid_name (n : string) : bool :=
  Str.nonempty n && negb (bool_decide (n = ".")) && negb (bool_decide (n = ".."))
  && negb (Str.has_char "/" n).

(** The node a path names, for a process working in [cwd]. *)
Definition key (cwd p : string) : string := Path.resolve cwd p.

Definition exists_ (cwd : string) (fs : gmap string node) (p : string) : bool :=
  Str.nonempty p && bool_decide (is_Some (fs !! key cwd p)).

(** Adding a fresh node at key [k] under its parent directory; [p] is
    the path as the caller spelled it. *)
Definition create (fs : gmap string node) (k p : string) (n : node)
  : Err + gmap string node :=
  match fs !! Path.dirname k with
  | Some (Dir entries) =>
      inr (<[k := n]> (<[Path.dirname k := Dir (entries ++ [Path.basename k])]> fs))
  | Some (File _) => inl (ENOTDIR p)
  | None => inl (ENOENT p)
  end.

(** [mkdir(p)], without the [recursive] option. *)
Definition mkdir (cwd : string) (fs : gmap string node) (p : string)
  : Err + gmap string node :=
  if negb (Str.nonempty p) then inl (ENOENT p)
  else match fs !! key cwd p with
       | Some _ => inl (EEXIST p)
       | None => create fs (key cwd p) p (Dir [])
       end.

(** [readdir(p)]: the operating system never lists an empty name, [.],
    [..] or a name with a separator. *)
Definition readdir (cwd : string) (fs : gmap string node) (p : string)
  : Err + list string :=
  if negb (Str.nonempty p) then inl (ENOENT p)
  else match fs !! key cwd p with
       | Some (Dir entries) => inr (filter (λ n, valid_name n = true) entries)
       | Some (File _) => inl (ENOTDIR p)
       | None => inl (ENOENT p)
       end.

(** [(await stat(p)).isDirectory()]. *)
Definition isDirectory (cwd : string) (fs : gmap string node) (p : string)
  : Err + bool :=
  if negb (Str.nonempty p) then inl (ENOENT p)
  else match fs !! key cwd p with
       | Some (Dir _) => inr true
       | Some (File _) => inr false
       | None => inl (ENOENT p)
       end.

Definition readFile (cwd : string) (fs : gmap string node) (p : string)
  : Err + string :=
  if negb (Str.nonempty p) then inl (ENOENT p)
  else match fs !! key cwd p with
       | Some (File c) => inr c
       | Some (Dir _) => inl (EISDIR p)
       | None => inl (ENOENT p)
       end.

Definition writeFile (cwd : string) (fs : gmap string node) (p content : string)
  : Err + gmap string node :=
  if negb (Str.nonempty p) then inl (ENOENT p)
  else match fs !! key cwd p with
       | Some (File _) => inr (<[key cwd p := File content]> fs)
       | Some (Dir _) => inl (EISDIR p)
       | None => create fs (key cwd p) p (File content)
       end.

End Fs.

(** ** Observable effects and the monad *)

Inductive Event : Type :=
| ConsoleLog (msg : string)
| ConsoleError (msg : string)
| ConsoleErrorObj (e : Err)
| FsExists (p : string)
| FsMkdir (p : string)
| FsReaddir (p : string)
| FsStat (p : string)
| FsReadFile (p : string)
| FsWriteFile (p content : string)
| GlobCall (pattern : string)
| TransformCall (filePath : string)
| SetExitCode (code : Z).

(** The world: the working directory of the process, the file system and
    the effects observed so far, oldest first. *)
Record World : Type := mkWorld {
  cwd : string;
  fs : gmap string node;
  trace : list Event
}.

(** Computations over a state [S]: the world, or the world together with
    the options object that [updateOptionsFromProject] mutates in place. *)
Definition M (S A : Type) : Type := S → Outcome A * S.

Definition ret {S A} (a : A) : M S A := λ s, (Ret a, s).
Definition throw {S A} (e : Err) : M S A := λ s, (Throw e, s).
Definition exit_ {S A} (code : Z) : M S A := λ s, (Exit code, s).
Definition out_of_fuel {S A} : M S A := λ s, (OutOfFuel, s).

Definition bind {S A B} (m : M S A) (k : A → M S B) : M S B :=
  λ s, match m s with
       | (Ret a, s') => k a s'
       | (Throw e, s') => (Throw e, s')
       | (Exit c, s') => (Exit c, s')
       | (OutOfFuel, s') => (OutOfFuel, s')
       end.

(** [try { m } catch (err) { handler err }]. *)
Definition try_catch {S A} (m : M S A) (handler : Err → M S A) : M S A :=
  λ s, match m s with
       | (Throw e, s') => handler e s'
       | r => r
       end.

Definition lift_result {S A} (r : Err + A) : M S A :=
  match r with
  | inl e => throw e
  | inr a => ret a
  end.

Notation "'let*' x ':=' m 'in' k" := (bind m (λ x, k))
  (at level 10, x name, m at level 100, k at level 200).
Notation "'let*' ' p ':=' m 'in' k" := (bind m (λ x, match x with p => k end))
  (at level 10, p pattern, m at level 100, k at level 200).
Notation "'do' m 'then' k" := (bind m (λ _, k))
  (at level 10, m at level 100, k at level 200).

Definition emit (e : Event) : M World unit :=
  λ w, (Ret tt, mkWorld (cwd w) (fs w) (trace w ++ [e])).

Definition get_fs : M World (gmap string node) := λ w, (Ret (fs w), w).
Definition put_fs (f : gmap string node) : M World unit :=
  λ w, (Ret tt, mkWorld (cwd w) f (trace w)).

(** [process.cwd()]. *)
Definition process_cwd : M World string := λ w, (Ret (cwd w), w).

(** The argument check that [fs] and [path] functions run on a
    [string | undefined] before doing anything else. *)
Definition path_arg {S} (p : option string) : M S string :=
  match p with
  | Some s => ret s
  | None => throw (TypeError "The path argument must be of type string")
  end.

(** ** [mz/fs] and [path] as the program calls them *)

(** [exists(p)]: a [stat] whose failure is reported as [false]; only the
    argument check can make it reject. *)
Definition exists_ (p : option string) : M World bool :=
  let* s := path_arg p in
  do emit (FsExists s) then
  let* dir := process_cwd in
  let* f := get_fs in
  ret (Fs.exists_ dir f s).

(** [mkdir(p)], as the program calls it: without options. *)
Definition mkdir (p : option string) : M World unit :=
  let* s := path_arg p in
  do emit (FsMkdir s) then
  let* dir := process_cwd in
  let* f := get_fs in
  let* f' := lift_result (Fs.mkdir dir f s) in
  put_fs f'.

Definition readdir (p : option string) : M World (list string) :=
  let* s := path_arg p in
  do emit (FsReaddir s) then
  let* dir := process_cwd in
  let* f := get_fs in
  lift_result (Fs.readdir dir f s).

(** [(await stat(p)).isDirectory()]. *)
Definition stat_isDirectory (p : string) : M World bool :=
  do emit (FsStat p) then
  let* dir := process_cwd in
  let* f := get_fs in
  lift_result (Fs.isDirectory dir f p).

Definition readFile (p : string) : M World string :=
  do emit (FsReadFile p) then
  let* dir := process_cwd in
  let* f := get_fs in
  lift_result (Fs.readFile dir f p).

Definition writeFile (p content : string) : M World unit :=
  do emit (FsWriteFile p content) then
  let* dir := process_cwd in
  let* f := get_fs in
  let* f' := lift_result (Fs.writeFile dir f p content) in
  put_fs f'.

Fixpoint path_args {S} (args : list (option string)) : M S (list string) :=
  match args with
  | [] => ret []
  | a :: rest =>
      let* s := path_arg a in
      let* l := path_args rest in
      ret (s :: l)
  end.

(** [join(...args)]: every argument is checked to be a string first. *)
Definition join {S} (args : list (option string)) : M S string :=
  let* l := path_args args in
  ret (Path.join l).

(** [relative(from, to)], which resolves both against the working
    directory. *)
Definition relative (from to : string) : M World string :=
  let* dir := process_cwd in
  ret (Path.relative dir from to).

Definition console_log (msg : string) : M World unit := emit (ConsoleLog msg).
Definition console_error (msg : string) : M World unit := emit (ConsoleError msg).
Definition console_error_obj (e : Err) : M World unit := emit (ConsoleErrorObj e).

(** ** The program's records *)

(** [Options] of the transform, as far as the command line fills it. *)
Record Options : Type := mkOptions {
  transforms : list string;
  enableLegacyTypeScriptModuleInterop : option bool;
  enableLegacyBabel5ModuleInterop : option bool;
  jsxPragma : string;
  jsxFragmentPragma : string;
  production : option bool
}.

(** [CLIOptions]: the path fields are typed [string] in the source but
    hold [undefined] when the matching command-line option is absent. *)
Record CLIOptions : Type := mkCLIOptions {
  outDirPath : option string;
  srcDirPath : option string;
  project : option string;
  outExtension : string;
  excludeDirs : list string;
  quiet : option bool;
  sucraseOptions : Options
}.

Record FileInfo : Type := mkFileInfo {
  srcPath : string;
  outPath : string
}.

(** What [commander] holds after [parse(process.argv)]. *)
Module commander.
Record t : Type := mk {
  outDir : option string;
  project : option string;
  outExtension : string;
  excludeDirs : option string;
  transforms : option string;
  quiet : option bool;
  enableLegacyTypescriptModuleInterop : option bool;
  enableLegacyBabel5ModuleInterop : option bool;
  jsxPragma : option string;
  jsxFragmentPragma : option string;
  production : option bool;
  args : list string
}.
End commander.

Definition with_transforms (o : Options) (ts : list string) : Options :=
  mkOptions ts (enableLegacyTypeScriptModuleInterop o)
    (enableLegacyBabel5ModuleInterop o) (jsxPragma o) (jsxFragmentPragma o)
    (production o).

Definition with_legacyTypeScript (o : Options) (b : option bool) : Options :=
  mkOptions (transforms o) b (enableLegacyBabel5ModuleInterop o) (jsxPragma o)
    (jsxFragmentPragma o) (production o).

Definition with_sucraseOptions (c : CLIOptions) (o : Options) : CLIOptions :=
  mkCLIOptions (outDirPath c) (srcDirPath c) (project c) (outExtension c)
    (excludeDirs c) (quiet c) o.

Definition with_outDirPath (c : CLIOptions) (p : option string) : CLIOptions :=
  mkCLIOptions p (srcDirPath c) (project c) (outExtension c) (excludeDirs c)
    (quiet c) (sucraseOptions c).

Definition with_srcDirPath (c : CLIOptions) (p : option string) : CLIOptions :=
  mkCLIOptions (outDirPath c) p (project c) (outExtension c) (excludeDirs c)
    (quiet c) (sucraseOptions c).

(** [Array.prototype.includes] on strings. *)
Definition includes (l : list string) (x : string) : bool := bool_decide (x ∈ l).

(** ** The options object as mutable state *)

Definition liftW {A} (m : M World A) : M (CLIOptions * World) A :=
  λ s, let '(r, w') := m (snd s) in (r, (fst s, w')).

Definition get_options : M (CLIOptions * World) CLIOptions :=
  λ s, (Ret (fst s), s).

Definition modify_options (f : CLIOptions → CLIOptions) : M (CLIOptions * World) unit :=
  λ s, (Ret tt, (f (fst s), snd s)).

(** [options.sucraseOptions.transforms.push(name)]. *)
Definition push_transform (name : string) : M (CLIOptions * World) unit :=
  modify_options (λ c,
    with_sucraseOptions c
      (with_transforms (sucraseOptions c) (transforms (sucraseOptions c) ++ [name]))).

(** Running a computation that mutates the options object: the caller
    goes on with the mutated object. *)
Definition with_options {A} (options : CLIOptions) (m : M (CLIOptions * World) A)
  : M World (A * CLIOptions) :=
  λ w, match m (options, w) with
       | (Ret a, (o', w')) => (Ret (a, o'), w')
       | (Throw e, (_, w')) => (Throw e, w')
       | (Exit c, (_, w')) => (Exit c, w')
       | (OutOfFuel, (_, w')) => (OutOfFuel, w')
       end.

(** ** The program *)

Section Program.

(** [JSON.parse]. *)
Variable JSON_parse : string → Err + value.
(** The promisified [glob], which reads the file system. *)
Variable globCb : gmap string node → string → Err + list string.
(** [transform(code, {...options, filePath}).code] of the transform
    engine. *)
Variable transform : string → Options → string → Err + string.

Definition glob (pattern : string) : M World (list string) :=
  do emit (GlobCall pattern) then
  let* f := get_fs in
  lift_result (globCb f pattern).

Definition reserved : list string := ["node_modules"; ".git"].

(** The body of the [for (const child of ...)] loop of [findFiles];
    [findFiles_rec] is the recursive call. *)
Fixpoint findFiles_children (findFiles_rec : CLIOptions → M World (list FileInfo))
    (options : CLIOptions) (extensions : list string)
    (children : list string) (outArr : list FileInfo) : M World (list FileInfo) :=
  match children with
  | [] => ret outArr
  | child :: rest =>
      if includes reserved child || includes (excludeDirs options) child then
        findFiles_children findFiles_rec options extensions rest outArr
      else
        let* srcChildPath := join [srcDirPath options; Some child] in
        let* outChildPath := join [outDirPath options; Some child] in
        let* isDir := stat_isDirectory srcChildPath in
        if isDir then
          let innerOptions :=
            with_outDirPath (with_srcDirPath options (Some srcChildPath))
              (Some outChildPath) in
          let* innerFiles := findFiles_rec innerOptions in
          findFiles_children findFiles_rec options extensions rest
            (outArr ++ innerFiles)
        else if existsb (λ ext, Str.endsWith srcChildPath ext) extensions then
          let outPath :=
            Str.replace_ext outChildPath ("." +:+ outExtension options) in
          findFiles_children findFiles_rec options extensions rest
            (outArr ++ [mkFileInfo srcChildPath outPath])
        else
          findFiles_children findFiles_rec options extensions rest outArr
  end.

Definition extensions_of (options : CLIOptions) : list string :=
  if includes (transforms (sucraseOptions options)) "typescript"
  then [".ts"; ".tsx"]
  else [".js"; ".jsx"].

(** [findFiles]; the fuel bounds the depth of the recursion, which in the
    program is bounded by the depth of the source tree as long as the
    directories it creates do not show up in the listings it reads. *)
Fixpoint findFiles (fuel : nat) (options : CLIOptions) : M World (list FileInfo) :=
  match fuel with
  | O => out_of_fuel
  | S fuel' =>
      let extensions := extensions_of options in
      let* present := exists_ (outDirPath options) in
      do (if negb present then mkdir (outDirPath options) else ret tt) then
      let* children := readdir (srcDirPath options) in
      findFiles_children (findFiles fuel') options extensions children []
  end.

(** The [try]/[catch] around the manifest read, in both readers. *)
Definition read_tsconfig (options : CLIOptions) (tsConfigPath : string)
  : M World string :=
  try_catch (readFile tsConfigPath)
    (λ err,
       do console_error "Could not find project tsconfig.json" then
       do console_error ("  --project=" +:+ JS.show (project options)) then
       do console_error_obj err then
       exit_ 1).

(** [if (!outDirs.includes(outDir)) outDirs.push(outDir)]. *)
Definition note_dir (outDirs : list string) (outDir : string) : list string :=
  if includes outDirs outDir then outDirs else outDirs ++ [outDir].

(** The loop over [json.files]. *)
Fixpoint runGlob_files (options : CLIOptions) (absProject : string)
    (files : list value) (foundFiles : list FileInfo) (outDirs : list string)
  : M World (list FileInfo * list string) :=
  match files with
  | [] => ret (foundFiles, outDirs)
  | file :: rest =>
      let* isDecl := lift_result (JS.endsWith file ".d.ts") in
      if isDecl then runGlob_files options absProject rest foundFiles outDirs
      else
        let* isTs := lift_result (JS.endsWith file ".ts") in
        let* isJs := lift_result (JS.endsWith file ".js") in
        if negb isTs && negb isJs then
          runGlob_files options absProject rest foundFiles outDirs
        else
          let* name := lift_result (JS.asString file) in
          let* srcFile := join [Some absProject; Some name] in
          let* outFile := join [outDirPath options; Some name] in
          let outPath := Str.replace_ext outFile ("." +:+ outExtension options) in
          let outDir := Path.dirname outPath in
          runGlob_files options absProject rest
            (foundFiles ++ [mkFileInfo srcFile outPath]) (note_dir outDirs outDir)
  end.

(** The loop over the matches of one pattern. *)
Fixpoint runGlob_matches (options : CLIOptions) (absProject : string)
    (globFiles : list string) (foundFiles : list FileInfo) (outDirs : list string)
  : M World (list FileInfo * list string) :=
  match globFiles with
  | [] => ret (foundFiles, outDirs)
  | file :: rest =>
      if negb (Str.endsWith file ".ts") && negb (Str.endsWith file ".js") then
        runGlob_matches options absProject rest foundFiles outDirs
      else if Str.endsWith file ".d.ts" then
        runGlob_matches options absProject rest foundFiles outDirs
      else
        let* relativeFile := relative absProject file in
        let* outFile := join [outDirPath options; Some relativeFile] in
        let outPath := Str.replace_ext outFile ("." +:+ outExtension options) in
        let outDir := Path.dirname outPath in
        runGlob_matches options absProject rest
          (foundFiles ++ [mkFileInfo file outPath]) (note_dir outDirs outDir)
  end.

(** The loop over [json.include]. *)
Fixpoint runGlob_include (options : CLIOptions) (absProject : string)
    (include : list value) (foundFiles : list FileInfo) (outDirs : list string)
  : M World (list FileInfo * list string) :=
  match include with
  | [] => ret (foundFiles, outDirs)
  | pattern :: rest =>
      let* pat := lift_result (JS.asString pattern) in
      let* full := join [Some absProject; Some pat] in
      let* globFiles := glob full in
      let* '(foundFiles', outDirs') :=
        runGlob_matches options absProject globFiles foundFiles outDirs in
      runGlob_include options absProject rest foundFiles' outDirs'
  end.

(** The final loop of [runGlob] over [outDirs]. *)
Fixpoint make_outDirs (outDirs : list string) : M World unit :=
  match outDirs with
  | [] => ret tt
  | outDirPath :: rest =>
      let* present := exists_ (Some outDirPath) in
      do (if negb present then mkdir (Some outDirPath) else ret tt) then
      make_outDirs rest
  end.

(** [runGlob] from the parsed manifest on: the statements after
    [JSON.parse]. *)
Definition expandManifest (options : CLIOptions) (json : value)
  : M World (list FileInfo) :=
  let* files := lift_result (JS.getProp json "files") in
  let* include := lift_result (JS.getProp json "include") in
  let* dir := process_cwd in
  let* absProject := join [Some dir; project options] in
  let* present := exists_ (outDirPath options) in
  do (if negb present then mkdir (outDirPath options) else ret tt) then
  let* '(foundFiles, outDirs) :=
    (if JS.truthy files then
       let* items := lift_result (JS.iterate files) in
       runGlob_files options absProject items [] []
     else ret ([], [])) in
  let* '(foundFiles, outDirs) :=
    (if JS.truthy include then
       let* items := lift_result (JS.iterate include) in
       runGlob_include options absProject items foundFiles outDirs
     else ret (foundFiles, outDirs)) in
  do make_outDirs outDirs then
  ret foundFiles.

Definition runGlob (options : CLIOptions) : M World (list FileInfo) :=
  let* tsConfigPath := join [project options; Some "tsconfig.json"] in
  let* str := read_tsconfig options tsConfigPath in
  let* json := lift_result (JSON_parse str) in
  expandManifest options json.

(** [updateOptionsFromProject] from the parsed manifest on: the
    statements after [JSON.parse], which touch the options object only. *)
Definition applyManifest (json : value) : M (CLIOptions * World) unit :=
  let* options := get_options in
  do (if negb (includes (transforms (sucraseOptions options)) "typescript")
      then push_transform "typescript" else ret tt) then
  let* compilerOpts := lift_result (JS.getProp json "compilerOptions") in
  let* outDir := lift_result (JS.getProp compilerOpts "outDir") in
  do (if JS.truthy outDir then
        let* dir := liftW process_cwd in
        let* name := lift_result (JS.asString outDir) in
        let* p := join [Some dir; project options; Some name] in
        modify_options (λ c, with_outDirPath c (Some p))
      else ret tt) then
  let* esModuleInterop := lift_result (JS.getProp compilerOpts "esModuleInterop") in
  do (if negb (JS.is_true esModuleInterop) then
        modify_options (λ c,
          with_sucraseOptions c (with_legacyTypeScript (sucraseOptions c) (Some true)))
      else ret tt) then
  let* module_ := lift_result (JS.getProp compilerOpts "module") in
  if JS.is_str module_ "commonjs" then
    let* options := get_options in
    if negb (includes (transforms (sucraseOptions options)) "imports")
    then push_transform "imports" else ret tt
  else ret tt.

Definition updateOptionsFromProject : M (CLIOptions * World) unit :=
  let* options := get_options in
  let* tsConfigPath := join [project options; Some "tsconfig.json"] in
  let* str := liftW (read_tsconfig options tsConfigPath) in
  let* json := lift_result (JSON_parse str) in
  applyManifest json.

Definition buildFile (srcPath outPath : string) (options : CLIOptions)
  : M World unit :=
  do (if negb (JS.truthy_flag (quiet options))
      then console_log (srcPath +:+ " -> " +:+ outPath) else ret tt) then
  let* code := readFile srcPath in
  do emit (TransformCall srcPath) then
  let* transformedCode := lift_result (transform code (sucraseOptions options) srcPath) in
  writeFile outPath transformedCode.

(** The [for (const file of files)] loop of [buildDirectory]. *)
Fixpoint buildFiles (files : list FileInfo) (options : CLIOptions) : M World unit :=
  match files with
  | [] => ret tt
  | file :: rest =>
      do buildFile (srcPath file) (outPath file) options then
      buildFiles rest options
  end.

(** The discovery half of [buildDirectory]: the files to build and the
    options object as discovery leaves it. *)
Definition discover (fuel : nat) (options : CLIOptions)
  : M World (list FileInfo * CLIOptions) :=
  if JS.truthy_str (outDirPath options) && JS.truthy_str (srcDirPath options) then
    let* files := findFiles fuel options in
    ret (files, options)
  else if JS.truthy_str (project options) then
    let* '(_, options') := with_options options updateOptionsFromProject in
    let* files := runGlob options' in
    ret (files, options')
  else
    do console_error "Project or Source directory required." then
    exit_ 1.

Definition buildDirectory (fuel : nat) (options : CLIOptions) : M World unit :=
  let* '(files, options') := discover fuel options in
  buildFiles files options'.

Definition split_commas (o : option string) : list string :=
  match o with
  | Some s => if Str.nonempty s then Str.split "," s else []
  | None => []
  end.

Definition or_default (o : option string) (d : string) : string :=
  match o with
  | Some s => if Str.nonempty s then s else d
  | None => d
  end.

(** The options record that [run] builds from the command line. *)
Definition options_of (c : commander.t) : CLIOptions :=
  {| outDirPath := commander.outDir c;
     srcDirPath := head (commander.args c);
     project := commander.project c;
     outExtension := commander.outExtension c;
     excludeDirs := split_commas (commander.excludeDirs c);
     quiet := commander.quiet c;
     sucraseOptions :=
       {| transforms := split_commas (commander.transforms c);
          enableLegacyTypeScriptModuleInterop :=
            commander.enableLegacyTypescriptModuleInterop c;
          enableLegacyBabel5ModuleInterop :=
            commander.enableLegacyBabel5ModuleInterop c;
          jsxPragma := or_default (commander.jsxPragma c) "React.createElement";
          jsxFragmentPragma :=
            or_default (commander.jsxFragmentPragma c) "React.Fragment";
          production := commander.production c |} |}.

Definition fail_with (msg : string) : M World unit :=
  do console_error msg then exit_ 1.

(** The checks of [run] before the options record is built. *)
Definition validate (c : commander.t) : M World unit :=
  if JS.truthy_str (commander.project c) then
    if JS.truthy_str (commander.outDir c)
       || JS.truthy_str (commander.transforms c)
       || JS.truthy_str (head (commander.args c))
       || JS.truthy_flag (commander.enableLegacyTypescriptModuleInterop c)
    then
      fail_with
        ("If TypeScript project is specified, out directory, transforms, source "
         +:+ "directory, and --enable-legacy-typescript-module-interop may not be specified.")
    else ret tt
  else
    do (if negb (JS.truthy_str (commander.outDir c))
        then fail_with "Out directory is required" else ret tt) then
    do (if negb (JS.truthy_str (commander.transforms c))
        then fail_with "Transforms option is required." else ret tt) then
    (if negb (JS.truthy_str (head (commander.args c)))
     then fail_with "Source directory is required." else ret tt).

Definition run (fuel : nat) (c : commander.t) : M World unit :=
  do validate c then
  try_catch (buildDirectory fuel (options_of c))
    (λ e, do emit (SetExitCode 1) then console_error_obj e).

End Program.


(** ** Vocabulary of the statements *)

(** How many times a pass is listed. *)
Definition count (x : string) (l : list string) : nat :=
  count_occ String.eq_dec l x.

(** The path reached from [root] by going down through [names], one
    [join] at a time. *)
Definition descend (root : string) (names : list string) : string :=
  fold_left (λ d c, Path.join [d; c]) names root.

(** The file at [p] in a world, if [p] names a file. *)
Definition file_at (w : World) (p : string) : option string :=
  match fs w !! Fs.key (cwd w) p with
  | Some (File c) => Some c
  | _ => None
  end.

(** The progress line of [buildFile]. *)
Definition announce (options : CLIOptions) (file : FileInfo) : list Event :=
  if negb (JS.truthy_flag (quiet options))
  then [ConsoleLog (srcPath file +:+ " -> " +:+ outPath file)]
  else [].

(** The effects of one complete build of [file] that wrote [js]. *)
Definition build_events (options : CLIOptions) (file : FileInfo) (js : string)
  : list Event :=
  announce options file
  ++ [FsReadFile (srcPath file); TransformCall (srcPath file);
      FsWriteFile (outPath file) js].

Section BuildVocabulary.

Variable transform : string → Options → string → Err + string.
Variable options : CLIOptions.

(** [Built files jss w w']: from [w], every pair of [files] is read,
    transformed and written, in order, the writes being [jss], and the
    world is then [w']. *)
Inductive Built : list FileInfo → list string → World → World → Prop :=
| Built_nil w : Built [] [] w w
| Built_cons file rest code js jss fs' w w' :
    Fs.readFile (cwd w) (fs w) (srcPath file) = inr code →
    transform code (sucraseOptions options) (srcPath file) = inr js →
    Fs.writeFile (cwd w) (fs w) (outPath file) js = inr fs' →
    Built rest jss
      (mkWorld (cwd w) fs' (trace w ++ build_events options file js)) w' →
    Built (file :: rest) (js :: jss) w w'.

(** [Fails file w e w']: from [w], the build of [file] stops with [e] at
    the read, at the transform or at the write, leaving the world [w'],
    whose file system is that of [w]. *)
Inductive Fails (file : FileInfo) (w : World) : Err → World → Prop :=
| Fails_read e :
    Fs.readFile (cwd w) (fs w) (srcPath file) = inl e →
    Fails file w e
      (mkWorld (cwd w) (fs w)
         (trace w ++ announce options file ++ [FsReadFile (srcPath file)]))
| Fails_transform code e :
    Fs.readFile (cwd w) (fs w) (srcPath file) = inr code →
    transform code (sucraseOptions options) (srcPath file) = inl e →
    Fails file w e
      (mkWorld (cwd w) (fs w)
         (trace w ++ announce options file
          ++ [FsReadFile (srcPath file); TransformCall (srcPath file)]))
| Fails_write code js e :
    Fs.readFile (cwd w) (fs w) (srcPath file) = inr code →
    transform code (sucraseOptions options) (srcPath file) = inr js →
    Fs.writeFile (cwd w) (fs w) (outPath file) js = inl e →
    Fails file w e
      (mkWorld (cwd w) (fs w) (trace w ++ build_events options file js)).

End BuildVocabulary.

(** The world after more effects. *)
Definition log (w : World) (events : list Event) : World :=
  mkWorld (cwd w) (fs w) (trace w ++ events).

(** Whether [findFiles] passes over a child of that name. *)
Definition skipped (options : CLIOptions) (child : string) : bool :=
  includes reserved child || includes (excludeDirs options) child.

(** Names that the operating system can list and that [findFiles] does
    not pass over. *)
Definition visible (options : CLIOptions) (names : list string) : Prop :=
  Forall (λ n, Fs.valid_name n = true ∧ skipped options n = false) names.

(** A pair found by the walk from [src] to [out]: a file [stem ++ ext]
    with an accepted extension, reached through visible names, and the
    same location under [out] with the extension pattern replaced. *)
Definition found (ts : list string) (options : CLIOptions) (src out : string)
    (f : FileInfo) : Prop :=
  ∃ dirs stem ext,
    ext ∈ ts
    ∧ visible options (dirs ++ [stem +:+ ext])
    ∧ srcPath f = descend src (dirs ++ [stem +:+ ext])
    ∧ outPath f
      = Str.replace_ext (descend out (dirs ++ [stem +:+ ext]))
          ("." +:+ outExtension options).

(** An effect of the walk from [src] to [out]: a file-system call on a
    location reached through visible names. *)
Definition walk_event (options : CLIOptions) (src out : string) (e : Event) : Prop :=
  ∃ dirs,
    visible options dirs
    ∧ (e = FsExists (descend out dirs) ∨ e = FsMkdir (descend out dirs)
       ∨ e = FsReaddir (descend src dirs)
       ∨ (dirs ≠ [] ∧ e = FsStat (descend src dirs))).

(** What a walk from [src] to [out] started in [w] may end with. *)
Definition walk_spec (ts : list string) (options : CLIOptions) (src out : string)
    (w : World) (res : Outcome (list FileInfo) * World) : Prop :=
  ∃ new,
    trace (snd res) = trace w ++ new
    ∧ Forall (walk_event options src out) new
    ∧ ∀ pairs, fst res = Ret pairs → Forall (found ts options src out) pairs.

(** A pair that mirrors, under [out], a file under [src], with the
    extension [ext] of the file swapped for the output extension. *)
Definition mirrored (ts : list string) (options : CLIOptions) (src out : string)
    (f : FileInfo) : Prop :=
  ∃ dirs stem ext,
    ext ∈ ts
    ∧ Forall (λ n, Fs.valid_name n = true) (dirs ++ [stem +:+ ext])
    ∧ Fs.valid_name (stem +:+ "." +:+ outExtension options) = true
    ∧ srcPath f = descend src (dirs ++ [stem +:+ ext])
    ∧ outPath f = descend out (dirs ++ [stem +:+ "." +:+ outExtension options]).

(** Whether project file resolution keeps a file of that name: a [.ts]
    or [.js] name that is not a declaration file. *)
Definition source_suffix (file : string) : bool :=
  (Str.endsWith file ".ts" || Str.endsWith file ".js")
  && negb (Str.endsWith file ".d.ts").

(** The output path for the project-relative path [rel]. *)
Definition out_path (options : CLIOptions) (out rel : string) : string :=
  Str.replace_ext (Path.join [out; rel]) ("." +:+ outExtension options).

(** The pairs of the entries of [json.files], one per kept entry. *)
Definition files_pairs (options : CLIOptions) (out absProject : string)
    (items : list value) : list FileInfo :=
  flat_map
    (λ v, match v with
          | VStr name =>
              if source_suffix name
              then [mkFileInfo (Path.join [absProject; name]) (out_path options out name)]
              else []
          | _ => []
          end) items.

(** The pairs of the matches of one pattern, one per kept match. *)
Definition matches_pairs (dir : string) (options : CLIOptions)
    (out absProject : string) (files : list string) : list FileInfo :=
  map (λ file, mkFileInfo file
                 (out_path options out (Path.relative dir absProject file)))
    (filter (λ file, source_suffix file = true) files).

(** The pairs of the patterns of [json.include], for a glob that reads
    the file system [f]. *)
Definition include_pairs (globCb : gmap string node → string → Err + list string)
    (dir : string) (f : gmap string node) (options : CLIOptions)
    (out absProject : string) (patterns : list value) : list FileInfo :=
  flat_map
    (λ v, match v with
          | VStr pat =>
              match globCb f (Path.join [absProject; pat]) with
              | inr files => matches_pairs dir options out absProject files
              | inl _ => []
              end
          | _ => []
          end) patterns.

(** The glob calls for the patterns of [json.include]. *)
Definition include_globs (absProject : string) (patterns : list value) : list Event :=
  flat_map
    (λ v, match v with
          | VStr pat => [GlobCall (Path.join [absProject; pat])]
          | _ => []
          end) patterns.

(** The values that a [for ... of] loop guarded by [if (v)] visits when
    it completes. *)
Definition entries (v : value) : list value :=
  if JS.truthy v
  then match JS.iterate v with inr items => items | inl _ => [] end
  else [].

(** The directories that hold the output paths of the pairs, and the
    same without repetition, in order of first mention. *)
Definition needed_dirs (pairs : list FileInfo) : list string :=
  map (λ f, Path.dirname (outPath f)) pairs.

Definition first_mentions (dirs : list string) : list string :=
  fold_left note_dir dirs [].

(** [Created dir dirs f events f']: going through [dirs] in order, each
    directory that does not exist yet is created by one successful,
    non-recursive [mkdir]; [events] are the calls made and [f'] the file
    system reached. *)
Inductive Created (dir : string)
  : list string → gmap string node → list Event → gmap string node → Prop :=
| Created_nil f : Created dir [] f [] f
| Created_present d dirs f events f' :
    Fs.exists_ dir f d = true →
    Created dir dirs f events f' →
    Created dir (d :: dirs) f (FsExists d :: events) f'
| Created_fresh d dirs f f1 events f' :
    Fs.exists_ dir f d = false →
    Fs.mkdir dir f d = inr f1 →
    Created dir dirs f1 events f' →
    Created dir (d :: dirs) f (FsExists d :: FsMkdir d :: events) f'.

(** The directories on which [mkdir] is called in a trace. *)
Definition mkdir_calls (events : list Event) : list string :=
  flat_map (λ e, match e with FsMkdir d => [d] | _ => [] end) events.

(** C5 as stated asks this of a trace: every [mkdir] of a directory that
    holds an output path comes after every glob call, that is, after the
    pair list has been computed. *)
Definition creations_follow_discovery (events : list Event) (pairs : list FileInfo)
  : Prop :=
  ∀ i j d pattern,
    events !! i = Some (FsMkdir d) →
    d ∈ needed_dirs pairs →
    events !! j = Some (GlobCall pattern) →
    j < i.

(** ** Vocabulary of the frame and coverage properties *)

(** The effects that discovery (either mode) can have: everything except
    a write, a transform call, a progress line and the exit code. *)
Definition discovery_event (e : Event) : bool :=
  match e with
  | FsWriteFile _ _ | TransformCall _ | ConsoleLog _ | SetExitCode _ => false
  | _ => true
  end.

(** The effects of the build loop: reads, transform calls and writes,
    and progress lines unless [quiet] is set. *)
Definition build_event (options : CLIOptions) (e : Event) : bool :=
  match e with
  | FsReadFile _ | TransformCall _ | FsWriteFile _ _ => true
  | ConsoleLog _ => negb (JS.truthy_flag (quiet options))
  | _ => false
  end.

(** Everything but a line on standard output. *)
Definition silent (e : Event) : bool :=
  match e with ConsoleLog _ => false | _ => true end.

(** A node as it may be found later at key [k]: a file is still a file,
    with the same content unless [k] is writable; a directory is still a
    directory, which has only gained entries. *)
Definition node_kept (writable : string → Prop) (k : string) (n n' : node) : Prop :=
  match n, n' with
  | File c, File c' => ¬ writable k → c' = c
  | Dir l, Dir l' => ∃ more, l' = l ++ more
  | _, _ => False
  end.

(** A later file system: every node is kept, a file that is not at a
    writable key was there before with the same content, and every new
    node is listed by its parent directory. *)
Definition fs_kept (writable : string → Prop) (f f' : gmap string node) : Prop :=
  (∀ k n, f !! k = Some n → ∃ n', f' !! k = Some n' ∧ node_kept writable k n n')
  ∧ (∀ k c, f' !! k = Some (File c) → ¬ writable k → f !! k = Some (File c))
  ∧ (∀ k, f !! k = None → is_Some (f' !! k) →
       ∃ l, f' !! Path.dirname k = Some (Dir l) ∧ Path.basename k ∈ l).

(** A later world: same working directory, more effects, all of them
    [allowed], and a later file system. *)
Definition evolves (allowed : Event → bool) (writable : string → Prop)
    (w w' : World) : Prop :=
  cwd w' = cwd w
  ∧ (∃ new, trace w' = trace w ++ new ∧ Forall (λ e, allowed e = true) new)
  ∧ fs_kept writable (fs w) (fs w').

Definition discovers : World → World → Prop :=
  evolves discovery_event (λ _, False).

(** The keys of the output paths of [files]. *)
Definition output_key (dir : string) (files : list FileInfo) (k : string) : Prop :=
  ∃ f, f ∈ files ∧ k = Fs.key dir (outPath f).

Definition builds (options : CLIOptions) (files : list FileInfo) (w w' : World)
  : Prop :=
  evolves (build_event options) (output_key (cwd w) files) w w'.

Definition prints_nothing (w w' : World) : Prop :=
  ∃ new, trace w' = trace w ++ new ∧ Forall (λ e, silent e = true) new.

(** [keeps R E m]: however [m] ends, the states before and after are
    related by [R], and if it ends with [process.exit] the status
    satisfies [E]. *)
Definition keeps {S A} (R : S → S → Prop) (E : Z → Prop) (m : M S A) : Prop :=
  ∀ s r s', m s = (r, s') → R s s' ∧ ∀ c, r = Exit c → E c.

Definition no_exit : Z → Prop := λ _, False.
Definition exit_one : Z → Prop := λ c, c = 1%Z.

(** The fields of the options object that manifest resolution never
    assigns. *)
Definition untouched (o o' : CLIOptions) : Prop :=
  project o' = project o
  ∧ srcDirPath o' = srcDirPath o
  ∧ outExtension o' = outExtension o
  ∧ excludeDirs o' = excludeDirs o
  ∧ quiet o' = quiet o
  ∧ enableLegacyBabel5ModuleInterop (sucraseOptions o')
    = enableLegacyBabel5ModuleInterop (sucraseOptions o)
  ∧ jsxPragma (sucraseOptions o') = jsxPragma (sucraseOptions o)
  ∧ jsxFragmentPragma (sucraseOptions o') = jsxFragmentPragma (sucraseOptions o)
  ∧ production (sucraseOptions o') = production (sucraseOptions o).

(** [listed options dir f src names]: in the file system [f], going down
    from [src] through [names], every name is listed by its parent
    directory and is not passed over by [findFiles]. *)
Fixpoint listed (options : CLIOptions) (dir : string) (f : gmap string node)
    (src : string) (names : list string) : Prop :=
  match names with
  | [] => True
  | c :: rest =>
      (∃ l, Fs.readdir dir f src = inr l ∧ c ∈ l)
      ∧ skipped options c = false
      ∧ listed options dir f (Path.join [src; c]) rest
  end.

(** The options of the recursive call of [findFiles] on the child [c]. *)
Definition inner_options (options : CLIOptions) (src out c : string) : CLIOptions :=
  with_outDirPath (with_srcDirPath options (Some (Path.join [src; c])))
    (Some (Path.join [out; c])).

(** Events that leave [process.exitCode] as it is. *)
Definition keeps_code (e : Event) : bool :=
  match e with SetExitCode _ => false | _ => true end.

(** A later trace in which [process.exitCode] was not assigned. *)
Definition leaves_exit_code (w w' : World) : Prop :=
  ∃ new, trace w' = trace w ++ new ∧ Forall (λ e, keeps_code e = true) new.

(** A path segment that [path.normalize] keeps. *)
Definition kept_seg (x : string) : Prop := x ≠ "" ∧ x ≠ ".".

(** The chain [src/c], [src/c/c], ... holds no file, and each of its
    directories that exists is listed by the one before it. *)
Definition nesting_open (dir : string) (f : gmap string node) (src c : string) : Prop :=
  ∀ n, match f !! Fs.key dir (descend src (replicate (S n) c)) with
       | None => True
       | Some (File _) => False
       | Some (Dir _) =>
           ∃ l, f !! Fs.key dir (descend src (replicate n c)) = Some (Dir l) ∧ c ∈ l
       end.

(** ** Concrete worlds used by the examples *)

Module Examples.

Definition manifest_plain : value :=
  VObj [("compilerOptions", VObj [("outDir", VStr "out")])].

Definition manifest_both : value :=
  VObj [("files", VArr [VStr "x.ts"]);
        ("include", VArr [VStr "*.ts"]);
        ("compilerOptions", VObj [("outDir", VStr "out")])].

Definition manifest_nested : value :=
  VObj [("files", VArr [VStr "a/b/c.ts"]);
        ("compilerOptions", VObj [("outDir", VStr "out")])].

Definition manifest_no_outDir : value :=
  VObj [("files", VArr [VStr "x.ts"]);
        ("compilerOptions", VObj [("esModuleInterop", VBool true)])].

(** A manifest reader that knows the manifests of the examples. *)
Definition JSON_parse (s : string) : Err + value :=
  if bool_decide (s = "{}") then inr (VObj [])
  else if bool_decide (s = "plain") then inr manifest_plain
  else if bool_decide (s = "both") then inr manifest_both
  else if bool_decide (s = "nested") then inr manifest_nested
  else if bool_decide (s = "no outDir") then inr manifest_no_outDir
  else inl (SyntaxError "Unexpected token").

(** A glob that knows one pattern. *)
Definition globCb (f : gmap string node) (pattern : string) : Err + list string :=
  if bool_decide (pattern = "/w/proj/*.ts")
  then inr (filter (λ p, is_Some (f !! p)) ["/w/proj/x.ts"; "/w/proj/z.ts"])
  else inr [].

(** A transform that rejects a source ending in [!]. *)
Definition transform (code : string) (o : Options) (filePath : string)
  : Err + string :=
  if Str.endsWith code "!" then inl (ExternalError ("cannot parse " +:+ filePath))
  else inr ("js:" +:+ code).

(** A project in [/w/proj] whose manifest holds [manifest]. *)
Definition project_tree (manifest : string) : gmap string node :=
  list_to_map
    [("/", Dir ["w"]); ("/w", Dir ["proj"]);
     ("/w/proj", Dir ["tsconfig.json"; "x.ts"; "z.ts"]);
     ("/w/proj/tsconfig.json", File manifest);
     ("/w/proj/x.ts", File "x"); ("/w/proj/z.ts", File "z")].

Definition project_world (manifest : string) : World :=
  mkWorld "/w" (project_tree manifest) [].

(** The same project once its output root has been created. *)
Definition project_tree_with_out (manifest : string) : gmap string node :=
  match Fs.mkdir "/w" (project_tree manifest) "/w/proj/out" with
  | inr f => f
  | inl _ => project_tree manifest
  end.

Definition sucrase_defaults (ts : list string) : Options :=
  mkOptions ts None None "React.createElement" "React.Fragment" None.

Definition project_options (ts : list string) : CLIOptions :=
  mkCLIOptions None None (Some "proj") "js" [] (Some true) (sucrase_defaults ts).

Definition project_command : commander.t :=
  commander.mk None (Some "proj") "js" None None (Some true) None None None None
    None [].

(** A source tree [src] with a nested directory and a dependency
    directory. *)
Definition source_tree : gmap string node :=
  list_to_map
    [("/", Dir ["w"]); ("/w", Dir ["src"]);
     ("/w/src", Dir ["a.ts"; "node_modules"; "sub"; "c.js"]);
     ("/w/src/a.ts", File "a");
     ("/w/src/node_modules", Dir ["m.ts"]);
     ("/w/src/node_modules/m.ts", File "m");
     ("/w/src/sub", Dir ["b.x.tsx"; ".git"]);
     ("/w/src/sub/b.x.tsx", File "b");
     ("/w/src/sub/.git", Dir ["hook.ts"]);
     ("/w/src/sub/.git/hook.ts", File "h");
     ("/w/src/c.js", File "c")].

Definition source_world : World := mkWorld "/w" source_tree [].

Definition explicit_options : CLIOptions :=
  mkCLIOptions (Some "out") (Some "src") None "js" [] (Some true)
    (sucrase_defaults ["typescript"]).

End Examples.

(** More command lines, manifests and trees, used by the examples of the
    frame and coverage properties. *)
Module Scenarios.

Definition tree_command : commander.t :=
  commander.mk (Some "out") None "js" None (Some "typescript") (Some true) None None
    None None None ["src"].

Definition list_command : commander.t :=
  commander.mk (Some "out") None "js" (Some "dist,tmp") (Some "typescript,imports")
    None None None None None None ["src"].

Definition mixed_command : commander.t :=
  commander.mk (Some "out") (Some "proj") "js" None None None None None None None
    None [].

Definition bare_command : commander.t :=
  commander.mk None None "js" None None None None None None None None [].

Definition manifest_commonjs : value :=
  VObj [("compilerOptions",
         VObj [("outDir", VStr "out"); ("module", VStr "commonjs")])].

Definition manifest_bad_entry : value :=
  VObj [("files", VArr [VStr "x.ts"; VNum 7; VStr "z.ts"]);
        ("compilerOptions", VObj [("outDir", VStr "out")])].

(** The manifest reader of the examples, which also knows a CommonJS
    manifest. *)
Definition JSON_parse (s : string) : Err + value :=
  if bool_decide (s = "commonjs") then inr manifest_commonjs
  else Examples.JSON_parse s.

Definition orphan_options : CLIOptions :=
  mkCLIOptions None None (Some "nowhere") "js" [] None (Examples.sucrase_defaults []).

(** Project options once resolution has set the output directory. *)
Definition resolved_options : CLIOptions :=
  mkCLIOptions (Some "/w/proj/out") None (Some "proj") "js" [] (Some true)
    (Examples.sucrase_defaults ["typescript"]).

Definition resolved_pairs : list FileInfo :=
  [mkFileInfo "/w/proj/x.ts" "/w/proj/out/x.js";
   mkFileInfo "/w/proj/x.ts" "/w/proj/out/x.js";
   mkFileInfo "/w/proj/z.ts" "/w/proj/out/z.js"].

(** Options whose source directory does not exist in the source tree. *)
Definition lost_options : CLIOptions :=
  mkCLIOptions (Some "out") (Some "nosrc") None "js" [] (Some true)
    (Examples.sucrase_defaults ["typescript"]).

Definition source_tree_with_out : gmap string node :=
  match Fs.mkdir "/w" Examples.source_tree "out" with
  | inr f => f
  | inl _ => Examples.source_tree
  end.

Definition source_pairs : list FileInfo :=
  [mkFileInfo "src/a.ts" "out/a.js"; mkFileInfo "src/sub/b.x.tsx" "out/sub/b.x.js"].

Definition flat_tree : gmap string node :=
  list_to_map [("/", Dir ["a.ts"; "c.ts"; "out"]); ("/out", Dir []);
               ("/a.ts", File "a"); ("/c.ts", File "c")].

Definition flat_world : World := mkWorld "/" flat_tree [].

Definition flat_pairs : list FileInfo :=
  [mkFileInfo "/a.ts" "/out/a.js"; mkFileInfo "/c.ts" "/out/c.js"].

(** The current directory compiled into one of its own children. *)
Definition inward_options : CLIOptions :=
  mkCLIOptions (Some "out") (Some ".") None "js" [] (Some true)
    (Examples.sucrase_defaults ["typescript"]).

End Scenarios.

(** * Properties *)

(** ** The monad *)

Lemma bind_Ret {S A B} (m : M S A) (k : A → M S B) s a s1 :
  m s = (Ret a, s1) → bind m k s = k a s1.
Proof. intros H. unfold bind. by rewrite H. Qed.

Lemma bind_Throw {S A B} (m : M S A) (k : A → M S B) s e s1 :
  m s = (Throw e, s1) → bind m k s = (Throw e, s1).
Proof. intros H. unfold bind. by rewrite H. Qed.

Lemma bind_inv {S A B} (m : M S A) (k : A → M S B) s r s' :
  bind m k s = (r, s') →
  (∃ a s1, m s = (Ret a, s1) ∧ k a s1 = (r, s'))
  ∨ ((∀ b, r ≠ Ret b)
     ∧ ((∃ e, m s = (Throw e, s') ∧ r = Throw e)
        ∨ (∃ c, m s = (Exit c, s') ∧ r = Exit c)
        ∨ (m s = (OutOfFuel, s') ∧ r = OutOfFuel))).
Proof.
  unfold bind. destruct (m s) as [[a|e|c|] s1]; intros H.
  - left. eauto.
  - right. inversion H; subst. split; [done|]. left. eauto.
  - right. inversion H; subst. split; [done|]. right. left. eauto.
  - right. inversion H; subst. split; [done|]. right. right. eauto.
Qed.

Lemma bind_Ret_inv {S A B} (m : M S A) (k : A → M S B) s b s' :
  bind m k s = (Ret b, s') →
  ∃ a s1, m s = (Ret a, s1) ∧ k a s1 = (Ret b, s').
Proof.
  intros H. apply bind_inv in H as [H|[Hne _]]; [done|]. by destruct (Hne b).
Qed.

Lemma join_strings {S} (l : list string) (s : S) :
  join (map Some l) s = (Ret (Path.join l), s).
Proof.
  unfold join.
  assert (Hl : path_args (map Some l) s = (Ret l, s)).
  { induction l as [|x l IH]; [done|]. simpl.
    unfold bind at 1. simpl. unfold bind at 1. by rewrite IH. }
  unfold bind. by rewrite Hl.
Qed.

(** ** Reading the manifest *)

Lemma read_tsconfig_found options p w str :
  Fs.readFile (cwd w) (fs w) p = inr str →
  read_tsconfig options p w
  = (Ret str, mkWorld (cwd w) (fs w) (trace w ++ [FsReadFile p])).
Proof.
  intros H.
  unfold read_tsconfig, try_catch, readFile, bind, emit, get_fs, process_cwd.
  simpl. by rewrite H.
Qed.

Lemma read_tsconfig_missing options p w e :
  Fs.readFile (cwd w) (fs w) p = inl e →
  read_tsconfig options p w
  = (Exit 1,
     mkWorld (cwd w) (fs w)
       (trace w ++ [FsReadFile p;
                    ConsoleError "Could not find project tsconfig.json";
                    ConsoleError ("  --project=" +:+ JS.show (project options));
                    ConsoleErrorObj e])).
Proof.
  intros H.
  unfold read_tsconfig, try_catch, readFile, bind, emit, get_fs, process_cwd.
  simpl. rewrite H. simpl.
  unfold console_error, console_error_obj, emit, exit_. simpl.
  by rewrite <- !app_assoc.
Qed.

(** ** Counting passes *)

Lemma count_absent x l : includes l x = false → count x l = 0.
Proof.
  unfold includes, count. intros H. apply bool_decide_eq_false in H.
  apply count_occ_not_In. by rewrite <- list_elem_of_In.
Qed.

Lemma count_present x l : includes l x = true → 1 ≤ count x l.
Proof.
  unfold includes, count. intros H. apply bool_decide_eq_true in H.
  apply list_elem_of_In in H. apply (count_occ_In String.eq_dec) in H. lia.
Qed.

Lemma count_app x l1 l2 : count x (l1 ++ l2) = count x l1 + count x l2.
Proof. apply count_occ_app. Qed.

(** ** Manifest resolution *)

Ltac run_options :=
  cbv beta iota zeta delta
    [applyManifest bind ret throw lift_result get_options modify_options
     push_transform join path_args path_arg JS.getProp JS.asString liftW
     process_cwd fst snd] in *.

Ltac split_cases :=
  repeat (case_match; simpl in *; try discriminate;
          repeat match goal with
                 | H : (_, _) = (_, _) |- _ => inversion H; try clear H; subst
                 | H : Ret _ = Ret _ |- _ => inversion H; try clear H; subst
                 | H : Some _ = Some _ |- _ => inversion H; try clear H; subst
                 | H : inr _ = inr _ |- _ => inversion H; try clear H; subst
                 | H : inl _ = inl _ |- _ => inversion H; try clear H; subst
                 end).

Section Resolution.

Variable JSON_parse : string → Err + value.

(** Resolution from a parsed manifest never touches the world. *)
Lemma applyManifest_world json o w :
  snd (snd (applyManifest json (o, w))) = w.
Proof. run_options. split_cases; done. Qed.

Lemma updateOptionsFromProject_parsed o w p str json :
  project o = Some p →
  Fs.readFile (cwd w) (fs w) (Path.join [p; "tsconfig.json"]) = inr str →
  JSON_parse str = inr json →
  updateOptionsFromProject JSON_parse (o, w)
  = applyManifest json
      (o, mkWorld (cwd w) (fs w)
            (trace w ++ [FsReadFile (Path.join [p; "tsconfig.json"])])).
Proof.
  intros Hp Hread Hparse. unfold updateOptionsFromProject.
  unfold bind at 1. unfold get_options at 1. simpl. rewrite Hp.
  rewrite (bind_Ret _ _ _ _ _ (join_strings [p; "tsconfig.json"] _)).
  unfold bind at 1. unfold liftW. simpl.
  rewrite (read_tsconfig_found _ _ _ _ Hread).
  unfold bind at 1. rewrite Hparse. reflexivity.
Qed.

(** The transform list after resolution, whatever the outcome: the
    input list, then [typescript] if it was missing, then possibly
    [imports]. *)
Lemma applyManifest_transforms json o w :
  ∃ more,
    transforms (sucraseOptions (fst (snd (applyManifest json (o, w)))))
    = transforms (sucraseOptions o)
      ++ (if includes (transforms (sucraseOptions o)) "typescript"
          then [] else ["typescript"])
      ++ more
    ∧ (more = [] ∨ more = ["imports"]).
Proof.
  run_options.
  split_cases;
    first [ by (exists []; rewrite ?app_nil_r; auto)
          | by (exists ["imports"]; rewrite <- ?app_assoc; auto) ].
Qed.

Lemma prop_absent json k : JS.has_member json k = false → JS.prop json k = VUndefined.
Proof.
  destruct json as [| | | | |?|fields]; try done. simpl. intros H.
  apply bool_decide_eq_false in H.
  induction fields as [|[k' v] fields IH]; [done|]. simpl in *.
  case_bool_decide as Hk.
  - subst. destruct H. apply list_elem_of_here.
  - apply IH. intros Hin. apply H. by apply list_elem_of_further.
Qed.

(** Resolution on a manifest whose [compilerOptions] is an object (or any
    value other than [undefined] and [null]) and whose [outDir] is
    absent, falsy or a string: it completes. *)
Lemma applyManifest_completes json o w :
  JS.nullish (JS.prop json "compilerOptions") = false →
  (JS.truthy (JS.prop (JS.prop json "compilerOptions") "outDir") = false
   ∨ ∃ s, JS.prop (JS.prop json "compilerOptions") "outDir" = VStr s) →
  project o ≠ None →
  fst (applyManifest json (o, w)) = Ret tt.
Proof.
  intros Hco Hout Hp.
  assert (Hj : JS.nullish json = false) by (by destruct json).
  run_options. rewrite Hj, Hco.
  destruct Hout as [Hf|[s Hs]].
  - rewrite Hf. split_cases; done.
  - rewrite Hs. destruct (project o) eqn:E; [|done]. split_cases; done.
Qed.

Lemma applyManifest_legacy json o w :
  fst (applyManifest json (o, w)) = Ret tt →
  enableLegacyTypeScriptModuleInterop
    (sucraseOptions (fst (snd (applyManifest json (o, w)))))
  = if JS.is_true (JS.prop (JS.prop json "compilerOptions") "esModuleInterop")
    then enableLegacyTypeScriptModuleInterop (sucraseOptions o)
    else Some true.
Proof. run_options. split_cases; done. Qed.

Lemma applyManifest_outDir_absent json o w :
  JS.truthy (JS.prop (JS.prop json "compilerOptions") "outDir") = false →
  outDirPath (fst (snd (applyManifest json (o, w)))) = outDirPath o.
Proof.
  intros Hf. run_options.
  destruct (JS.nullish json); [split_cases; done|].
  destruct (JS.nullish (JS.prop json "compilerOptions")); [split_cases; done|].
  rewrite Hf. split_cases; done.
Qed.

Lemma applyManifest_no_compilerOptions json o w :
  JS.has_member json "compilerOptions" = false →
  ∃ msg o', applyManifest json (o, w) = (Throw (TypeError msg), (o', w)).
Proof.
  intros H. apply prop_absent in H.
  run_options. rewrite H. simpl.
  split_cases; eauto.
Qed.

End Resolution.

(** ** Claims about manifest resolution *)

Section ResolutionClaims.

Variable JSON_parse : string → Err + value.
Variable globCb : gmap string node → string → Err + list string.
Variable transform : string → Options → string → Err + string.

(** C3 (amended).  In project mode, once the manifest has been read and
    parsed, the enabled-transforms list holds the [typescript] pass as
    many times as the input list did, and once if the input list did not
    hold it: the pass is appended when missing and never duplicated, so
    it is listed exactly once whenever the input listed it at most once,
    and a pass listed several times on input stays listed several
    times. *)
Theorem typescript_pass_count_after_resolution options w p str json :
  project options = Some p →
  Fs.readFile (cwd w) (fs w) (Path.join [p; "tsconfig.json"]) = inr str →
  JSON_parse str = inr json →
  let options' := fst (snd (updateOptionsFromProject JSON_parse (options, w))) in
  count "typescript" (transforms (sucraseOptions options'))
  = max 1 (count "typescript" (transforms (sucraseOptions options)))
  ∧ (count "typescript" (transforms (sucraseOptions options)) ≤ 1 →
     count "typescript" (transforms (sucraseOptions options')) = 1).
Proof.
  intros Hp Hread Hparse. simpl.
  rewrite (updateOptionsFromProject_parsed _ _ _ _ _ _ Hp Hread Hparse).
  destruct (applyManifest_transforms json options
              (mkWorld (cwd w) (fs w)
                 (trace w ++ [FsReadFile (Path.join [p; "tsconfig.json"])])))
    as (more & -> & Hmore).
  rewrite !count_app.
  assert (Hm : count "typescript" more = 0) by (by destruct Hmore as [-> | ->]).
  rewrite Hm.
  destruct (includes (transforms (sucraseOptions options)) "typescript") eqn:Hin.
  - apply count_present in Hin. simpl. lia.
  - apply count_absent in Hin. rewrite Hin. simpl. lia.
Qed.

(** C4.  On a manifest whose [compilerOptions] is present and whose
    [outDir] is absent, falsy or a string, resolution completes and sets
    the legacy TypeScript interop flag to [true] exactly when
    [compilerOptions.esModuleInterop] is not the boolean [true]; when it
    is, the flag keeps the value it had. *)
Theorem legacy_interop_forced_unless_esModuleInterop options w p str json :
  project options = Some p →
  Fs.readFile (cwd w) (fs w) (Path.join [p; "tsconfig.json"]) = inr str →
  JSON_parse str = inr json →
  JS.nullish (JS.prop json "compilerOptions") = false →
  (JS.truthy (JS.prop (JS.prop json "compilerOptions") "outDir") = false
   ∨ ∃ s, JS.prop (JS.prop json "compilerOptions") "outDir" = VStr s) →
  let res := updateOptionsFromProject JSON_parse (options, w) in
  fst res = Ret tt
  ∧ enableLegacyTypeScriptModuleInterop (sucraseOptions (fst (snd res)))
    = if JS.is_true (JS.prop (JS.prop json "compilerOptions") "esModuleInterop")
      then enableLegacyTypeScriptModuleInterop (sucraseOptions options)
      else Some true.
Proof.
  intros Hp Hread Hparse Hco Hout. simpl.
  rewrite (updateOptionsFromProject_parsed _ _ _ _ _ _ Hp Hread Hparse).
  assert (Hret : fst (applyManifest json
                        (options,
                         mkWorld (cwd w) (fs w)
                           (trace w ++ [FsReadFile (Path.join [p; "tsconfig.json"])])))
                 = Ret tt).
  { apply applyManifest_completes; [done|done|]. by rewrite Hp. }
  split; [done|]. by apply applyManifest_legacy.
Qed.

Lemma discover_project_mode fuel options w :
  JS.truthy_str (outDirPath options) && JS.truthy_str (srcDirPath options) = false →
  JS.truthy_str (project options) = true →
  discover JSON_parse globCb fuel options w
  = (let* '(_, options') :=
       with_options options (updateOptionsFromProject JSON_parse) in
     let* files := runGlob JSON_parse globCb options' in
     ret (files, options')) w.
Proof. intros H1 H2. unfold discover. by rewrite H1, H2. Qed.

(** C9.  In project mode, a manifest that parses but has no
    [compilerOptions] member makes manifest resolution throw a
    [TypeError], and the build fails with it at once: the only effect is
    the one read of the manifest, so project file resolution never
    starts and no file pair is discovered. *)
Theorem missing_compilerOptions_fails fuel options w p str json :
  JS.truthy_str (outDirPath options) && JS.truthy_str (srcDirPath options) = false →
  project options = Some p →
  JS.truthy_str (Some p) = true →
  Fs.readFile (cwd w) (fs w) (Path.join [p; "tsconfig.json"]) = inr str →
  JSON_parse str = inr json →
  JS.has_member json "compilerOptions" = false →
  ∃ msg,
    fst (updateOptionsFromProject JSON_parse (options, w)) = Throw (TypeError msg)
    ∧ buildDirectory JSON_parse globCb transform fuel options w
      = (Throw (TypeError msg),
         mkWorld (cwd w) (fs w)
           (trace w ++ [FsReadFile (Path.join [p; "tsconfig.json"])])).
Proof.
  intros Hmode Hp Htruthy Hread Hparse Hno.
  destruct (applyManifest_no_compilerOptions json options
              (mkWorld (cwd w) (fs w)
                 (trace w ++ [FsReadFile (Path.join [p; "tsconfig.json"])])) Hno)
    as (msg & o' & Happly).
  exists msg.
  pose proof (updateOptionsFromProject_parsed _ _ _ _ _ _ Hp Hread Hparse) as Hupd.
  rewrite Happly in Hupd. split; [by rewrite Hupd|].
  unfold buildDirectory. unfold bind at 1.
  rewrite discover_project_mode; [|done|by rewrite Hp].
  unfold bind at 1. unfold with_options. by rewrite Hupd.
Qed.

(** C8.  [buildDirectory] selects explicit tree discovery when both an
    output directory and a source directory are set; otherwise, when a
    project directory is set, it runs manifest resolution and then
    project file resolution; otherwise it reports a configuration error
    and exits with status 1 without any file-system effect. *)
Theorem mode_selection fuel options w :
  buildDirectory JSON_parse globCb transform fuel options w
  = if JS.truthy_str (outDirPath options) && JS.truthy_str (srcDirPath options)
    then (let* files := findFiles fuel options in
          buildFiles transform files options) w
    else if JS.truthy_str (project options)
    then (let* '(_, options') :=
            with_options options (updateOptionsFromProject JSON_parse) in
          let* files := runGlob JSON_parse globCb options' in
          buildFiles transform files options') w
    else (Exit 1,
          mkWorld (cwd w) (fs w)
            (trace w ++ [ConsoleError "Project or Source directory required."])).
Proof.
  unfold buildDirectory, discover.
  destruct (JS.truthy_str (outDirPath options) && JS.truthy_str (srcDirPath options)).
  - unfold bind. by destruct (findFiles fuel options w) as [[]].
  - destruct (JS.truthy_str (project options)); [|done].
    unfold bind.
    destruct (with_options options (updateOptionsFromProject JSON_parse) w)
      as [[[[] o']| | |] w1]; try done.
    by destruct (runGlob JSON_parse globCb o' w1) as [[]].
Qed.

End ResolutionClaims.

(** In project mode the checks of [run] leave no transform on the
    command line, so the list that resolution starts from is empty. *)
Lemma project_mode_transforms_empty c w p :
  commander.project c = Some p →
  JS.truthy_str (Some p) = true →
  fst (validate c w) = Ret tt →
  transforms (sucraseOptions (options_of c)) = [].
Proof.
  intros Hp Ht. unfold validate. rewrite Hp, Ht. simpl.
  destruct (JS.truthy_str (commander.outDir c)); [done|]. simpl.
  unfold split_commas.
  destruct (commander.transforms c) as [s|]; [|done]. simpl.
  by destruct (Str.nonempty s).
Qed.

(** C3, as stated, fails: a list that holds [typescript] twice still
    holds it twice after resolution. *)
Lemma typescript_pass_listed_twice :
  let options := Examples.project_options ["typescript"; "typescript"] in
  let res := updateOptionsFromProject Examples.JSON_parse
               (options, Examples.project_world "plain") in
  fst res = Ret tt
  ∧ count "typescript" (transforms (sucraseOptions (fst (snd res)))) ≠ 1.
Proof. vm_compute. split; [reflexivity|discriminate]. Qed.

Lemma typescript_pass_count_witness :
  let options := Examples.project_options [] in
  let w := Examples.project_world "plain" in
  let options' := fst (snd (updateOptionsFromProject Examples.JSON_parse (options, w))) in
  count "typescript" (transforms (sucraseOptions options'))
  = max 1 (count "typescript" (transforms (sucraseOptions options)))
  ∧ (count "typescript" (transforms (sucraseOptions options)) ≤ 1 →
     count "typescript" (transforms (sucraseOptions options')) = 1).
Proof.
  apply (typescript_pass_count_after_resolution Examples.JSON_parse
           (Examples.project_options []) (Examples.project_world "plain")
           "proj" "plain" Examples.manifest_plain);
    vm_compute; reflexivity.
Defined.

Lemma legacy_interop_witness :
  let options := Examples.project_options [] in
  let w := Examples.project_world "no outDir" in
  let res := updateOptionsFromProject Examples.JSON_parse (options, w) in
  fst res = Ret tt
  ∧ enableLegacyTypeScriptModuleInterop (sucraseOptions (fst (snd res)))
    = if JS.is_true
           (JS.prop (JS.prop Examples.manifest_no_outDir "compilerOptions")
              "esModuleInterop")
      then enableLegacyTypeScriptModuleInterop (sucraseOptions options)
      else Some true.
Proof.
  apply (legacy_interop_forced_unless_esModuleInterop Examples.JSON_parse
           (Examples.project_options []) (Examples.project_world "no outDir")
           "proj" "no outDir" Examples.manifest_no_outDir);
    try (vm_compute; reflexivity).
  left. vm_compute. reflexivity.
Defined.

Lemma missing_compilerOptions_witness :
  ∃ msg,
    fst (updateOptionsFromProject Examples.JSON_parse
           (Examples.project_options [], Examples.project_world "{}"))
    = Throw (TypeError msg)
    ∧ buildDirectory Examples.JSON_parse Examples.globCb Examples.transform 3
        (Examples.project_options []) (Examples.project_world "{}")
      = (Throw (TypeError msg),
         mkWorld "/w" (Examples.project_tree "{}")
           [FsReadFile (Path.join ["proj"; "tsconfig.json"])]).
Proof.
  apply (missing_compilerOptions_fails Examples.JSON_parse Examples.globCb
           Examples.transform 3 (Examples.project_options [])
           (Examples.project_world "{}") "proj" "{}" (VObj []));
    vm_compute; reflexivity.
Defined.

(** ** The file system *)

Module FsFacts.

Lemma create_lookup_same (f f' : gmap string node) k p n :
  Fs.create f k p n = inr f' → f' !! k = Some n.
Proof.
  unfold Fs.create. destruct (f !! Path.dirname k) as [[c|entries]|]; try done.
  intros [= <-]. apply lookup_insert_eq.
Qed.

Lemma create_keeps_files (f f' : gmap string node) k p n q c :
  Fs.create f k p n = inr f' → q ≠ k → f !! q = Some (File c) →
  f' !! q = Some (File c).
Proof.
  unfold Fs.create.
  destruct (f !! Path.dirname k) as [[c0|entries]|] eqn:Hparent; try done.
  intros [= <-] Hne Hq. rewrite lookup_insert_ne by done.
  rewrite lookup_insert_ne; [done|]. intros Heq. rewrite Heq in Hparent.
  congruence.
Qed.

Lemma create_keeps_nodes (f f' : gmap string node) k p n q :
  Fs.create f k p n = inr f' → is_Some (f !! q) → is_Some (f' !! q).
Proof.
  unfold Fs.create.
  destruct (f !! Path.dirname k) as [[c0|entries]|] eqn:Hparent; try done.
  intros [= <-] Hq.
  destruct (decide (k = q)) as [Heq|Hne]; [by rewrite Heq, lookup_insert_eq|].
  rewrite lookup_insert_ne by done.
  destruct (decide (Path.dirname k = q)) as [Heq|Hne'];
    [by rewrite Heq, lookup_insert_eq|].
  by rewrite lookup_insert_ne.
Qed.

(** A fresh node needs its parent directory. *)
Lemma create_needs_parent (f : gmap string node) k p n :
  f !! Path.dirname k = None → Fs.create f k p n = inl (ENOENT p).
Proof. intros H. unfold Fs.create. by rewrite H. Qed.

Lemma writeFile_lookup_same dir (f f' : gmap string node) p c :
  Fs.writeFile dir f p c = inr f' → f' !! Fs.key dir p = Some (File c).
Proof.
  unfold Fs.writeFile. destruct (negb (Str.nonempty p)); [done|].
  destruct (f !! Fs.key dir p) as [[c0|entries]|] eqn:Hk; try done.
  - intros [= <-]. apply lookup_insert_eq.
  - apply create_lookup_same.
Qed.

Lemma writeFile_keeps_files dir (f f' : gmap string node) p c q c0 :
  Fs.writeFile dir f p c = inr f' → f !! q = Some (File c0) →
  ∃ c1, f' !! q = Some (File c1).
Proof.
  intros Hw Hq.
  destruct (decide (q = Fs.key dir p)) as [->|Hne].
  { exists c. by eapply writeFile_lookup_same. }
  exists c0. revert Hw. unfold Fs.writeFile.
  destruct (negb (Str.nonempty p)); [done|].
  destruct (f !! Fs.key dir p) as [[c1|entries]|] eqn:Hk; try done.
  - intros [= <-]. by rewrite lookup_insert_ne.
  - intros Hc. by eapply create_keeps_files.
Qed.

Lemma writeFile_other dir (f f' : gmap string node) p c q c0 :
  Fs.writeFile dir f p c = inr f' → q ≠ Fs.key dir p →
  f !! q = Some (File c0) → f' !! q = Some (File c0).
Proof.
  intros Hw Hne Hq. revert Hw. unfold Fs.writeFile.
  destruct (negb (Str.nonempty p)); [done|].
  destruct (f !! Fs.key dir p) as [[c1|entries]|] eqn:Hk; try done.
  - intros [= <-]. by rewrite lookup_insert_ne.
  - intros Hc. by eapply create_keeps_files.
Qed.

Lemma mkdir_exists dir (f f' : gmap string node) p :
  Fs.mkdir dir f p = inr f' → Fs.exists_ dir f' p = true.
Proof.
  unfold Fs.mkdir, Fs.exists_. destruct (Str.nonempty p); [|done]. simpl.
  destruct (f !! Fs.key dir p) eqn:Hk; [done|]. intros Hc.
  apply create_lookup_same in Hc. rewrite Hc. by apply bool_decide_eq_true.
Qed.

Lemma mkdir_fresh dir (f f' : gmap string node) p :
  Fs.mkdir dir f p = inr f' → f !! Fs.key dir p = None.
Proof.
  unfold Fs.mkdir. destruct (negb (Str.nonempty p)); [done|].
  by destruct (f !! Fs.key dir p).
Qed.

Lemma mkdir_keeps_nodes dir (f f' : gmap string node) p q :
  Fs.mkdir dir f p = inr f' → is_Some (f !! q) → is_Some (f' !! q).
Proof.
  unfold Fs.mkdir. destruct (negb (Str.nonempty p)); [done|].
  destruct (f !! Fs.key dir p) eqn:Hk; [done|]. apply create_keeps_nodes.
Qed.

Lemma mkdir_keeps_exists dir (f f' : gmap string node) p q :
  Fs.mkdir dir f p = inr f' → Fs.exists_ dir f q = true →
  Fs.exists_ dir f' q = true.
Proof.
  intros Hm. unfold Fs.exists_. destruct (Str.nonempty q); [|done]. simpl.
  intros H%bool_decide_eq_true. apply bool_decide_eq_true.
  by eapply mkdir_keeps_nodes.
Qed.

(** [mkdir] is not recursive: without the parent directory it fails. *)
Lemma mkdir_needs_parent dir (f : gmap string node) p :
  Str.nonempty p = true →
  f !! Fs.key dir p = None →
  f !! Path.dirname (Fs.key dir p) = None →
  Fs.mkdir dir f p = inl (ENOENT p).
Proof.
  intros Hp Hk Hparent. unfold Fs.mkdir. rewrite Hp, Hk. simpl.
  by apply create_needs_parent.
Qed.

End FsFacts.

(** ** The build loop *)

Section BuildLoop.

Variable transform : string → Options → string → Err + string.
Variable options : CLIOptions.

Lemma buildFile_unfold file w :
  buildFile transform (srcPath file) (outPath file) options w
  = match Fs.readFile (cwd w) (fs w) (srcPath file) with
    | inl e =>
        (Throw e,
         mkWorld (cwd w) (fs w)
           (trace w ++ announce options file ++ [FsReadFile (srcPath file)]))
    | inr code =>
        match transform code (sucraseOptions options) (srcPath file) with
        | inl e =>
            (Throw e,
             mkWorld (cwd w) (fs w)
               (trace w ++ announce options file
                ++ [FsReadFile (srcPath file); TransformCall (srcPath file)]))
        | inr js =>
            match Fs.writeFile (cwd w) (fs w) (outPath file) js with
            | inl e =>
                (Throw e,
                 mkWorld (cwd w) (fs w) (trace w ++ build_events options file js))
            | inr fs' =>
                (Ret tt,
                 mkWorld (cwd w) fs' (trace w ++ build_events options file js))
            end
        end
    end.
Proof.
  unfold buildFile, build_events, announce, readFile, writeFile, console_log.
  cbv beta iota zeta delta [bind ret emit get_fs put_fs process_cwd lift_result throw].
  destruct (negb (JS.truthy_flag (quiet options))); simpl;
    destruct (Fs.readFile (cwd w) (fs w) (srcPath file)) as [e|code]; simpl;
    rewrite <- ?app_assoc; simpl; try done;
    destruct (transform code (sucraseOptions options) (srcPath file)) as [e|js];
    simpl; rewrite <- ?app_assoc; simpl; try done;
    destruct (Fs.writeFile (cwd w) (fs w) (outPath file) js); simpl;
    rewrite <- ?app_assoc; simpl; done.
Qed.

Lemma Built_cwd files jss w w' :
  Built transform options files jss w w' → cwd w' = cwd w.
Proof. induction 1; [done|]. by rewrite IHBuilt. Qed.

Lemma Built_trace files jss w w' :
  Built transform options files jss w w' →
  trace w' = trace w ++ concat (zip_with (build_events options) files jss).
Proof.
  induction 1; simpl; [by rewrite app_nil_r|].
  rewrite IHBuilt. simpl. by rewrite <- app_assoc.
Qed.

Lemma Built_length files jss w w' :
  Built transform options files jss w w' → length jss = length files.
Proof. induction 1; simpl; congruence. Qed.

Lemma Built_keeps_files files jss w w' k c :
  Built transform options files jss w w' →
  fs w !! k = Some (File c) → ∃ c', fs w' !! k = Some (File c').
Proof.
  intros HB. revert c. induction HB as [|file rest code js jss fs' w w' Hr Ht Hw HB IH].
  - eauto.
  - intros c Hk.
    destruct (FsFacts.writeFile_keeps_files _ _ _ _ _ _ _ Hw Hk) as [c1 Hc1].
    by eapply IH.
Qed.

(** After a run of complete builds every output path holds a file. *)
Lemma Built_outputs files jss w w' file :
  Built transform options files jss w w' → file ∈ files →
  ∃ c, file_at w' (outPath file) = Some c.
Proof.
  induction 1 as [|f rest code js jss fs' w w' Hr Ht Hw HB IH]; intros Hin.
  - by apply elem_of_nil in Hin.
  - apply elem_of_cons in Hin as [->|Hin]; [|by apply IH].
    apply FsFacts.writeFile_lookup_same in Hw.
    destruct (Built_keeps_files _ _ _ _ (Fs.key (cwd w) (outPath f)) js HB Hw)
      as [c Hc].
    exists c. unfold file_at. rewrite (Built_cwd _ _ _ _ HB). simpl. by rewrite Hc.
Qed.

Lemma Fails_fs file w e w' :
  Fails transform options file w e w' → fs w' = fs w ∧ cwd w' = cwd w.
Proof. by destruct 1. Qed.

(** C1.  The build loop takes the pairs in list order.  Either every pair
    is read, transformed and written; or the loop stops at the first pair
    whose read, transform or write fails, with that failure: the pairs
    before it have all been read, transformed and written, in order, and
    each of their output paths holds a file; the failing pair leaves the
    file system as it found it; and the pairs after it have no effect at
    all - the outcome and the world are those of the list cut after the
    failing pair. *)
Theorem build_loop_stops_at_first_failure files w :
  (∃ jss w',
      buildFiles transform files options w = (Ret tt, w')
      ∧ Built transform options files jss w w'
      ∧ trace w' = trace w ++ concat (zip_with (build_events options) files jss))
  ∨ (∃ pre file post jss e w1 w',
        files = pre ++ file :: post
        ∧ Built transform options pre jss w w1
        ∧ Fails transform options file w1 e w'
        ∧ buildFiles transform files options w = (Throw e, w')
        ∧ buildFiles transform (pre ++ [file]) options w = (Throw e, w')
        ∧ trace w1 = trace w ++ concat (zip_with (build_events options) pre jss)
        ∧ fs w' = fs w1
        ∧ ∀ g, g ∈ pre → ∃ c, file_at w' (outPath g) = Some c).
Proof.
  revert w. induction files as [|file rest IH]; intros w.
  { left. exists [], w. split; [done|]. split; [constructor|].
    simpl. by rewrite app_nil_r. }
  assert (Hcons : ∀ l,
    buildFiles transform (file :: l) options w
    = match Fs.readFile (cwd w) (fs w) (srcPath file) with
      | inl e =>
          (Throw e,
           mkWorld (cwd w) (fs w)
             (trace w ++ announce options file ++ [FsReadFile (srcPath file)]))
      | inr code =>
          match transform code (sucraseOptions options) (srcPath file) with
          | inl e =>
              (Throw e,
               mkWorld (cwd w) (fs w)
                 (trace w ++ announce options file
                  ++ [FsReadFile (srcPath file); TransformCall (srcPath file)]))
          | inr js =>
              match Fs.writeFile (cwd w) (fs w) (outPath file) js with
              | inl e =>
                  (Throw e,
                   mkWorld (cwd w) (fs w) (trace w ++ build_events options file js))
              | inr fs' =>
                  buildFiles transform l options
                    (mkWorld (cwd w) fs' (trace w ++ build_events options file js))
              end
          end
      end).
  { intros l. simpl. unfold bind. rewrite buildFile_unfold.
    destruct (Fs.readFile (cwd w) (fs w) (srcPath file)) as [e|code]; [done|].
    destruct (transform code (sucraseOptions options) (srcPath file)) as [e|js];
      [done|].
    by destruct (Fs.writeFile (cwd w) (fs w) (outPath file) js). }
  destruct (Fs.readFile (cwd w) (fs w) (srcPath file)) as [e|code] eqn:Hread.
  { right. exists [], file, rest, [], e, w. eexists.
    split; [done|]. split; [constructor|]. split; [by apply Fails_read|].
    split; [by rewrite Hcons|].
    split; [change ([] ++ [file]) with [file]; by rewrite Hcons|].
    split; [simpl; by rewrite app_nil_r|]. split; [done|].
    intros g Hg. by apply elem_of_nil in Hg. }
  destruct (transform code (sucraseOptions options) (srcPath file)) as [e|js] eqn:Htr.
  { right. exists [], file, rest, [], e, w. eexists.
    split; [done|]. split; [constructor|]. split; [by eapply Fails_transform|].
    split; [by rewrite Hcons|].
    split; [change ([] ++ [file]) with [file]; by rewrite Hcons|].
    split; [simpl; by rewrite app_nil_r|]. split; [done|].
    intros g Hg. by apply elem_of_nil in Hg. }
  destruct (Fs.writeFile (cwd w) (fs w) (outPath file) js) as [e|fs'] eqn:Hwr.
  { right. exists [], file, rest, [], e, w. eexists.
    split; [done|]. split; [constructor|]. split; [by eapply Fails_write|].
    split; [by rewrite Hcons|].
    split; [change ([] ++ [file]) with [file]; by rewrite Hcons|].
    split; [simpl; by rewrite app_nil_r|]. split; [done|].
    intros g Hg. by apply elem_of_nil in Hg. }
  set (w1 := mkWorld (cwd w) fs' (trace w ++ build_events options file js)).
  destruct (IH w1) as [(jss & w' & Hrun & HB & _)
                      |(pre & f & post & jss & e & w2 & w' & -> & HB & HF & Hrun
                        & Hcut & Htrace & Hfs & Hout)].
  - left. exists (js :: jss), w'. split; [by rewrite Hcons|].
    assert (HB' : Built transform options (file :: rest) (js :: jss) w w')
      by (by econstructor).
    split; [done|]. by apply Built_trace.
  - right. exists (file :: pre), f, post, (js :: jss), e, w2, w'.
    assert (HB' : Built transform options (file :: pre) (js :: jss) w w2)
      by (by econstructor).
    split; [done|]. split; [done|]. split; [done|].
    split; [by rewrite Hcons|].
    split.
    { change ((file :: pre) ++ [f]) with (file :: (pre ++ [f])).
      by rewrite Hcons. }
    split; [by apply Built_trace|]. split; [done|].
    intros g Hg.
    destruct (Built_outputs _ _ _ _ g HB' Hg) as [c Hc].
    destruct (Fails_fs _ _ _ _ HF) as [Hfs' Hcwd].
    exists c. unfold file_at in *. by rewrite Hfs', Hcwd.
Qed.

End BuildLoop.

(** A batch of three pairs whose second source is rejected by the
    transform: the first pair is written, the second is read and handed to
    the transform, the third is never touched. *)
Example batch_halts_example :
  let tree : gmap string node :=
    list_to_map [("/", Dir ["a.ts"; "b.ts"; "c.ts"; "out"]); ("/out", Dir []);
                 ("/a.ts", File "a"); ("/b.ts", File "b!"); ("/c.ts", File "c")] in
  let pairs := [mkFileInfo "/a.ts" "/out/a.js"; mkFileInfo "/b.ts" "/out/b.js";
                mkFileInfo "/c.ts" "/out/c.js"] in
  let res := buildFiles Examples.transform pairs Examples.explicit_options
               (mkWorld "/" tree []) in
  fst res = Throw (ExternalError "cannot parse /b.ts")
  ∧ trace (snd res)
    = [FsReadFile "/a.ts"; TransformCall "/a.ts"; FsWriteFile "/out/a.js" "js:a";
       FsReadFile "/b.ts"; TransformCall "/b.ts"]
  ∧ file_at (snd res) "/out/a.js" = Some "js:a"
  ∧ file_at (snd res) "/out/b.js" = None
  ∧ file_at (snd res) "/out/c.js" = None.
Proof. vm_compute. done. Qed.

(** ** Project mode without an output directory *)

Section NoOutputDirectory.

Variable JSON_parse : string → Err + value.
Variable globCb : gmap string node → string → Err + list string.
Variable transform : string → Options → string → Err + string.

Lemma applyManifest_project json o w :
  project (fst (snd (applyManifest json (o, w)))) = project o.
Proof.
  run_options. split_cases; done.
Qed.

Lemma runGlob_parsed o w p str json :
  project o = Some p →
  Fs.readFile (cwd w) (fs w) (Path.join [p; "tsconfig.json"]) = inr str →
  JSON_parse str = inr json →
  runGlob JSON_parse globCb o w
  = expandManifest globCb o json
      (mkWorld (cwd w) (fs w)
         (trace w ++ [FsReadFile (Path.join [p; "tsconfig.json"])])).
Proof.
  intros Hp Hread Hparse. unfold runGlob. rewrite Hp.
  rewrite (bind_Ret _ _ _ _ _ (join_strings [p; "tsconfig.json"] _)).
  rewrite (bind_Ret _ _ _ _ _ (read_tsconfig_found _ _ _ _ Hread)).
  unfold bind at 1. by rewrite Hparse.
Qed.

(** Without a usable output directory the expansion of the manifest
    throws at its first file-system step, before any entry of the manifest
    is looked at; the file system is left as it was. *)
Lemma expandManifest_no_outDir o json w p :
  project o = Some p →
  JS.nullish json = false →
  JS.truthy_str (outDirPath o) = false →
  ∃ e w',
    expandManifest globCb o json w = (Throw e, w')
    ∧ fs w' = fs w
    ∧ (trace w' = trace w ∨ trace w' = trace w ++ [FsExists ""; FsMkdir ""]).
Proof.
  intros Hp Hj Hout. unfold expandManifest.
  unfold JS.getProp. rewrite Hj. simpl.
  cbv beta iota zeta delta [bind ret process_cwd]. rewrite Hp.
  change [Some (cwd w); Some p] with (map Some [cwd w; p]).
  rewrite (join_strings [cwd w; p] w).
  destruct (outDirPath o) as [[|c s]|]; [|done|].
  - do 2 eexists. split; [reflexivity|]. split; [done|]. right.
    simpl. by rewrite <- app_assoc.
  - do 2 eexists. split; [reflexivity|]. split; [done|]. by left.
Qed.

Lemma validate_project_accepts c w p :
  commander.project c = Some p →
  JS.truthy_str (Some p) = true →
  fst (validate c w) = Ret tt →
  JS.truthy_str (commander.outDir c) = false
  ∧ JS.truthy_str (commander.transforms c) = false
  ∧ JS.truthy_str (head (commander.args c)) = false
  ∧ JS.truthy_flag (commander.enableLegacyTypescriptModuleInterop c) = false.
Proof.
  intros Hp Ht. unfold validate. rewrite Hp, Ht.
  destruct (JS.truthy_str (commander.outDir c)); [done|].
  destruct (JS.truthy_str (commander.transforms c)); [done|].
  destruct (JS.truthy_str (head (commander.args c))); [done|].
  by destruct (JS.truthy_flag (commander.enableLegacyTypescriptModuleInterop c)).
Qed.

(** C10.  In project mode the command line cannot supply the output
    directory: a command that names a project passes the checks of [run]
    only if it gives no out directory.  If the manifest then has no
    [compilerOptions.outDir], resolution completes and leaves
    [outDirPath] as the command line left it - undefined - and project
    file resolution throws before it looks at any manifest entry, so the
    build fails without a file pair and without touching the file system;
    no default location is used. *)
Theorem project_mode_needs_manifest_outDir fuel c w p str json :
  commander.project c = Some p →
  JS.truthy_str (Some p) = true →
  fst (validate c w) = Ret tt →
  Fs.readFile (cwd w) (fs w) (Path.join [p; "tsconfig.json"]) = inr str →
  JSON_parse str = inr json →
  JS.nullish (JS.prop json "compilerOptions") = false →
  JS.has_member (JS.prop json "compilerOptions") "outDir" = false →
  let options := options_of c in
  let res := updateOptionsFromProject JSON_parse (options, w) in
  JS.truthy_str (commander.outDir c) = false
  ∧ fst res = Ret tt
  ∧ outDirPath (fst (snd res)) = commander.outDir c
  ∧ (commander.outDir c = None → outDirPath (fst (snd res)) = None)
  ∧ ∃ e w',
      runGlob JSON_parse globCb (fst (snd res)) (snd (snd res)) = (Throw e, w')
      ∧ buildDirectory JSON_parse globCb transform fuel options w = (Throw e, w')
      ∧ fs w' = fs w.
Proof.
  intros Hp Htruthy Hvalid Hread Hparse Hco Hno. simpl.
  destruct (validate_project_accepts c w p Hp Htruthy Hvalid)
    as (Hout & _ & Hsrc & _).
  assert (Hp' : project (options_of c) = Some p) by done.
  pose proof (prop_absent _ _ Hno) as Hundef.
  rewrite (updateOptionsFromProject_parsed JSON_parse (options_of c) w p str json
             Hp Hread Hparse).
  set (w1 := mkWorld (cwd w) (fs w)
               (trace w ++ [FsReadFile (Path.join [p; "tsconfig.json"])])).
  assert (Hret : fst (applyManifest json (options_of c, w1)) = Ret tt).
  { apply applyManifest_completes; [done| |by rewrite Hp'].
    left. by rewrite Hundef. }
  assert (Hsame : outDirPath (fst (snd (applyManifest json (options_of c, w1))))
                  = commander.outDir c).
  { rewrite applyManifest_outDir_absent; [done|]. by rewrite Hundef. }
  pose proof (applyManifest_world json (options_of c) w1) as Hw.
  pose proof (applyManifest_project json (options_of c) w1) as Hproj.
  destruct (applyManifest json (options_of c, w1)) as [r [o' w2]] eqn:Happly.
  simpl in *. subst r w2.
  split; [done|]. split; [done|]. split; [done|].
  split; [by intros <-|].
  assert (Hj : JS.nullish json = false) by (by destruct json).
  assert (Hread1 : Fs.readFile (cwd w1) (fs w1) (Path.join [p; "tsconfig.json"])
                   = inr str) by done.
  rewrite Hp' in Hproj.
  rewrite (runGlob_parsed o' w1 p str json Hproj Hread1 Hparse).
  destruct (expandManifest_no_outDir o' json
              (mkWorld (cwd w1) (fs w1)
                 (trace w1 ++ [FsReadFile (Path.join [p; "tsconfig.json"])])) p)
    as (e & w' & Hexp & Hfs & _); [done|done|by rewrite Hsame|].
  exists e, w'. split; [done|]. split; [|done].
  unfold buildDirectory. unfold bind at 1.
  rewrite discover_project_mode;
    [|by replace (JS.truthy_str (outDirPath (options_of c))) with false by done
     |by replace (project (options_of c)) with (Some p) by done].
  unfold bind at 1. unfold with_options.
  rewrite (updateOptionsFromProject_parsed JSON_parse (options_of c) w p str json
             Hp Hread Hparse).
  fold w1. rewrite Happly.
  unfold bind at 1.
  rewrite (runGlob_parsed o' w1 p str json Hproj Hread1 Hparse).
  by rewrite Hexp.
Qed.

End NoOutputDirectory.

Lemma project_mode_needs_manifest_outDir_witness :
  let c := Examples.project_command in
  let w := Examples.project_world "no outDir" in
  let options := options_of c in
  let res := updateOptionsFromProject Examples.JSON_parse (options, w) in
  JS.truthy_str (commander.outDir c) = false
  ∧ fst res = Ret tt
  ∧ outDirPath (fst (snd res)) = commander.outDir c
  ∧ (commander.outDir c = None → outDirPath (fst (snd res)) = None)
  ∧ ∃ e w',
      runGlob Examples.JSON_parse Examples.globCb (fst (snd res)) (snd (snd res))
      = (Throw e, w')
      ∧ buildDirectory Examples.JSON_parse Examples.globCb Examples.transform 3
          options w = (Throw e, w')
      ∧ fs w' = fs w.
Proof.
  apply (project_mode_needs_manifest_outDir Examples.JSON_parse Examples.globCb
           Examples.transform 3 Examples.project_command
           (Examples.project_world "no outDir") "proj" "no outDir"
           Examples.manifest_no_outDir);
    vm_compute; reflexivity.
Defined.

(** ** Strings *)

Module StrFacts.

Lemma app_nil_l (s : string) : "" +:+ s = s.
Proof. reflexivity. Qed.

Lemma app_cons (a : ascii) (s t : string) :
  String a s +:+ t = String a (s +:+ t).
Proof. reflexivity. Qed.

Lemma app_nil_r (s : string) : s +:+ "" = s.
Proof. induction s as [|a s IH]; [done|]. by rewrite app_cons, IH. Qed.

Lemma app_assoc (s t u : string) : (s +:+ t) +:+ u = s +:+ t +:+ u.
Proof. induction s as [|a s IH]; [done|]. by rewrite !app_cons, IH. Qed.

Lemma app_inv_head (s t u : string) : s +:+ t = s +:+ u → t = u.
Proof.
  induction s as [|a s IH]; [done|]. rewrite !app_cons. intros [= H]. auto.
Qed.

(** Two ways of cutting one string overlap. *)
Lemma app_eq_app (s1 s2 t1 t2 : string) :
  s1 +:+ s2 = t1 +:+ t2 →
  (∃ m, t1 = s1 +:+ m ∧ s2 = m +:+ t2) ∨ (∃ m, s1 = t1 +:+ m ∧ t2 = m +:+ s2).
Proof.
  revert t1. induction s1 as [|a s1 IH]; intros t1 H.
  - left. exists t1. by split.
  - destruct t1 as [|b t1].
    + right. exists (String a s1). by split.
    + rewrite !app_cons in H. injection H as -> H.
      destruct (IH _ H) as [(m & -> & ->)|(m & -> & ->)].
      * left. by exists m.
      * right. by exists m.
Qed.

Lemma nonempty_true (s : string) : Str.nonempty s = true ↔ s ≠ "".
Proof. by destruct s. Qed.

Lemma endsWith_cons a (s suffix : string) :
  Str.endsWith (String a s) suffix
  = if String.eqb (String a s) suffix then true else Str.endsWith s suffix.
Proof. reflexivity. Qed.

Lemma endsWith_inv (s suffix : string) :
  Str.endsWith s suffix = true → ∃ pre, s = pre +:+ suffix.
Proof.
  induction s as [|a s IH].
  - destruct suffix; [|done]. intros _. by exists "".
  - rewrite endsWith_cons.
    destruct (String.eqb_spec (String a s) suffix) as [<-|Hne].
    + intros _. by exists "".
    + intros H. destruct (IH H) as [pre ->]. by exists (String a pre).
Qed.

Lemma endsWith_app (pre suffix : string) :
  Str.endsWith (pre +:+ suffix) suffix = true.
Proof.
  induction pre as [|a pre IH].
  - rewrite app_nil_l. destruct suffix; [done|]. rewrite endsWith_cons.
    by rewrite String.eqb_refl.
  - rewrite app_cons, endsWith_cons, IH. by destruct (_ =? _)%string.
Qed.

Lemma has_char_app c (s t : string) :
  Str.has_char c (s +:+ t) = Str.has_char c s || Str.has_char c t.
Proof.
  induction s as [|a s IH]; [done|]. rewrite app_cons. simpl.
  rewrite IH. by rewrite orb_assoc.
Qed.

Lemma all_word_app (s t : string) :
  Str.all_word (s +:+ t) = Str.all_word s && Str.all_word t.
Proof.
  induction s as [|a s IH]; [done|]. rewrite app_cons. simpl.
  rewrite IH. by rewrite andb_assoc.
Qed.

Lemma word_char_not c x :
  Str.is_word_char x = false → Str.is_word_char c = true → c ≠ x.
Proof. intros Hx Hc ->. congruence. Qed.

Lemma all_word_no_char x (s : string) :
  Str.is_word_char x = false → Str.all_word s = true → Str.has_char x s = false.
Proof.
  intros Hx. induction s as [|a s IH]; [done|]. simpl.
  intros [Ha Hs]%andb_true_iff. rewrite (IH Hs), orb_false_r.
  apply bool_decide_eq_false. by apply word_char_not.
Qed.

(** A string that ends in a slash is not a suffix-extension of a
    non-empty string without slashes. *)
Lemma endsWith_slash_false (x c : string) :
  c ≠ "" → Str.has_char "/" c = false → Str.endsWith (x +:+ c) "/" = false.
Proof.
  intros Hne Hc. destruct (Str.endsWith (x +:+ c) "/") eqn:E; [|done].
  apply endsWith_inv in E as [pre E].
  apply app_eq_app in E as [(m & -> & ->)|(m & -> & Hm)].
  - rewrite has_char_app in Hc. simpl in Hc. by rewrite orb_true_r in Hc.
  - destruct m as [|a m].
    + rewrite app_nil_l in Hm. by subst c.
    + rewrite app_cons in Hm. injection Hm as _ Hm.
      destruct m; [by rewrite app_nil_l in Hm|]. by rewrite app_cons in Hm.
Qed.

Lemma split_nonempty sep (s : string) : Str.split sep s ≠ [].
Proof.
  destruct s as [|a s]; [done|]. simpl.
  case_bool_decide; [done|]. by destruct (Str.split sep s).
Qed.

Lemma split_app sep (a b : string) :
  Str.split sep (a +:+ String sep b) = Str.split sep a ++ Str.split sep b.
Proof.
  induction a as [|x a IH].
  - simpl. rewrite bool_decide_eq_true_2 by done. done.
  - rewrite app_cons. simpl. rewrite IH.
    case_bool_decide; [done|].
    pose proof (split_nonempty sep a) as Hne.
    by destruct (Str.split sep a).
Qed.

Lemma split_no_sep sep (s : string) :
  Str.has_char sep s = false → Str.split sep s = [s].
Proof.
  induction s as [|x s IH]; [done|]. simpl.
  intros [Hx Hs]%orb_false_iff. rewrite bool_decide_eq_false_2.
  - by rewrite (IH Hs).
  - by apply bool_decide_eq_false in Hx.
Qed.

Lemma concat_snoc sep (l : list string) (c : string) :
  Str.concat sep (l ++ [c])
  = match l with
    | [] => c
    | _ => Str.concat sep l +:+ sep +:+ c
    end.
Proof.
  induction l as [|x l IH]; [done|].
  change ((x :: l) ++ [c]) with (x :: (l ++ [c])).
  destruct l as [|y l]; [done|].
  change (Str.concat sep (x :: (y :: l) ++ [c]))
    with (x +:+ sep +:+ Str.concat sep ((y :: l) ++ [c])).
  rewrite IH.
  change (Str.concat sep (x :: y :: l))
    with (x +:+ sep +:+ Str.concat sep (y :: l)).
  by rewrite !app_assoc.
Qed.

(** The pattern [/\.\w+$/] matches at the last dot when only word
    characters follow it. *)
Lemma match_ext_last_dot (pre e : string) :
  Str.nonempty e = true → Str.all_word e = true →
  Str.match_ext (pre +:+ String "." e) = Some (pre, String "." e).
Proof.
  intros Hne Hw. induction pre as [|a pre IH].
  - rewrite app_nil_l. simpl. by rewrite Hne, Hw.
  - rewrite app_cons. simpl. rewrite IH.
    assert (Hno : Str.all_word (pre +:+ String "." e) = false).
    { rewrite all_word_app. simpl. by rewrite andb_false_r. }
    by rewrite Hno, andb_false_r.
Qed.

Lemma getSubstitution_words (matched before after repl : string) :
  Str.all_word repl = true →
  Str.getSubstitution matched before after repl = repl.
Proof.
  induction repl as [|a r IH]; [done|]. simpl.
  intros [Ha Hr]%andb_true_iff.
  assert (Hd : Ascii.eqb a "$" = false).
  { apply Ascii.eqb_neq. by apply word_char_not. }
  by rewrite Hd, (IH Hr).
Qed.

(** Replacing the extension of a path that ends in [.e] by an extension
    made of word characters swaps just that last segment. *)
Lemma replace_ext_swap (pre e ext : string) :
  Str.nonempty e = true → Str.all_word e = true → Str.all_word ext = true →
  Str.replace_ext (pre +:+ String "." e) ("." +:+ ext) = pre +:+ "." +:+ ext.
Proof.
  intros Hne He Hext. unfold Str.replace_ext.
  rewrite (match_ext_last_dot _ _ Hne He).
  change ("." +:+ ext) with (String "." ext).
  assert (Hs : Str.getSubstitution (String "." e) pre "" (String "." ext)
               = String "." ext).
  { simpl. by rewrite (getSubstitution_words _ _ _ _ Hext). }
  by rewrite Hs.
Qed.

End StrFacts.

(** ** Paths *)

Module PathFacts.

Lemma valid_name_inv (c : string) :
  Fs.valid_name c = true →
  c ≠ "" ∧ c ≠ "." ∧ c ≠ ".." ∧ Str.has_char "/" c = false.
Proof.
  unfold Fs.valid_name. intros H.
  repeat (apply andb_true_iff in H as [H ?]).
  repeat split.
  - by apply StrFacts.nonempty_true.
  - intros ->. done.
  - intros ->. done.
  - by apply negb_true_iff.
Qed.

Lemma valid_name_intro (c : string) :
  c ≠ "" → c ≠ "." → c ≠ ".." → Str.has_char "/" c = false →
  Fs.valid_name c = true.
Proof.
  intros H1 H2 H3 H4. unfold Fs.valid_name.
  rewrite H4, (proj2 (StrFacts.nonempty_true c) H1).
  rewrite !bool_decide_eq_false_2 by done. done.
Qed.

Lemma norm_step_valid b st (c : string) :
  Fs.valid_name c = true → Path.norm_step b st c = c :: st.
Proof.
  intros (H1 & H2 & H3 & _)%valid_name_inv. unfold Path.norm_step.
  by rewrite !bool_decide_eq_false_2.
Qed.

Lemma norm_segs_snoc b segs (c : string) :
  Fs.valid_name c = true →
  Path.norm_segs b (segs ++ [c]) = Path.norm_segs b segs ++ [c].
Proof.
  intros Hc. unfold Path.norm_segs. rewrite fold_left_app. simpl.
  by rewrite (norm_step_valid _ _ _ Hc).
Qed.

Lemma startsWithSlash_app (d x : string) :
  d ≠ "" → Str.startsWithSlash (d +:+ x) = Str.startsWithSlash d.
Proof. by destruct d. Qed.

Lemma startsWithSlash_valid (c : string) :
  Fs.valid_name c = true → Str.startsWithSlash c = false.
Proof.
  intros (H1 & _ & _ & H4)%valid_name_inv. destruct c as [|a c]; [done|].
  simpl in *. by apply orb_false_iff in H4 as [-> _].
Qed.

Lemma app_nonempty_r (x c : string) : c ≠ "" → x +:+ c ≠ "".
Proof. destruct x; [done|]. by rewrite StrFacts.app_cons. Qed.

Lemma child_prefix_shape (d : string) :
  Path.child_prefix d = "" ∨ Str.endsWith (Path.child_prefix d) "/" = true.
Proof.
  unfold Path.child_prefix. case_bool_decide; [by left|].
  destruct (Path.norm_segs _ _) as [|x l].
  - destruct (Str.startsWithSlash d); [by right|by left].
  - right. rewrite <- StrFacts.app_assoc. apply StrFacts.endsWith_app.
Qed.

(** Joining a directory and a file name appends the name to a prefix
    that depends on the directory only. *)
Lemma join_child (d c : string) :
  Fs.valid_name c = true → Path.join [d; c] = Path.child_prefix d +:+ c.
Proof.
  intros Hc. pose proof (valid_name_inv c Hc) as (H1 & H2 & H3 & H4).
  unfold Path.join, Path.child_prefix.
  rewrite filter_cons. destruct (decide (d ≠ "")) as [Hd|Hd].
  - rewrite filter_cons. rewrite decide_True by done.
    rewrite filter_nil. rewrite (bool_decide_eq_false_2 (d = "")) by done.
    change (Str.concat "/" [d; c]) with (d +:+ String "/" c).
    unfold Path.normalize.
    rewrite bool_decide_eq_false_2 by (by apply app_nonempty_r).
    rewrite (startsWithSlash_app d _ Hd).
    assert (Htrail : Str.endsWith (d +:+ String "/" c) "/" = false).
    { change (d +:+ String "/" c) with (d +:+ "/" +:+ c).
      rewrite <- StrFacts.app_assoc. by apply StrFacts.endsWith_slash_false. }
    rewrite Htrail, StrFacts.split_app, (StrFacts.split_no_sep _ _ H4).
    rewrite (norm_segs_snoc _ _ _ Hc), StrFacts.concat_snoc.
    set (segs := Path.norm_segs _ _).
    destruct segs as [|x l].
    + rewrite (bool_decide_eq_false_2 (c = "")) by done.
      by destruct (Str.startsWithSlash d).
    + rewrite bool_decide_eq_false_2.
      * destruct (Str.startsWithSlash d);
          by rewrite ?StrFacts.app_assoc, ?StrFacts.app_nil_l.
      * by apply app_nonempty_r, app_nonempty_r.
  - assert (d = "") as -> by (by destruct (decide (d = "")); [|destruct Hd]).
    rewrite filter_cons, decide_True by done. rewrite filter_nil. simpl.
    rewrite StrFacts.app_nil_l. unfold Path.normalize.
    rewrite bool_decide_eq_false_2 by done.
    rewrite (startsWithSlash_valid c Hc). simpl.
    assert (Htrail : Str.endsWith c "/" = false)
      by (by apply (StrFacts.endsWith_slash_false "" c)).
    rewrite Htrail, (StrFacts.split_no_sep _ _ H4).
    change [c] with ([] ++ [c]). rewrite (norm_segs_snoc _ _ _ Hc). simpl.
    by rewrite bool_decide_eq_false_2.
Qed.

Lemma descend_snoc root names (c : string) :
  descend root (names ++ [c]) = Path.join [descend root names; c].
Proof. unfold descend. by rewrite fold_left_app. Qed.

Lemma descend_cons root (c : string) names :
  descend root (c :: names) = descend (Path.join [root; c]) names.
Proof. reflexivity. Qed.

End PathFacts.

(** ** Tree discovery *)

Lemma exists_unfold p w :
  exists_ (Some p) w = (Ret (Fs.exists_ (cwd w) (fs w) p), log w [FsExists p]).
Proof. reflexivity. Qed.

Lemma mkdir_unfold p w :
  mkdir (Some p) w
  = match Fs.mkdir (cwd w) (fs w) p with
    | inl e => (Throw e, log w [FsMkdir p])
    | inr f' => (Ret tt, mkWorld (cwd w) f' (trace w ++ [FsMkdir p]))
    end.
Proof.
  unfold mkdir, log.
  cbv beta iota zeta delta
    [bind ret emit get_fs put_fs process_cwd lift_result throw path_arg].
  simpl. by destruct (Fs.mkdir (cwd w) (fs w) p).
Qed.

Lemma readdir_unfold p w :
  readdir (Some p) w
  = match Fs.readdir (cwd w) (fs w) p with
    | inl e => (Throw e, log w [FsReaddir p])
    | inr names => (Ret names, log w [FsReaddir p])
    end.
Proof.
  unfold readdir, log.
  cbv beta iota zeta delta
    [bind ret emit get_fs put_fs process_cwd lift_result throw path_arg].
  simpl. by destruct (Fs.readdir (cwd w) (fs w) p).
Qed.

Lemma stat_isDirectory_unfold p w :
  stat_isDirectory p w
  = match Fs.isDirectory (cwd w) (fs w) p with
    | inl e => (Throw e, log w [FsStat p])
    | inr b => (Ret b, log w [FsStat p])
    end.
Proof.
  unfold stat_isDirectory, log.
  cbv beta iota zeta delta
    [bind ret emit get_fs put_fs process_cwd lift_result throw path_arg].
  simpl. by destruct (Fs.isDirectory (cwd w) (fs w) p).
Qed.

Lemma readdir_valid dir (f : gmap string node) p names :
  Fs.readdir dir f p = inr names → Forall (λ n, Fs.valid_name n = true) names.
Proof.
  unfold Fs.readdir. destruct (negb (Str.nonempty p)); [done|].
  destruct (f !! Fs.key dir p) as [[c|entries]|]; try done.
  intros [= <-]. apply Forall_forall. intros n Hn.
  by apply list_elem_of_filter in Hn as [Hn _].
Qed.

Section Walk.

Variable options : CLIOptions.
Variable ts : list string.

Lemma visible_cons c names :
  Fs.valid_name c = true → skipped options c = false →
  visible options names → visible options (c :: names).
Proof. intros Hv Hs Hn. by constructor. Qed.

Lemma walk_event_child src out c e :
  Fs.valid_name c = true → skipped options c = false →
  walk_event options (Path.join [src; c]) (Path.join [out; c]) e →
  walk_event options src out e.
Proof.
  intros Hv Hs (dirs & Hvis & He). exists (c :: dirs).
  split; [by apply visible_cons|].
  rewrite !PathFacts.descend_cons.
  destruct He as [He|[He|[He|[Hne He]]]];
    [by left|by right; left|by right; right; left|by do 3 right].
Qed.

Lemma found_child src out c f :
  Fs.valid_name c = true → skipped options c = false →
  found ts options (Path.join [src; c]) (Path.join [out; c]) f →
  found ts options src out f.
Proof.
  intros Hv Hs (dirs & stem & ext & Hext & Hvis & Hsrc & Hout).
  exists (c :: dirs), stem, ext. split; [done|].
  split; [by apply visible_cons|]. by split.
Qed.

Lemma walk_spec_start src out w pairs :
  Forall (found ts options src out) pairs →
  walk_spec ts options src out w (Ret pairs, w).
Proof.
  intros H. exists []. simpl. split; [by rewrite app_nil_r|].
  split; [constructor|]. by intros ? [= <-].
Qed.

(** A walk goes on after some effects of its own. *)
Lemma walk_spec_after src out w events w1 res :
  trace w1 = trace w ++ events →
  Forall (walk_event options src out) events →
  walk_spec ts options src out w1 res →
  walk_spec ts options src out w res.
Proof.
  intros Htr Hev (new & Hnew & Hall & Hpairs).
  exists (events ++ new). split; [by rewrite Hnew, Htr, app_assoc|].
  split; [by apply Forall_app|done].
Qed.

Lemma walk_spec_abort src out w events (r : Outcome (list FileInfo)) w1 :
  trace w1 = trace w ++ events →
  Forall (walk_event options src out) events →
  (∀ pairs, r ≠ Ret pairs) →
  walk_spec ts options src out w (r, w1).
Proof.
  intros Htr Hev Hr. exists events. split; [done|]. split; [done|].
  intros pairs Hp. by destruct (Hr pairs).
Qed.

Lemma walk_spec_child src out c w res :
  Fs.valid_name c = true → skipped options c = false →
  walk_spec ts options (Path.join [src; c]) (Path.join [out; c]) w res →
  walk_spec ts options src out w res.
Proof.
  intros Hv Hs (new & Hnew & Hall & Hpairs). exists new. split; [done|].
  split.
  - eapply Forall_impl; [exact Hall|]. intros e. by apply walk_event_child.
  - intros pairs Hp. eapply Forall_impl; [exact (Hpairs _ Hp)|].
    intros f. by apply found_child.
Qed.

(** A file name that ends with an extension, seen through the path that
    [join] built for it. *)
Lemma suffix_of_child (pre c ext : string) :
  pre = "" ∨ Str.endsWith pre "/" = true →
  Str.has_char "/" ext = false →
  Str.endsWith (pre +:+ c) ext = true →
  ∃ stem, c = stem +:+ ext.
Proof.
  intros Hpre Hext [q Hq]%StrFacts.endsWith_inv.
  apply StrFacts.app_eq_app in Hq as [(m & -> & ->)|(m & -> & ->)].
  { by exists m. }
  destruct m as [|a m].
  { exists "". by rewrite !StrFacts.app_nil_l. }
  exfalso.
  assert (Hm : Str.has_char "/" (String a m) = true).
  { destruct Hpre as [Hnil|Hslash].
    - by destruct (PathFacts.app_nonempty_r q (String a m)).
    - apply StrFacts.endsWith_inv in Hslash as [p' Hp'].
      apply StrFacts.app_eq_app in Hp' as [(m' & -> & Hm')|(m' & -> & Hm')].
      + rewrite Hm', StrFacts.has_char_app. simpl. by rewrite orb_true_r.
      + destruct m' as [|b m'].
        * rewrite StrFacts.app_nil_l in Hm'. by rewrite <- Hm'.
        * rewrite StrFacts.app_cons in Hm'. injection Hm' as _ Hm'.
          destruct m'; [|done]. by rewrite StrFacts.app_nil_l in Hm'. }
  rewrite StrFacts.has_char_app, Hm in Hext. done.
Qed.

Lemma findFiles_children_walk rec src out children :
  srcDirPath options = Some src → outDirPath options = Some out →
  Forall (λ ext, Str.has_char "/" ext = false) ts →
  (∀ c w1, Fs.valid_name c = true → skipped options c = false →
     walk_spec ts options (Path.join [src; c]) (Path.join [out; c]) w1
       (rec (with_outDirPath (with_srcDirPath options (Some (Path.join [src; c])))
               (Some (Path.join [out; c]))) w1)) →
  Forall (λ n, Fs.valid_name n = true) children →
  ∀ outArr w,
    Forall (found ts options src out) outArr →
    walk_spec ts options src out w
      (findFiles_children rec options ts children outArr w).
Proof.
  intros Hsrc Hout Hts Hrec Hvalid.
  induction Hvalid as [|child rest Hchild Hrest IH]; intros outArr w Harr.
  { by apply walk_spec_start. }
  simpl. fold (skipped options child).
  destruct (skipped options child) eqn:Hskip; [by apply IH|].
  rewrite Hsrc, Hout.
  rewrite (bind_Ret _ _ _ _ _ (join_strings [src; child] w)).
  rewrite (bind_Ret _ _ _ _ _ (join_strings [out; child] w)).
  assert (Hstat : walk_event options src out (FsStat (Path.join [src; child]))).
  { exists [child]. split; [by repeat constructor|]. do 3 right. by split. }
  unfold bind at 1. rewrite stat_isDirectory_unfold.
  destruct (Fs.isDirectory (cwd w) (fs w) (Path.join [src; child])) as [e|[|]].
  - apply (walk_spec_abort _ _ _ [FsStat (Path.join [src; child])]);
      [done|by repeat constructor|done].
  - pose proof (Hrec child (log w [FsStat (Path.join [src; child])]) Hchild Hskip)
      as Hinner.
    apply walk_spec_child in Hinner; [|done..].
    unfold bind at 1.
    destruct (rec _ (log w [FsStat (Path.join [src; child])]))
      as [[inner|e|code|] w2];
      destruct Hinner as (new & Hnew & Hall & Hpairs); simpl in *.
    + apply (walk_spec_after _ _ _ ([FsStat (Path.join [src; child])] ++ new) w2).
      * by rewrite Hnew, <- app_assoc.
      * apply Forall_app. split; [by repeat constructor|done].
      * apply IH. apply Forall_app. split; [done|]. by apply Hpairs.
    + apply (walk_spec_abort _ _ _ ([FsStat (Path.join [src; child])] ++ new));
        [by rewrite Hnew, <- app_assoc| |done].
      apply Forall_app. split; [by repeat constructor|done].
    + apply (walk_spec_abort _ _ _ ([FsStat (Path.join [src; child])] ++ new));
        [by rewrite Hnew, <- app_assoc| |done].
      apply Forall_app. split; [by repeat constructor|done].
    + apply (walk_spec_abort _ _ _ ([FsStat (Path.join [src; child])] ++ new));
        [by rewrite Hnew, <- app_assoc| |done].
      apply Forall_app. split; [by repeat constructor|done].
  - apply (walk_spec_after _ _ _ [FsStat (Path.join [src; child])]
             (log w [FsStat (Path.join [src; child])]));
      [done|by repeat constructor|].
    destruct (existsb _ ts) eqn:Hext; [|by apply IH].
    apply IH. apply Forall_app. split; [done|]. repeat constructor.
    apply existsb_exists in Hext as (ext & Hin & Hends).
    rewrite (PathFacts.join_child src child Hchild) in Hends.
    pose proof (proj1 (Forall_forall _ _) Hts ext
                  (proj2 (list_elem_of_In _ _) Hin)) as Hnoslash.
    destruct (suffix_of_child _ _ _ (PathFacts.child_prefix_shape src)
                Hnoslash Hends) as [stem ->].
    exists [], stem, ext. split; [by apply list_elem_of_In|].
    split; [by repeat constructor|]. by split.
Qed.

End Walk.


(** Every effect and every pair of [findFiles] comes from a location
    reached through names that are listed and not passed over. *)
Lemma findFiles_walk fuel :
  ∀ options src out w,
    srcDirPath options = Some src → outDirPath options = Some out →
    walk_spec (extensions_of options) options src out w (findFiles fuel options w).
Proof.
  induction fuel as [|fuel IH]; intros options src out w Hsrc Hout.
  { apply (walk_spec_abort _ _ _ _ _ []); [by rewrite app_nil_r|constructor|done]. }
  assert (Hroot : ∀ e, e = FsExists out ∨ e = FsMkdir out ∨ e = FsReaddir src →
                       walk_event options src out e).
  { intros e He. exists []. split; [constructor|].
    destruct He as [-> | [-> | ->]]; auto. }
  simpl. rewrite Hsrc, Hout.
  unfold bind at 1. rewrite exists_unfold.
  set (w1 := log w [FsExists out]).
  assert (Hmk : ∀ k : unit → M World (list FileInfo),
    (∀ w2, walk_spec (extensions_of options) options src out w2 (k tt w2)) →
    walk_spec (extensions_of options) options src out w
      ((do (if negb (Fs.exists_ (cwd w) (fs w) out) then mkdir (Some out) else ret tt)
        then k tt) w1)).
  { intros k Hk. unfold bind.
    destruct (negb (Fs.exists_ (cwd w) (fs w) out)).
    - rewrite mkdir_unfold.
      destruct (Fs.mkdir (cwd w1) (fs w1) out) as [e|f'].
      + apply (walk_spec_abort _ _ _ _ _ [FsExists out; FsMkdir out]);
          [unfold w1; simpl; by rewrite <- app_assoc
          |by repeat constructor; apply Hroot; auto|done].
      + apply (walk_spec_after _ _ _ _ _ [FsExists out]  w1);
          [done|by repeat constructor; apply Hroot; auto|].
        apply (walk_spec_after _ _ _ _ _ [FsMkdir out]
                 (mkWorld (cwd w1) f' (trace w1 ++ [FsMkdir out])));
          [done|by repeat constructor; apply Hroot; auto|].
        apply Hk.
    - apply (walk_spec_after _ _ _ _ _ [FsExists out] w1);
        [done|by repeat constructor; apply Hroot; auto|].
      apply Hk. }
  apply (Hmk (λ _, let* children := readdir (Some src) in
                   findFiles_children (findFiles fuel) options
                     (extensions_of options) children [])).
  intros w2. unfold bind. rewrite readdir_unfold.
  destruct (Fs.readdir (cwd w2) (fs w2) src) as [e|children] eqn:Hdir.
  { apply (walk_spec_abort _ _ _ _ _ [FsReaddir src]);
      [done|by repeat constructor; apply Hroot; auto|done]. }
  apply (walk_spec_after _ _ _ _ _ [FsReaddir src] (log w2 [FsReaddir src]));
    [done|by repeat constructor; apply Hroot; auto|].
  apply findFiles_children_walk; try done.
  - unfold extensions_of. destruct (includes _ _); by repeat constructor.
  - intros c w3 Hc Hs.
    exact (IH (with_outDirPath (with_srcDirPath options (Some (Path.join [src; c])))
                 (Some (Path.join [out; c])))
             (Path.join [src; c]) (Path.join [out; c]) w3 eq_refl eq_refl).
  - by eapply readdir_valid.
Qed.

(** More fuel does not change a walk that ended for another reason than
    lack of fuel. *)
Lemma findFiles_children_mono
    (rec rec' : CLIOptions → M World (list FileInfo)) options exts :
  (∀ o w r w', rec o w = (r, w') → r ≠ OutOfFuel → rec' o w = (r, w')) →
  ∀ children outArr w r w',
    findFiles_children rec options exts children outArr w = (r, w') →
    r ≠ OutOfFuel →
    findFiles_children rec' options exts children outArr w = (r, w').
Proof.
  intros Hrec. induction children as [|child rest IH]; intros outArr w r w' H Hr.
  { done. }
  simpl in *.
  destruct (includes reserved child || includes (excludeDirs options) child);
    [by apply IH|].
  apply bind_inv in H as [(s1 & w1 & H1 & H)|[_ Hab]].
  2:{ unfold bind.
      destruct Hab as [(e & -> & ->)|[(c & -> & ->)|[-> ->]]]; done. }
  rewrite (bind_Ret _ _ _ _ _ H1).
  apply bind_inv in H as [(s2 & w2 & H2 & H)|[_ Hab]].
  2:{ unfold bind.
      destruct Hab as [(e & -> & ->)|[(c & -> & ->)|[-> ->]]]; done. }
  rewrite (bind_Ret _ _ _ _ _ H2).
  apply bind_inv in H as [(isDir & w3 & H3 & H)|[_ Hab]].
  2:{ unfold bind.
      destruct Hab as [(e & -> & ->)|[(c & -> & ->)|[-> ->]]]; done. }
  rewrite (bind_Ret _ _ _ _ _ H3).
  destruct isDir.
  - apply bind_inv in H as [(inner & w4 & H4 & H)|[_ Hab]].
    + rewrite (bind_Ret _ _ _ _ _ (Hrec _ _ _ _ H4 ltac:(done))). by apply IH.
    + unfold bind.
      destruct Hab as [(e & H4 & ->)|[(c & H4 & ->)|[H4 ->]]]; [| |done].
      * by rewrite (Hrec _ _ _ _ H4 ltac:(done)).
      * by rewrite (Hrec _ _ _ _ H4 ltac:(done)).
  - destruct (existsb _ exts); by apply IH.
Qed.

Lemma findFiles_fuel_mono fuel :
  ∀ options w r w',
    findFiles fuel options w = (r, w') → r ≠ OutOfFuel →
    findFiles (S fuel) options w = (r, w').
Proof.
  induction fuel as [|fuel IH]; intros options w r w' H Hr.
  { by injection H as <- <-. }
  change (findFiles (S (S fuel)) options w)
    with ((let* present := exists_ (outDirPath options) in
           do (if negb present then mkdir (outDirPath options) else ret tt) then
           let* children := readdir (srcDirPath options) in
           findFiles_children (findFiles (S fuel)) options (extensions_of options)
             children []) w).
  change (findFiles (S fuel) options w)
    with ((let* present := exists_ (outDirPath options) in
           do (if negb present then mkdir (outDirPath options) else ret tt) then
           let* children := readdir (srcDirPath options) in
           findFiles_children (findFiles fuel) options (extensions_of options)
             children []) w) in H.
  apply bind_inv in H as [(present & w1 & H1 & H)|[_ Hab]].
  2:{ unfold bind.
      destruct Hab as [(e & -> & ->)|[(c & -> & ->)|[-> ->]]]; done. }
  rewrite (bind_Ret _ _ _ _ _ H1).
  apply bind_inv in H as [([] & w2 & H2 & H)|[_ Hab]].
  2:{ unfold bind.
      destruct Hab as [(e & -> & ->)|[(c & -> & ->)|[-> ->]]]; done. }
  rewrite (bind_Ret _ _ _ _ _ H2).
  apply bind_inv in H as [(children & w3 & H3 & H)|[_ Hab]].
  2:{ unfold bind.
      destruct Hab as [(e & -> & ->)|[(c & -> & ->)|[-> ->]]]; done. }
  rewrite (bind_Ret _ _ _ _ _ H3).
  eapply findFiles_children_mono; [|exact H|exact Hr].
  intros o w0 r0 w0' H0 Hr0. by apply IH.
Qed.

Lemma extension_shape options ext :
  ext ∈ extensions_of options →
  ∃ e, ext = String "." e ∧ Str.nonempty e = true ∧ Str.all_word e = true.
Proof.
  unfold extensions_of. destruct (includes _ _); intros Hin;
    repeat (apply elem_of_cons in Hin as [->|Hin]; [by eexists|]);
    by apply elem_of_nil in Hin.
Qed.

(** A file name whose extension is swapped for a word is still a file
    name. *)
Lemma swapped_name_valid (stem ext oe : string) :
  Fs.valid_name (stem +:+ ext) = true →
  Str.nonempty oe = true → Str.all_word oe = true →
  Fs.valid_name (stem +:+ "." +:+ oe) = true.
Proof.
  intros (_ & _ & _ & Hslash)%PathFacts.valid_name_inv Hne Hw.
  rewrite StrFacts.has_char_app in Hslash.
  apply orb_false_iff in Hslash as [Hstem _].
  assert (Hoe : Str.has_char "/" oe = false)
    by (by apply StrFacts.all_word_no_char).
  change ("." +:+ oe) with (String "." oe).
  apply PathFacts.valid_name_intro.
  - by apply PathFacts.app_nonempty_r.
  - destruct stem as [|a stem].
    + rewrite StrFacts.app_nil_l. intros [= ->]. done.
    + rewrite StrFacts.app_cons. intros [= _ H].
      by destruct (PathFacts.app_nonempty_r stem (String "." oe)).
  - destruct stem as [|a [|b stem]].
    + rewrite StrFacts.app_nil_l. intros [= ->]. done.
    + rewrite StrFacts.app_cons, StrFacts.app_nil_l. intros [= _ ->]. done.
    + rewrite !StrFacts.app_cons. intros [= _ _ H].
      by destruct (PathFacts.app_nonempty_r stem (String "." oe)).
  - rewrite StrFacts.has_char_app, Hstem. simpl. by rewrite Hoe.
Qed.

Lemma found_mirrored options src out f :
  Str.nonempty (outExtension options) = true →
  Str.all_word (outExtension options) = true →
  found (extensions_of options) options src out f →
  mirrored (extensions_of options) options src out f.
Proof.
  intros Hne Hw (dirs & stem & ext & Hext & Hvis & Hsrc & Hout).
  assert (Hvalid : Forall (λ n, Fs.valid_name n = true) (dirs ++ [stem +:+ ext])).
  { eapply Forall_impl; [exact Hvis|]. by intros n [Hn _]. }
  assert (Hname : Fs.valid_name (stem +:+ ext) = true).
  { apply Forall_app in Hvalid as [_ Hlast]. by inversion Hlast. }
  pose proof (swapped_name_valid _ _ _ Hname Hne Hw) as Hswapped.
  exists dirs, stem, ext. split; [done|]. split; [done|]. split; [done|].
  split; [done|].
  rewrite Hout, !PathFacts.descend_snoc.
  rewrite (PathFacts.join_child _ _ Hname), (PathFacts.join_child _ _ Hswapped).
  destruct (extension_shape _ _ Hext) as (e & -> & He1 & He2).
  rewrite <- StrFacts.app_assoc.
  rewrite (StrFacts.replace_ext_swap _ _ _ He1 He2 Hw).
  by rewrite StrFacts.app_assoc.
Qed.

(** C2.  In explicit mode with an output extension made of word
    characters, every pair that tree discovery returns mirrors a source
    file: its source path is the source directory followed down through
    directory names to a file name [stem ++ ext] with an accepted
    extension [ext], and its output path is the output directory followed
    down through the same directory names to [stem ++ "." ++ outExtension]
    - the same location with only the final extension segment replaced,
    the dots inside [stem] being kept. *)
Theorem discovered_pairs_mirror_source fuel options src out w pairs :
  srcDirPath options = Some src →
  outDirPath options = Some out →
  Str.nonempty (outExtension options) = true →
  Str.all_word (outExtension options) = true →
  fst (findFiles fuel options w) = Ret pairs →
  Forall (mirrored (extensions_of options) options src out) pairs.
Proof.
  intros Hsrc Hout Hne Hw Hres.
  destruct (findFiles_walk fuel options src out w Hsrc Hout)
    as (new & _ & _ & Hpairs).
  eapply Forall_impl; [exact (Hpairs _ Hres)|].
  intros f. by apply found_mirrored.
Qed.

(** C7.  At every depth of tree discovery a child whose name is reserved
    ([node_modules], [.git]) or listed in [excludeDirs] is passed over
    without any effect; so every file-system call of discovery - the
    existence test and creation of an output directory, the listing of a
    source directory, the [stat] of a child - is on a location reached
    from the two roots through names none of which is reserved or
    excluded, and so is the source of every pair returned. *)
Theorem skipped_names_never_entered fuel options src out w :
  srcDirPath options = Some src →
  outDirPath options = Some out →
  (∀ rec exts child rest outArr w1,
      skipped options child = true →
      findFiles_children rec options exts (child :: rest) outArr w1
      = findFiles_children rec options exts rest outArr w1)
  ∧ ∃ new,
      trace (snd (findFiles fuel options w)) = trace w ++ new
      ∧ Forall (walk_event options src out) new
      ∧ ∀ pairs, fst (findFiles fuel options w) = Ret pairs →
          Forall (λ f, ∃ names,
                     names ≠ [] ∧ visible options names
                     ∧ srcPath f = descend src names
                     ∧ outPath f
                       = Str.replace_ext (descend out names)
                           ("." +:+ outExtension options)) pairs.
Proof.
  intros Hsrc Hout. split.
  { intros rec exts child rest outArr w1 Hskip. simpl.
    fold (skipped options child). by rewrite Hskip. }
  destruct (findFiles_walk fuel options src out w Hsrc Hout)
    as (new & Hnew & Hall & Hpairs).
  exists new. split; [done|]. split; [done|].
  intros pairs Hres. eapply Forall_impl; [exact (Hpairs _ Hres)|].
  intros f (dirs & stem & ext & _ & Hvis & Hs & Ho).
  exists (dirs ++ [stem +:+ ext]). split; [by destruct dirs|]. by split.
Qed.

Lemma discovered_pairs_mirror_witness :
  Forall (mirrored (extensions_of Examples.explicit_options)
            Examples.explicit_options "src" "out")
    [mkFileInfo "src/a.ts" "out/a.js";
     mkFileInfo "src/sub/b.x.tsx" "out/sub/b.x.js"].
Proof.
  apply (discovered_pairs_mirror_source 3 Examples.explicit_options "src" "out"
           Examples.source_world);
    vm_compute; reflexivity.
Defined.

Lemma skipped_names_witness :
  (∀ rec exts child rest outArr w1,
      skipped Examples.explicit_options child = true →
      findFiles_children rec Examples.explicit_options exts (child :: rest) outArr w1
      = findFiles_children rec Examples.explicit_options exts rest outArr w1)
  ∧ ∃ new,
      trace (snd (findFiles 3 Examples.explicit_options Examples.source_world))
      = trace Examples.source_world ++ new
      ∧ Forall (walk_event Examples.explicit_options "src" "out") new
      ∧ ∀ pairs,
          fst (findFiles 3 Examples.explicit_options Examples.source_world)
          = Ret pairs →
          Forall (λ f, ∃ names,
                     names ≠ [] ∧ visible Examples.explicit_options names
                     ∧ srcPath f = descend "src" names
                     ∧ outPath f
                       = Str.replace_ext (descend "out" names)
                           ("." +:+ outExtension Examples.explicit_options)) pairs.
Proof.
  apply (skipped_names_never_entered 3 Examples.explicit_options "src" "out"
           Examples.source_world); reflexivity.
Defined.

(** In the example tree, [node_modules] and the nested [.git] are listed
    but discovery calls nothing on them. *)
Example skipped_names_example :
  trace (snd (findFiles 3 Examples.explicit_options Examples.source_world))
  = [FsExists "out"; FsMkdir "out"; FsReaddir "src"; FsStat "src/a.ts";
     FsStat "src/sub"; FsExists "out/sub"; FsMkdir "out/sub";
     FsReaddir "src/sub"; FsStat "src/sub/b.x.tsx"; FsStat "src/c.js"]
  ∧ fst (findFiles 3 Examples.explicit_options Examples.source_world)
    = Ret [mkFileInfo "src/a.ts" "out/a.js";
           mkFileInfo "src/sub/b.x.tsx" "out/sub/b.x.js"].
Proof. vm_compute. done. Qed.

(** ** Project file resolution *)

Section ProjectFiles.

Variable JSON_parse : string → Err + value.
Variable globCb : gmap string node → string → Err + list string.
Variable options : CLIOptions.
Variable out : string.
Variable absProject : string.
Hypothesis Hout : outDirPath options = Some out.

Ltac run_loop :=
  cbv beta iota zeta delta
    [bind ret throw lift_result join path_args path_arg JS.endsWith JS.asString
     relative process_cwd glob emit get_fs].

(** The loop over [json.files] has no effect; when it completes, it has
    added one pair per kept entry, in order, and noted their
    directories. *)
Lemma runGlob_files_spec items :
  ∀ ff od w,
    snd (runGlob_files options absProject items ff od w) = w
    ∧ ∀ ff' od',
        fst (runGlob_files options absProject items ff od w) = Ret (ff', od') →
        ff' = ff ++ files_pairs options out absProject items
        ∧ od' = fold_left note_dir
                  (needed_dirs (files_pairs options out absProject items)) od.
Proof.
  induction items as [|v items IH]; intros ff od w.
  { simpl. split; [done|]. intros ff' od' [= <- <-]. by rewrite app_nil_r. }
  destruct v as [| | | |name| |]; try (by split).
  simpl. run_loop. rewrite Hout. unfold source_suffix.
  destruct (Str.endsWith name ".d.ts"); simpl.
  { rewrite andb_false_r. apply IH. }
  rewrite andb_true_r.
  destruct (Str.endsWith name ".ts"); simpl.
  - destruct (IH (ff ++ [mkFileInfo (Path.join [absProject; name])
                           (out_path options out name)])
                (note_dir od (Path.dirname (out_path options out name))) w)
      as [Hw Hres].
    destruct (Str.endsWith name ".js"); simpl;
      (split; [exact Hw|]; intros ff' od' Hr;
       destruct (Hres ff' od' Hr) as [-> ->]; by rewrite <- app_assoc).
  - destruct (Str.endsWith name ".js"); simpl; [|apply IH].
    destruct (IH (ff ++ [mkFileInfo (Path.join [absProject; name])
                           (out_path options out name)])
                (note_dir od (Path.dirname (out_path options out name))) w)
      as [Hw Hres].
    split; [exact Hw|]. intros ff' od' Hr.
    destruct (Hres ff' od' Hr) as [-> ->]. by rewrite <- app_assoc.
Qed.

(** The loop over the matches of one pattern always completes, without
    effect. *)
Lemma runGlob_matches_spec files :
  ∀ ff od w,
    runGlob_matches options absProject files ff od w
    = (Ret (ff ++ matches_pairs (cwd w) options out absProject files,
            fold_left note_dir
              (needed_dirs (matches_pairs (cwd w) options out absProject files)) od),
       w).
Proof.
  unfold matches_pairs.
  induction files as [|file files IH]; intros ff od w.
  { simpl. by rewrite app_nil_r. }
  simpl. rewrite filter_cons.
  destruct (source_suffix file) eqn:Hs.
  - rewrite decide_True by done. unfold source_suffix in Hs.
    apply andb_true_iff in Hs as [Hor Hd]. apply negb_true_iff in Hd.
    rewrite Hd.
    assert (Hskip : negb (Str.endsWith file ".ts") && negb (Str.endsWith file ".js")
                    = false)
      by (by destruct (Str.endsWith file ".ts"), (Str.endsWith file ".js")).
    rewrite Hskip. run_loop. rewrite Hout, IH. simpl.
    by rewrite <- app_assoc.
  - rewrite decide_False by done. unfold source_suffix in Hs.
    destruct (Str.endsWith file ".ts"), (Str.endsWith file ".js"),
      (Str.endsWith file ".d.ts"); simpl in *; try discriminate; apply IH.
Qed.

(** The loop over [json.include] calls glob once per pattern and changes
    nothing else; when it completes, it has added one pair per kept match,
    in order. *)
Lemma runGlob_include_spec patterns :
  ∀ ff od w,
    let res := runGlob_include globCb options absProject patterns ff od w in
    cwd (snd res) = cwd w
    ∧ fs (snd res) = fs w
    ∧ ∀ ff' od',
        fst res = Ret (ff', od') →
        trace (snd res) = trace w ++ include_globs absProject patterns
        ∧ ff' = ff ++ include_pairs globCb (cwd w) (fs w) options out absProject
                        patterns
        ∧ od' = fold_left note_dir
                  (needed_dirs
                     (include_pairs globCb (cwd w) (fs w) options out absProject
                        patterns)) od.
Proof.
  induction patterns as [|v patterns IH]; intros ff od w.
  { simpl. split; [done|]. split; [done|].
    intros ff' od' [= <- <-]. by rewrite !app_nil_r. }
  destruct v as [| | | |pat| |]; try (by repeat split).
  simpl. run_loop. simpl.
  destruct (globCb (fs w) (Path.join [absProject; pat])) as [e|files] eqn:Hglob;
    simpl; [by repeat split|].
  rewrite runGlob_matches_spec. simpl.
  set (w1 := mkWorld (cwd w) (fs w)
               (trace w ++ [GlobCall (Path.join [absProject; pat])])).
  destruct (IH (ff ++ matches_pairs (cwd w) options out absProject files)
              (fold_left note_dir
                 (needed_dirs (matches_pairs (cwd w) options out absProject files))
                 od) w1) as (Hcwd & Hfs & Hres).
  split; [done|]. split; [done|].
  intros ff' od' Hr. destruct (Hres ff' od' Hr) as (Htr & -> & ->).
  split; [by rewrite Htr; simpl; rewrite <- app_assoc|].
  unfold needed_dirs. rewrite map_app, fold_left_app, <- app_assoc. done.
Qed.

(** The final loop over the noted directories: when it completes, each
    directory that did not exist has been created by one [mkdir]. *)
Lemma make_outDirs_spec dirs :
  ∀ w,
    cwd (snd (make_outDirs dirs w)) = cwd w
    ∧ ∃ events,
        trace (snd (make_outDirs dirs w)) = trace w ++ events
        ∧ (fst (make_outDirs dirs w) = Ret tt →
           Created (cwd w) dirs (fs w) events (fs (snd (make_outDirs dirs w)))).
Proof.
  induction dirs as [|d dirs IH]; intros w.
  { simpl. split; [done|]. exists []. split; [by rewrite app_nil_r|].
    intros _. constructor. }
  assert (Hstep : make_outDirs (d :: dirs) w
    = if Fs.exists_ (cwd w) (fs w) d
      then make_outDirs dirs (mkWorld (cwd w) (fs w) (trace w ++ [FsExists d]))
      else match Fs.mkdir (cwd w) (fs w) d with
           | inl e =>
               (Throw e,
                mkWorld (cwd w) (fs w) (trace w ++ [FsExists d; FsMkdir d]))
           | inr f1 =>
               make_outDirs dirs
                 (mkWorld (cwd w) f1 (trace w ++ [FsExists d; FsMkdir d]))
           end).
  { simpl. unfold bind at 1. rewrite exists_unfold. unfold log.
    destruct (Fs.exists_ (cwd w) (fs w) d); simpl; [done|].
    unfold bind at 1. rewrite mkdir_unfold. unfold log. simpl.
    rewrite <- app_assoc. simpl.
    by destruct (Fs.mkdir (cwd w) (fs w) d). }
  rewrite Hstep. clear Hstep.
  destruct (Fs.exists_ (cwd w) (fs w) d) eqn:Hex.
  - destruct (IH (mkWorld (cwd w) (fs w) (trace w ++ [FsExists d])))
      as (Hcwd & events & Htr & Hok).
    split; [done|]. exists (FsExists d :: events).
    split; [by rewrite Htr; simpl; rewrite <- app_assoc|].
    intros Hr. by apply Created_present, Hok.
  - destruct (Fs.mkdir (cwd w) (fs w) d) as [e|f1] eqn:Hmk.
    { split; [done|]. by exists [FsExists d; FsMkdir d]. }
    destruct (IH (mkWorld (cwd w) f1 (trace w ++ [FsExists d; FsMkdir d])))
      as (Hcwd & events & Htr & Hok).
    split; [done|]. exists (FsExists d :: FsMkdir d :: events).
    split; [by rewrite Htr; simpl; rewrite <- !app_assoc|].
    intros Hr. eapply Created_fresh; [done|done|]. by apply Hok.
Qed.

End ProjectFiles.


Lemma lift_result_Ret_inv {S A} (r : Err + A) (s s' : S) a :
  lift_result r s = (Ret a, s') → r = inr a ∧ s' = s.
Proof. destruct r; [done|]. by intros [= <- <-]. Qed.

Lemma Created_cwd_fs_mono dir dirs f events f' q :
  Created dir dirs f events f' →
  Fs.exists_ dir f q = true → Fs.exists_ dir f' q = true.
Proof.
  induction 1 as [|d dirs f events f' Hex HC IH|d dirs f f1 events f' Hex Hmk HC IH];
    intros Hq; [done|by apply IH|].
  apply IH. by eapply FsFacts.mkdir_keeps_exists.
Qed.

Section Expansion.

Variable globCb : gmap string node → string → Err + list string.

(** What project file resolution has done when it completes. *)
Lemma expandManifest_spec options json out p w pairs w' :
  outDirPath options = Some out →
  project options = Some p →
  expandManifest globCb options json w = (Ret pairs, w') →
  ∃ f1 created,
    (if Fs.exists_ (cwd w) (fs w) out then f1 = fs w
     else Fs.mkdir (cwd w) (fs w) out = inr f1)
    ∧ pairs
      = files_pairs options out (Path.join [cwd w; p])
          (entries (JS.prop json "files"))
        ++ include_pairs globCb (cwd w) f1 options out (Path.join [cwd w; p])
             (entries (JS.prop json "include"))
    ∧ trace w'
      = trace w ++ [FsExists out]
        ++ (if Fs.exists_ (cwd w) (fs w) out then [] else [FsMkdir out])
        ++ include_globs (Path.join [cwd w; p]) (entries (JS.prop json "include"))
        ++ created
    ∧ Created (cwd w) (first_mentions (needed_dirs pairs)) f1 created (fs w')
    ∧ cwd w' = cwd w.
Proof.
  intros Hout Hp H. unfold expandManifest in H.
  unfold JS.getProp in H. destruct (JS.nullish json); [done|].
  apply bind_Ret_inv in H as (files & w0 & [= <- <-] & H).
  apply bind_Ret_inv in H as (include & w0 & [= <- <-] & H).
  apply bind_Ret_inv in H as (dir & w0 & [= <- <-] & H).
  rewrite Hp, Hout in H.
  rewrite (bind_Ret _ _ _ _ _ (join_strings [cwd w; p] w)) in H.
  apply bind_Ret_inv in H as (present & w0 & Hex & H).
  rewrite exists_unfold in Hex. injection Hex as <- <-.
  apply bind_Ret_inv in H as ([] & w1 & Hroot & H).
  apply bind_Ret_inv in H as ([ff od] & w2 & Hfiles & H).
  apply bind_Ret_inv in H as ([ff' od'] & w3 & Hincl & H).
  apply bind_Ret_inv in H as ([] & w4 & Hdirs & [= <- <-]).
  set (absProject := Path.join [cwd w; p]) in *.
  assert (Hw1 : cwd w1 = cwd w
                ∧ trace w1 = trace w ++ [FsExists out]
                    ++ (if Fs.exists_ (cwd w) (fs w) out then [] else [FsMkdir out])
                ∧ (if Fs.exists_ (cwd w) (fs w) out then fs w1 = fs w
                   else Fs.mkdir (cwd w) (fs w) out = inr (fs w1))).
  { destruct (Fs.exists_ (cwd w) (fs w) out); simpl in Hroot.
    - by injection Hroot as <-.
    - rewrite mkdir_unfold in Hroot. simpl in Hroot.
      destruct (Fs.mkdir (cwd w) (fs w) out) as [e|f1]; [done|].
      injection Hroot as <-. simpl. by rewrite <- app_assoc. }
  destruct Hw1 as (Hcwd1 & Htr1 & Hfs1).
  assert (Hfiles' : w2 = w1
                    ∧ ff = files_pairs options out absProject
                             (entries (JS.prop json "files"))
                    ∧ od = first_mentions (needed_dirs ff)).
  { unfold entries. destruct (JS.truthy (JS.prop json "files")).
    - apply bind_Ret_inv in Hfiles as (items & w0 & Hit & Hfiles).
      apply lift_result_Ret_inv in Hit as [-> ->].
      destruct (runGlob_files_spec options out absProject Hout items [] [] w1)
        as [Hw Hres].
      rewrite Hfiles in Hw, Hres. simpl in *.
      destruct (Hres _ _ eq_refl) as [-> ->]. done.
    - by injection Hfiles as <- <- <-. }
  destruct Hfiles' as (-> & Hff & Hod).
  assert (Hincl' : cwd w3 = cwd w1 ∧ fs w3 = fs w1
                   ∧ trace w3 = trace w1 ++ include_globs absProject
                                               (entries (JS.prop json "include"))
                   ∧ ff' = ff ++ include_pairs globCb (cwd w1) (fs w1) options out
                                   absProject (entries (JS.prop json "include"))
                   ∧ od' = first_mentions (needed_dirs ff')).
  { unfold entries. destruct (JS.truthy (JS.prop json "include")).
    - apply bind_Ret_inv in Hincl as (items & w0 & Hit & Hincl).
      apply lift_result_Ret_inv in Hit as [-> ->].
      destruct (runGlob_include_spec globCb options out absProject Hout items
                  ff od w1) as (Hc & Hf & Hres).
      rewrite Hincl in Hc, Hf, Hres. simpl in *.
      destruct (Hres _ _ eq_refl) as (Htr & -> & ->).
      repeat split; try done.
      unfold first_mentions, needed_dirs. rewrite map_app, fold_left_app.
      by rewrite Hod.
    - injection Hincl as <- <- <-. simpl. by rewrite !app_nil_r. }
  destruct Hincl' as (Hcwd3 & Hfs3 & Htr3 & Hff' & Hod').
  destruct (make_outDirs_spec od' w3) as (Hcwd4 & created & Htr4 & Hok).
  rewrite Hdirs in Hcwd4, Htr4, Hok. simpl in *.
  exists (fs w1), created.
  split; [done|].
  split; [by rewrite Hff', Hff, Hcwd1|].
  split; [by rewrite Htr4, Htr3, Htr1, <- !app_assoc|].
  split; [|by rewrite Hcwd4, Hcwd3].
  rewrite <- Hod', <- Hfs3, <- Hcwd1, <- Hcwd3. by apply Hok.
Qed.

End Expansion.

(** ** Creation of the output directories *)

Lemma exists_lookup dir (f : gmap string node) d :
  Str.nonempty d = true →
  Fs.exists_ dir f d = bool_decide (is_Some (f !! Fs.key dir d)).
Proof. intros H. unfold Fs.exists_. by rewrite H. Qed.

Lemma mkdir_nonempty dir (f f' : gmap string node) d :
  Fs.mkdir dir f d = inr f' → Str.nonempty d = true.
Proof. unfold Fs.mkdir. by destruct (Str.nonempty d). Qed.

Lemma mkdir_lookup dir (f f' : gmap string node) d :
  Fs.mkdir dir f d = inr f' → is_Some (f' !! Fs.key dir d).
Proof.
  intros H. pose proof (FsFacts.mkdir_exists _ _ _ _ H) as Hex.
  rewrite exists_lookup in Hex by (by eapply mkdir_nonempty).
  by apply bool_decide_eq_true in Hex.
Qed.

Lemma Created_keeps_nodes dir dirs f events f' k :
  Created dir dirs f events f' → is_Some (f !! k) → is_Some (f' !! k).
Proof.
  induction 1 as [|d dirs f events f' Hex HC IH|d dirs f f1 events f' Hex Hmk HC IH];
    intros Hk; [done|by apply IH|].
  apply IH. by eapply FsFacts.mkdir_keeps_nodes.
Qed.

(** Every directory on which [mkdir] is called was absent at the start. *)
Lemma Created_calls_fresh dir dirs f events f' d :
  Created dir dirs f events f' → d ∈ mkdir_calls events →
  f !! Fs.key dir d = None.
Proof.
  induction 1 as [|d0 dirs f events f' Hex HC IH|d0 dirs f f1 events f' Hex Hmk HC IH];
    simpl; intros Hd.
  - by apply elem_of_nil in Hd.
  - by apply IH.
  - apply elem_of_cons in Hd as [->|Hd]; [by eapply FsFacts.mkdir_fresh|].
    specialize (IH Hd). destruct (f !! Fs.key dir d) eqn:Hk; [|done].
    assert (Hsome : is_Some (f1 !! Fs.key dir d)).
    { eapply FsFacts.mkdir_keeps_nodes; [done|]. by rewrite Hk. }
    rewrite IH in Hsome. by destruct Hsome.
Qed.

(** No directory is the target of two [mkdir] calls. *)
Lemma Created_calls_NoDup dir dirs f events f' :
  Created dir dirs f events f' →
  NoDup (map (Fs.key dir) (mkdir_calls events)).
Proof.
  induction 1 as [|d0 dirs f events f' Hex HC IH|d0 dirs f f1 events f' Hex Hmk HC IH];
    simpl; [constructor|done|].
  constructor; [|done].
  intros Hin. apply list_elem_of_fmap in Hin as (d & Hkey & Hd).
  pose proof (Created_calls_fresh _ _ _ _ _ _ HC Hd) as Hfresh.
  pose proof (mkdir_lookup _ _ _ _ Hmk) as Hsome.
  rewrite Hkey, Hfresh in Hsome. by destruct Hsome.
Qed.

(** The [mkdir] calls follow the order of the list. *)
Lemma Created_calls_sublist dir dirs f events f' :
  Created dir dirs f events f' → sublist (mkdir_calls events) dirs.
Proof.
  induction 1; simpl; [constructor|by constructor|by constructor].
Qed.

Lemma Created_events dir dirs f events f' e :
  Created dir dirs f events f' → e ∈ events →
  ∃ d, d ∈ dirs ∧ (e = FsExists d ∨ e = FsMkdir d).
Proof.
  induction 1 as [|d0 dirs f events f' Hex HC IH|d0 dirs f f1 events f' Hex Hmk HC IH];
    intros He.
  - by apply elem_of_nil in He.
  - apply elem_of_cons in He as [->|He].
    + exists d0. split; [left|by left].
    + destruct (IH He) as (d & Hd & Hcase). exists d. split; [by right|done].
  - apply elem_of_cons in He as [->|He].
    { exists d0. split; [left|by left]. }
    apply elem_of_cons in He as [->|He].
    { exists d0. split; [left|by right]. }
    destruct (IH He) as (d & Hd & Hcase). exists d. split; [by right|done].
Qed.

(** Afterwards every directory of the list exists. *)
Lemma Created_all_exist dir dirs f events f' d :
  Created dir dirs f events f' → d ∈ dirs → Fs.exists_ dir f' d = true.
Proof.
  induction 1 as [|d0 dirs f events f' Hex HC IH|d0 dirs f f1 events f' Hex Hmk HC IH];
    intros Hd.
  - by apply elem_of_nil in Hd.
  - apply elem_of_cons in Hd as [->|Hd]; [|by apply IH].
    by eapply Created_cwd_fs_mono.
  - apply elem_of_cons in Hd as [->|Hd]; [|by apply IH].
    eapply Created_cwd_fs_mono; [done|]. by eapply FsFacts.mkdir_exists.
Qed.

Lemma note_dir_elem dirs d x :
  x ∈ note_dir dirs d ↔ x ∈ dirs ∨ x = d.
Proof.
  unfold note_dir, includes. case_bool_decide as Hin.
  - split; [by left|]. by intros [?| ->].
  - rewrite elem_of_app, list_elem_of_singleton. done.
Qed.

Lemma note_dir_NoDup dirs d : NoDup dirs → NoDup (note_dir dirs d).
Proof.
  intros Hnd. unfold note_dir, includes. case_bool_decide as Hin; [done|].
  apply NoDup_app. split; [done|]. split; [|apply NoDup_singleton].
  intros x Hx ->%list_elem_of_singleton. done.
Qed.

Lemma fold_note_dir_elem l dirs x :
  x ∈ fold_left note_dir l dirs ↔ x ∈ dirs ∨ x ∈ l.
Proof.
  revert dirs. induction l as [|d l IH]; intros dirs; simpl.
  - split; [by left|]. intros [?|H]; [done|]. by apply elem_of_nil in H.
  - rewrite IH, note_dir_elem, elem_of_cons.
    split; [intros [[H|H]|H]|intros [H|[H|H]]]; auto.
Qed.

Lemma fold_note_dir_NoDup l dirs :
  NoDup dirs → NoDup (fold_left note_dir l dirs).
Proof.
  revert dirs. induction l as [|d l IH]; intros dirs Hnd; [done|].
  simpl. by apply IH, note_dir_NoDup.
Qed.

(** The noted directories are the needed ones, each once. *)
Lemma first_mentions_elem l x : x ∈ first_mentions l ↔ x ∈ l.
Proof.
  unfold first_mentions. rewrite fold_note_dir_elem.
  split; [|by right]. intros [H|H]; [|done]. by apply elem_of_nil in H.
Qed.

Lemma first_mentions_NoDup l : NoDup (first_mentions l).
Proof. apply fold_note_dir_NoDup. constructor. Qed.

Lemma include_globs_calls absProject patterns e :
  e ∈ include_globs absProject patterns → ∃ pattern, e = GlobCall pattern.
Proof.
  unfold include_globs. intros H. apply list_elem_of_In, in_flat_map in H
    as (v & _ & Hv).
  destruct v; try done. destruct Hv as [<-|[]]. by eexists.
Qed.

Section OutputDirectories.

Variable JSON_parse : string → Err + value.
Variable globCb : gmap string node → string → Err + list string.

Lemma runGlob_Ret_inv options p w pairs w' :
  project options = Some p →
  runGlob JSON_parse globCb options w = (Ret pairs, w') →
  ∃ str json,
    Fs.readFile (cwd w) (fs w) (Path.join [p; "tsconfig.json"]) = inr str
    ∧ JSON_parse str = inr json
    ∧ expandManifest globCb options json
        (log w [FsReadFile (Path.join [p; "tsconfig.json"])])
      = (Ret pairs, w').
Proof.
  intros Hp H. unfold runGlob in H. rewrite Hp in H.
  rewrite (bind_Ret _ _ _ _ _ (join_strings [p; "tsconfig.json"] w)) in H.
  destruct (Fs.readFile (cwd w) (fs w) (Path.join [p; "tsconfig.json"]))
    as [e|str] eqn:Hread.
  { unfold bind at 1 in H. by rewrite (read_tsconfig_missing _ _ _ _ Hread) in H. }
  rewrite (bind_Ret _ _ _ _ _ (read_tsconfig_found _ _ _ _ Hread)) in H.
  apply bind_Ret_inv in H as (json & w0 & Hparse & H).
  apply lift_result_Ret_inv in Hparse as [Hparse ->].
  by exists str, json.
Qed.

(** [mkdir] is called without the [recursive] option: the loop over the
    noted directories stops with [ENOENT] at a directory whose parent does
    not exist. *)
Lemma make_outDirs_needs_parent d dirs w :
  Str.nonempty d = true →
  fs w !! Fs.key (cwd w) d = None →
  fs w !! Path.dirname (Fs.key (cwd w) d) = None →
  make_outDirs (d :: dirs) w = (Throw (ENOENT d), log w [FsExists d; FsMkdir d]).
Proof.
  intros Hne Hk Hparent. simpl. unfold bind at 1. rewrite exists_unfold.
  rewrite exists_lookup by done. rewrite Hk.
  rewrite bool_decide_eq_false_2 by (by intros []). simpl.
  unfold bind at 1. rewrite mkdir_unfold. simpl.
  rewrite (FsFacts.mkdir_needs_parent _ _ _ Hne Hk Hparent).
  unfold log. simpl. by rewrite <- app_assoc.
Qed.

(** C5 (amended).  When project file resolution completes, its effects
    are, in this order: the read of the manifest; the existence test of
    the output root and, if the root was absent, its creation - before
    any entry of the manifest is looked at; the glob calls that compute
    the pair list; and then, for the directories that hold the output
    paths of the pairs, each taken once in order of first mention, an
    existence test followed, if the directory is absent, by one
    non-recursive [mkdir].  No directory is the target of two [mkdir]
    calls, every needed directory exists at the end, a [mkdir] whose
    parent directory is missing fails with [ENOENT], and the build of the
    first file starts from the world in which all this has happened. *)
Theorem output_directories_created_once options out p w pairs w' :
  outDirPath options = Some out →
  project options = Some p →
  runGlob JSON_parse globCb options w = (Ret pairs, w') →
  ∃ globs created f1,
    let root := if Fs.exists_ (cwd w) (fs w) out then [] else [FsMkdir out] in
    trace w'
    = trace w ++ [FsReadFile (Path.join [p; "tsconfig.json"]); FsExists out]
      ++ root ++ globs ++ created
    ∧ (if Fs.exists_ (cwd w) (fs w) out then f1 = fs w
       else Fs.mkdir (cwd w) (fs w) out = inr f1)
    ∧ Created (cwd w) (first_mentions (needed_dirs pairs)) f1 created (fs w')
    ∧ (∀ e, e ∈ globs → ∃ pattern, e = GlobCall pattern)
    ∧ (∀ e, e ∈ created →
         ∃ d, d ∈ needed_dirs pairs ∧ (e = FsExists d ∨ e = FsMkdir d))
    ∧ sublist (mkdir_calls created) (first_mentions (needed_dirs pairs))
    ∧ NoDup (first_mentions (needed_dirs pairs))
    ∧ NoDup (map (Fs.key (cwd w)) (mkdir_calls (root ++ created)))
    ∧ (∀ d, d ∈ needed_dirs pairs → Fs.exists_ (cwd w') (fs w') d = true)
    ∧ (∀ d dirs w1,
         Str.nonempty d = true →
         fs w1 !! Fs.key (cwd w1) d = None →
         fs w1 !! Path.dirname (Fs.key (cwd w1) d) = None →
         make_outDirs (d :: dirs) w1
         = (Throw (ENOENT d), log w1 [FsExists d; FsMkdir d]))
    ∧ ∀ transform,
        (let* files := runGlob JSON_parse globCb options in
         buildFiles transform files options) w
        = buildFiles transform pairs options w'.
Proof.
  intros Hout Hp Hrun.
  destruct (runGlob_Ret_inv _ _ _ _ _ Hp Hrun) as (str & json & Hread & Hparse & Hexp).
  destruct (expandManifest_spec globCb _ _ _ _ _ _ _ Hout Hp Hexp)
    as (f1 & created & Hroot & Hpairs & Htrace & Hcreated & Hcwd).
  simpl in *.
  exists (include_globs (Path.join [cwd w; p]) (entries (JS.prop json "include"))),
    created, f1.
  split; [by rewrite Htrace, <- !app_assoc|].
  split; [done|]. split; [done|].
  split; [apply include_globs_calls|].
  split.
  { intros e He. destruct (Created_events _ _ _ _ _ _ Hcreated He) as (d & Hd & Hcase).
    exists d. split; [by apply first_mentions_elem|done]. }
  split; [by eapply Created_calls_sublist|].
  split; [apply first_mentions_NoDup|].
  split.
  { destruct (Fs.exists_ (cwd w) (fs w) out) eqn:Hex; simpl.
    - by eapply Created_calls_NoDup.
    - constructor; [|by eapply Created_calls_NoDup].
      intros Hin. apply list_elem_of_fmap in Hin as (d & Hkey & Hd).
      pose proof (Created_calls_fresh _ _ _ _ _ _ Hcreated Hd) as Hfresh.
      pose proof (mkdir_lookup _ _ _ _ Hroot) as Hsome.
      rewrite Hkey, Hfresh in Hsome. by destruct Hsome. }
  split.
  { intros d Hd. rewrite Hcwd.
    eapply Created_all_exist; [done|]. by apply first_mentions_elem. }
  split; [intros d dirs w1; apply make_outDirs_needs_parent|].
  intros transform. unfold bind. by rewrite Hrun.
Qed.

End OutputDirectories.

(** C5, as stated, fails: when the output root is absent, it is created
    before the glob call that computes the pair list, although it holds
    the output path of a pair. *)
Lemma root_created_before_discovery :
  let res0 := updateOptionsFromProject Examples.JSON_parse
                (Examples.project_options [], Examples.project_world "both") in
  let res := runGlob Examples.JSON_parse Examples.globCb
               (fst (snd res0)) (snd (snd res0)) in
  ∃ pairs,
    fst res = Ret pairs
    ∧ ¬ creations_follow_discovery (trace (snd res)) pairs.
Proof.
  exists [mkFileInfo "/w/proj/x.ts" "/w/proj/out/x.js";
          mkFileInfo "/w/proj/x.ts" "/w/proj/out/x.js";
          mkFileInfo "/w/proj/z.ts" "/w/proj/out/z.js"].
  split; [vm_compute; reflexivity|].
  intros H. assert (Hlt : 4 < 3); [|lia].
  apply (H 3 4 "/w/proj/out" "/w/proj/*.ts").
  - vm_compute. reflexivity.
  - apply list_elem_of_here.
  - vm_compute. reflexivity.
Qed.

Lemma output_directories_witness :
  let options := mkCLIOptions (Some "/w/proj/out") None (Some "proj") "js" []
                   (Some true) (Examples.sucrase_defaults ["typescript"]) in
  let w := Examples.project_world "both" in
  let pairs := [mkFileInfo "/w/proj/x.ts" "/w/proj/out/x.js";
                mkFileInfo "/w/proj/x.ts" "/w/proj/out/x.js";
                mkFileInfo "/w/proj/z.ts" "/w/proj/out/z.js"] in
  let w' := snd (runGlob Examples.JSON_parse Examples.globCb options w) in
  ∃ globs created f1,
    let root := if Fs.exists_ (cwd w) (fs w) "/w/proj/out" then []
                else [FsMkdir "/w/proj/out"] in
    trace w'
    = trace w ++ [FsReadFile (Path.join ["proj"; "tsconfig.json"]);
                  FsExists "/w/proj/out"]
      ++ root ++ globs ++ created
    ∧ (if Fs.exists_ (cwd w) (fs w) "/w/proj/out" then f1 = fs w
       else Fs.mkdir (cwd w) (fs w) "/w/proj/out" = inr f1)
    ∧ Created (cwd w) (first_mentions (needed_dirs pairs)) f1 created (fs w')
    ∧ (∀ e, e ∈ globs → ∃ pattern, e = GlobCall pattern)
    ∧ (∀ e, e ∈ created →
         ∃ d, d ∈ needed_dirs pairs ∧ (e = FsExists d ∨ e = FsMkdir d))
    ∧ sublist (mkdir_calls created) (first_mentions (needed_dirs pairs))
    ∧ NoDup (first_mentions (needed_dirs pairs))
    ∧ NoDup (map (Fs.key (cwd w)) (mkdir_calls (root ++ created)))
    ∧ (∀ d, d ∈ needed_dirs pairs → Fs.exists_ (cwd w') (fs w') d = true)
    ∧ (∀ d dirs w1,
         Str.nonempty d = true →
         fs w1 !! Fs.key (cwd w1) d = None →
         fs w1 !! Path.dirname (Fs.key (cwd w1) d) = None →
         make_outDirs (d :: dirs) w1
         = (Throw (ENOENT d), log w1 [FsExists d; FsMkdir d]))
    ∧ ∀ transform,
        (let* files := runGlob Examples.JSON_parse Examples.globCb options in
         buildFiles transform files options) w
        = buildFiles transform pairs options w'.
Proof.
  apply (output_directories_created_once Examples.JSON_parse Examples.globCb
           (mkCLIOptions (Some "/w/proj/out") None (Some "proj") "js" []
              (Some true) (Examples.sucrase_defaults ["typescript"]))
           "/w/proj/out" "proj" (Examples.project_world "both"));
    vm_compute; reflexivity.
Defined.

(** A directory two levels below an absent parent cannot be created: the
    build of the nested example stops with [ENOENT]. *)
Example nested_directory_fails :
  fst (buildDirectory Examples.JSON_parse Examples.globCb Examples.transform 3
         (Examples.project_options []) (Examples.project_world "nested"))
  = Throw (ENOENT "/w/proj/out/a/b").
Proof. vm_compute. reflexivity. Qed.

(** ** Relative paths inside a project *)

Module RelativeFacts.

Lemma split_no_slash sep (s : string) :
  Forall (λ x, Str.has_char sep x = false) (Str.split sep s).
Proof.
  induction s as [|a s IH]; simpl; [by repeat constructor|].
  case_bool_decide as Ha; [by constructor|].
  destruct (Str.split sep s) as [|h t].
  - repeat constructor. simpl. by rewrite bool_decide_eq_false_2.
  - inversion IH; subst. constructor; [|done]. simpl.
    by rewrite bool_decide_eq_false_2.
Qed.

Lemma norm_step_keeps_valid st (seg : string) :
  Forall (λ n, Fs.valid_name n = true) st →
  Str.has_char "/" seg = false →
  Forall (λ n, Fs.valid_name n = true) (Path.norm_step false st seg).
Proof.
  intros Hst Hseg. unfold Path.norm_step.
  case_bool_decide as H1; simpl; [done|].
  case_bool_decide as H2; simpl; [done|].
  case_bool_decide as H3.
  - destruct st as [|top rest]; [done|]. inversion Hst; subst.
    by case_bool_decide.
  - constructor; [|done]. by apply PathFacts.valid_name_intro.
Qed.

(** The segments of a resolved path are file names. *)
Lemma norm_segs_valid (segs : list string) :
  Forall (λ x, Str.has_char "/" x = false) segs →
  Forall (λ n, Fs.valid_name n = true) (Path.norm_segs false segs).
Proof.
  intros Hsegs. unfold Path.norm_segs. apply Forall_rev.
  assert (H : ∀ st, Forall (λ n, Fs.valid_name n = true) st →
                    Forall (λ n, Fs.valid_name n = true)
                      (fold_left (Path.norm_step false) segs st)).
  { induction Hsegs as [|seg segs Hseg Hsegs IH]; intros st Hst; [done|].
    simpl. apply IH. by apply norm_step_keeps_valid. }
  apply H. constructor.
Qed.

Lemma norm_segs_app_valid b (l names : list string) :
  Forall (λ n, Fs.valid_name n = true) names →
  Path.norm_segs b (l ++ names) = Path.norm_segs b l ++ names.
Proof.
  induction names as [|c names IH] using rev_ind; intros Hn.
  - by rewrite !app_nil_r.
  - apply Forall_app in Hn as [Hn Hc]. inversion Hc; subst.
    rewrite !app_assoc. rewrite PathFacts.norm_segs_snoc by done.
    by rewrite IH.
Qed.

Lemma split_concat (names : list string) :
  names ≠ [] →
  Forall (λ x, Str.has_char "/" x = false) names →
  Str.split "/" (Str.concat "/" names) = names.
Proof.
  intros Hne Hall. induction Hall as [|x l Hx Hl IH]; [done|].
  destruct l as [|y l].
  - by apply StrFacts.split_no_sep.
  - change (Str.concat "/" (x :: y :: l))
      with (x +:+ String "/" (Str.concat "/" (y :: l))).
    rewrite StrFacts.split_app, (StrFacts.split_no_sep _ _ Hx), IH by done.
    done.
Qed.

Lemma valid_no_slash (names : list string) :
  Forall (λ n, Fs.valid_name n = true) names →
  Forall (λ x, Str.has_char "/" x = false) names.
Proof.
  intros H. eapply Forall_impl; [exact H|].
  by intros n (_ & _ & _ & Hn)%PathFacts.valid_name_inv.
Qed.

Lemma concat_app sep (l1 l2 : list string) :
  l1 ≠ [] → l2 ≠ [] →
  Str.concat sep (l1 ++ l2) = Str.concat sep l1 +:+ sep +:+ Str.concat sep l2.
Proof.
  intros H1 H2. induction l1 as [|x l1 IH]; [done|].
  destruct l1 as [|y l1].
  - destruct l2; [done|]. done.
  - change ((x :: y :: l1) ++ l2) with (x :: (y :: l1) ++ l2).
    change (Str.concat sep (x :: (y :: l1) ++ l2))
      with (x +:+ sep +:+ Str.concat sep ((y :: l1) ++ l2)).
    rewrite IH by done.
    change (Str.concat sep (x :: y :: l1))
      with (x +:+ sep +:+ Str.concat sep (y :: l1)).
    by rewrite !StrFacts.app_assoc.
Qed.

(** A path made of file names is not empty and does not end in a
    slash. *)
Lemma concat_valid_shape (names : list string) :
  names ≠ [] → Forall (λ n, Fs.valid_name n = true) names →
  ∃ pre c, Str.concat "/" names = pre +:+ c ∧ Fs.valid_name c = true.
Proof.
  intros Hne Hall. destruct (exists_last Hne) as (l & c & ->).
  apply Forall_app in Hall as [_ Hc]. inversion Hc; subst.
  rewrite StrFacts.concat_snoc. destruct l.
  - exists "", c. by rewrite StrFacts.app_nil_l.
  - eexists _, c. split; [|done]. by rewrite <- StrFacts.app_assoc.
Qed.

Lemma concat_valid_nonempty (names : list string) :
  names ≠ [] → Forall (λ n, Fs.valid_name n = true) names →
  Str.concat "/" names ≠ "".
Proof.
  intros Hne Hall. destruct (concat_valid_shape _ Hne Hall) as (pre & c & -> & Hc).
  apply PathFacts.app_nonempty_r. by apply PathFacts.valid_name_inv in Hc as [? _].
Qed.

Lemma concat_valid_no_trailing (x : string) (names : list string) :
  names ≠ [] → Forall (λ n, Fs.valid_name n = true) names →
  Str.endsWith (x +:+ Str.concat "/" names) "/" = false.
Proof.
  intros Hne Hall. destruct (concat_valid_shape _ Hne Hall) as (pre & c & -> & Hc).
  rewrite <- StrFacts.app_assoc.
  apply PathFacts.valid_name_inv in Hc as (? & _ & _ & ?).
  by apply StrFacts.endsWith_slash_false.
Qed.

Lemma strip_common_prefix (l names : list string) :
  Path.strip_common l (l ++ names) = ([], names).
Proof.
  induction l as [|x l IH]; [by destruct names|].
  simpl. by rewrite bool_decide_eq_true_2.
Qed.

(** Joining an absolute directory and a relative path made of file
    names. *)
Lemma join_absolute (A : string) (names : list string) :
  Str.startsWithSlash A = true →
  names ≠ [] → Forall (λ n, Fs.valid_name n = true) names →
  Path.join [A; Str.concat "/" names]
  = "/" +:+ Str.concat "/" (Path.norm_segs false (Str.split "/" A) ++ names).
Proof.
  intros Habs Hne Hall.
  assert (HA : A ≠ "") by (by destruct A).
  pose proof (concat_valid_nonempty _ Hne Hall) as Hname.
  unfold Path.join. rewrite !filter_cons, !decide_True, filter_nil by done.
  change (Str.concat "/" [A; Str.concat "/" names])
    with (A +:+ String "/" (Str.concat "/" names)).
  unfold Path.normalize.
  rewrite bool_decide_eq_false_2 by (by apply PathFacts.app_nonempty_r).
  rewrite (PathFacts.startsWithSlash_app A _ HA), Habs. simpl.
  assert (Htrail : Str.endsWith (A +:+ String "/" (Str.concat "/" names)) "/" = false).
  { change (A +:+ String "/" (Str.concat "/" names))
      with (A +:+ "/" +:+ Str.concat "/" names).
    rewrite <- StrFacts.app_assoc. by apply concat_valid_no_trailing. }
  rewrite Htrail, StrFacts.split_app.
  rewrite (split_concat _ Hne (valid_no_slash _ Hall)).
  rewrite (norm_segs_app_valid _ _ _ Hall).
  rewrite bool_decide_eq_false_2; [done|].
  apply concat_valid_nonempty.
  - by destruct (Path.norm_segs false (Str.split "/" A)), names.
  - apply Forall_app. split; [|done]. apply norm_segs_valid, split_no_slash.
Qed.

Lemma resolve_segs_absolute dir (segs : list string) :
  segs ≠ [] → Forall (λ n, Fs.valid_name n = true) segs →
  Path.resolve_segs dir ("/" +:+ Str.concat "/" segs) = segs.
Proof.
  intros Hne Hall. unfold Path.resolve_segs.
  change ("/" +:+ Str.concat "/" segs) with (String "/" (Str.concat "/" segs)).
  assert (Hs : Str.startsWithSlash (String "/" (Str.concat "/" segs)) = true)
    by done.
  rewrite Hs.
  change (Str.split "/" (String "/" (Str.concat "/" segs)))
    with ("" :: Str.split "/" (Str.concat "/" segs)).
  rewrite (split_concat _ Hne (valid_no_slash _ Hall)).
  change ("" :: segs) with ([""] ++ segs).
  by rewrite (norm_segs_app_valid _ _ _ Hall).
Qed.

(** The path of a file of the project, relative to the project. *)
Lemma relative_join dir (A : string) (names : list string) :
  Str.startsWithSlash A = true →
  names ≠ [] → Forall (λ n, Fs.valid_name n = true) names →
  Path.relative dir A (Path.join [A; Str.concat "/" names])
  = Str.concat "/" names.
Proof.
  intros Habs Hne Hall. rewrite (join_absolute _ _ Habs Hne Hall).
  set (sa := Path.norm_segs false (Str.split "/" A)).
  assert (Hsa : Forall (λ n, Fs.valid_name n = true) sa)
    by apply norm_segs_valid, split_no_slash.
  assert (Hto : Path.resolve_segs dir ("/" +:+ Str.concat "/" (sa ++ names))
                = sa ++ names).
  { apply resolve_segs_absolute; [by destruct sa, names|by apply Forall_app]. }
  assert (Hfrom : Path.resolve_segs dir A = sa).
  { unfold Path.resolve_segs. by rewrite Habs. }
  unfold Path.relative. rewrite Hfrom, Hto.
  rewrite bool_decide_eq_false_2.
  - by rewrite strip_common_prefix.
  - intros Heq. rewrite <- Heq in Hto. rewrite Hfrom in Hto.
    apply (f_equal length) in Hto. rewrite length_app in Hto.
    destruct names; [done|]. simpl in Hto. lia.
Qed.

(** A file of the project keeps its name at the end of its absolute
    path. *)
Lemma join_absolute_suffix (A : string) (names : list string) :
  Str.startsWithSlash A = true →
  names ≠ [] → Forall (λ n, Fs.valid_name n = true) names →
  ∃ pre, Path.join [A; Str.concat "/" names] = pre +:+ Str.concat "/" names
         ∧ Str.endsWith pre "/" = true.
Proof.
  intros Habs Hne Hall. rewrite (join_absolute _ _ Habs Hne Hall).
  destruct (Path.norm_segs false (Str.split "/" A)) as [|x l] eqn:Hsa.
  - exists "/". by split.
  - rewrite concat_app by done. exists ("/" +:+ Str.concat "/" (x :: l) +:+ "/").
    split; [by rewrite !StrFacts.app_assoc|].
    rewrite <- StrFacts.app_assoc. apply StrFacts.endsWith_app.
Qed.

End RelativeFacts.

(** ** A file named twice by the manifest *)

Lemma endsWith_app_l (pre s suffix : string) :
  Str.endsWith s suffix = true → Str.endsWith (pre +:+ s) suffix = true.
Proof.
  intros [x ->]%StrFacts.endsWith_inv. rewrite <- StrFacts.app_assoc.
  apply StrFacts.endsWith_app.
Qed.

Lemma endsWith_of_child (pre s suffix : string) :
  Str.endsWith pre "/" = true → Str.has_char "/" suffix = false →
  Str.endsWith (pre +:+ s) suffix = Str.endsWith s suffix.
Proof.
  intros Hpre Hsuf. destruct (Str.endsWith (pre +:+ s) suffix) eqn:E.
  - destruct (suffix_of_child pre s suffix (or_intror Hpre) Hsuf E) as [stem ->].
    symmetry. apply StrFacts.endsWith_app.
  - destruct (Str.endsWith s suffix) eqn:E'; [|done].
    by rewrite (endsWith_app_l pre _ _ E') in E.
Qed.

(** A kept name is kept under its absolute path too. *)
Lemma source_suffix_join (A : string) (names : list string) :
  Str.startsWithSlash A = true →
  names ≠ [] → Forall (λ n, Fs.valid_name n = true) names →
  source_suffix (Path.join [A; Str.concat "/" names])
  = source_suffix (Str.concat "/" names).
Proof.
  intros Habs Hne Hall.
  destruct (RelativeFacts.join_absolute_suffix _ _ Habs Hne Hall)
    as (pre & -> & Hpre).
  unfold source_suffix. by rewrite !(endsWith_of_child pre _ _ Hpre).
Qed.

Lemma files_pairs_elem options out absProject items name :
  VStr name ∈ items → source_suffix name = true →
  mkFileInfo (Path.join [absProject; name]) (out_path options out name)
  ∈ files_pairs options out absProject items.
Proof.
  intros Hin Hs. unfold files_pairs. apply list_elem_of_In, in_flat_map.
  exists (VStr name). split; [by apply list_elem_of_In|].
  rewrite Hs. by left.
Qed.

Lemma include_pairs_elem globCb dir f options out absProject patterns pat files g :
  VStr pat ∈ patterns →
  globCb f (Path.join [absProject; pat]) = inr files →
  g ∈ files → source_suffix g = true →
  mkFileInfo g (out_path options out (Path.relative dir absProject g))
  ∈ include_pairs globCb dir f options out absProject patterns.
Proof.
  intros Hpat Hglob Hg Hs. unfold include_pairs.
  apply list_elem_of_In, in_flat_map.
  exists (VStr pat). split; [by apply list_elem_of_In|].
  rewrite Hglob. unfold matches_pairs. apply list_elem_of_In.
  apply (list_elem_of_fmap_2
           (λ file, mkFileInfo file
                      (out_path options out (Path.relative dir absProject file)))).
  by apply list_elem_of_filter.
Qed.

Section Duplicates.

Variable JSON_parse : string → Err + value.
Variable globCb : gmap string node → string → Err + list string.
Variable transform : string → Options → string → Err + string.
Variable options : CLIOptions.

Lemma Built_app l1 l2 jss w w' :
  Built transform options (l1 ++ l2) jss w w' →
  ∃ jss1 jss2 wm,
    jss = jss1 ++ jss2
    ∧ Built transform options l1 jss1 w wm
    ∧ Built transform options l2 jss2 wm w'.
Proof.
  revert jss w. induction l1 as [|f l1 IH]; intros jss w HB.
  - exists [], jss, w. split; [done|]. split; [constructor|done].
  - inversion HB as [|f0 rest code js jss0 fs' w0 w0' Hr Ht Hw HB']; subst.
    destruct (IH _ _ HB') as (jss1 & jss2 & wm & -> & H1 & H2).
    exists (js :: jss1), jss2, wm. split; [done|]. split; [|done].
    by econstructor.
Qed.

(** Right after the build of a pair, its output path holds what that
    build wrote. *)
Lemma Built_one f jss w w' :
  Built transform options [f] jss w w' →
  ∃ js, jss = [js]
        ∧ file_at w' (outPath f) = Some js
        ∧ trace w' = trace w ++ build_events options f js.
Proof.
  intros HB. inversion HB as [|f0 rest code js jss0 fs' w0 w0' Hr Ht Hw HB']; subst.
  inversion HB'; subst. exists js. split; [done|]. split; [|done].
  unfold file_at. simpl. by rewrite (FsFacts.writeFile_lookup_same _ _ _ _ _ Hw).
Qed.

Lemma buildFiles_Ret_Built files :
  ∀ w w',
    buildFiles transform files options w = (Ret tt, w') →
    ∃ jss, Built transform options files jss w w'.
Proof.
  induction files as [|file rest IH]; intros w w' Hrun.
  { injection Hrun as <-. exists []. constructor. }
  simpl in Hrun. apply bind_Ret_inv in Hrun as ([] & w1 & Hone & Hrest).
  rewrite buildFile_unfold in Hone.
  destruct (Fs.readFile (cwd w) (fs w) (srcPath file)) as [e|code] eqn:Hread;
    [done|].
  destruct (transform code (sucraseOptions options) (srcPath file)) as [e|js] eqn:Htr;
    [done|].
  destruct (Fs.writeFile (cwd w) (fs w) (outPath file) js) as [e|fs'] eqn:Hwr;
    [done|].
  injection Hone as <-. destruct (IH _ _ Hrest) as [jss HB].
  exists (js :: jss). by econstructor.
Qed.

(** C6.  In project mode, a source file that the manifest names in
    [files] and that a glob pattern of [include] matches as well is put in
    the pair list twice - once by each loop, with the same source path
    and the same output path, nothing being removed - and the build loop
    builds both entries: after the first build the output path holds what
    that build wrote, and after the second it holds what the second
    wrote. *)
Theorem file_named_twice_is_built_twice out p w str json f1 name names pat
    matches pairs w1 :
  outDirPath options = Some out →
  project options = Some p →
  Fs.readFile (cwd w) (fs w) (Path.join [p; "tsconfig.json"]) = inr str →
  JSON_parse str = inr json →
  runGlob JSON_parse globCb options w = (Ret pairs, w1) →
  (if Fs.exists_ (cwd w) (fs w) out then f1 = fs w
   else Fs.mkdir (cwd w) (fs w) out = inr f1) →
  Str.startsWithSlash (Path.join [cwd w; p]) = true →
  name = Str.concat "/" names →
  names ≠ [] →
  Forall (λ n, Fs.valid_name n = true) names →
  VStr name ∈ entries (JS.prop json "files") →
  source_suffix name = true →
  VStr pat ∈ entries (JS.prop json "include") →
  globCb f1 (Path.join [Path.join [cwd w; p]; pat]) = inr matches →
  Path.join [Path.join [cwd w; p]; name] ∈ matches →
  ∃ l1 l2 l3,
    let f := mkFileInfo (Path.join [Path.join [cwd w; p]; name])
               (out_path options out name) in
    pairs = l1 ++ f :: l2 ++ f :: l3
    ∧ ∀ w2,
        buildFiles transform pairs options w1 = (Ret tt, w2) →
        ∃ jss1 js1 jss2 js2 jss3 wa wb wc wd,
          Built transform options l1 jss1 w1 wa
          ∧ Built transform options [f] [js1] wa wb
          ∧ Built transform options l2 jss2 wb wc
          ∧ Built transform options [f] [js2] wc wd
          ∧ Built transform options l3 jss3 wd w2
          ∧ file_at wb (outPath f) = Some js1
          ∧ file_at wd (outPath f) = Some js2.
Proof.
  intros Hout Hp Hread Hparse Hrun Hf1 Habs -> Hne Hvalid Hfile Hkept Hpat Hglob Hmatch.
  set (absProject := Path.join [cwd w; p]) in *.
  set (name := Str.concat "/" names) in *.
  destruct (runGlob_Ret_inv JSON_parse globCb _ _ _ _ _ Hp Hrun)
    as (str' & json' & Hread' & Hparse' & Hexp).
  assert (str' = str) as -> by congruence.
  assert (json' = json) as -> by congruence.
  destruct (expandManifest_spec globCb _ _ _ _ _ _ _ Hout Hp Hexp)
    as (f1' & created & Hf1' & Hpairs & _).
  simpl in Hf1', Hpairs. fold absProject in Hpairs.
  assert (f1' = f1) as ->.
  { destruct (Fs.exists_ (cwd w) (fs w) out); congruence. }
  set (f := mkFileInfo (Path.join [absProject; name]) (out_path options out name)).
  assert (Hin1 : f ∈ files_pairs options out absProject
                       (entries (JS.prop json "files")))
    by (by apply files_pairs_elem).
  assert (Hin2 : f ∈ include_pairs globCb (cwd w) f1 options out absProject
                       (entries (JS.prop json "include"))).
  { assert (Hs : source_suffix (Path.join [absProject; name]) = true)
      by (by unfold name; rewrite (source_suffix_join _ _ Habs Hne Hvalid)).
    pose proof (include_pairs_elem globCb (cwd w) f1 options out absProject
                  _ _ _ _ Hpat Hglob Hmatch Hs) as Hin.
    unfold name in Hin at 2.
    by rewrite (RelativeFacts.relative_join _ _ _ Habs Hne Hvalid) in Hin. }
  apply list_elem_of_split in Hin1 as (a1 & a2 & Ha).
  apply list_elem_of_split in Hin2 as (b1 & b2 & Hb).
  exists a1, (a2 ++ b1), b2. simpl.
  split.
  { rewrite Hpairs, Ha, Hb. rewrite <- ?app_assoc. simpl.
    by rewrite <- ?app_assoc. }
  intros w2 Hbuild.
  destruct (buildFiles_Ret_Built _ _ _ Hbuild) as [jss HB].
  assert (Hshape : pairs = a1 ++ [f] ++ (a2 ++ b1) ++ [f] ++ b2).
  { rewrite Hpairs, Ha, Hb. rewrite <- ?app_assoc. simpl.
    by rewrite <- ?app_assoc. }
  rewrite Hshape in HB.
  apply Built_app in HB as (jss1 & r1 & wa & _ & HB1 & HB).
  apply Built_app in HB as (j1 & r2 & wb & _ & HBf1 & HB).
  apply Built_app in HB as (jss2 & r3 & wc & _ & HB2 & HB).
  apply Built_app in HB as (j2 & jss3 & wd & _ & HBf2 & HB3).
  destruct (Built_one _ _ _ _ HBf1) as (js1 & -> & Hat1 & _).
  destruct (Built_one _ _ _ _ HBf2) as (js2 & -> & Hat2 & _).
  by exists jss1, js1, jss2, js2, jss3, wa, wb, wc, wd.
Qed.

End Duplicates.


Lemma file_named_twice_witness :
  let options := mkCLIOptions (Some "/w/proj/out") None (Some "proj") "js" []
                   (Some true) (Examples.sucrase_defaults ["typescript"]) in
  let w := Examples.project_world "both" in
  let pairs := [mkFileInfo "/w/proj/x.ts" "/w/proj/out/x.js";
                mkFileInfo "/w/proj/x.ts" "/w/proj/out/x.js";
                mkFileInfo "/w/proj/z.ts" "/w/proj/out/z.js"] in
  let w1 := snd (runGlob Examples.JSON_parse Examples.globCb options w) in
  ∃ l1 l2 l3,
    let f := mkFileInfo (Path.join [Path.join [cwd w; "proj"]; "x.ts"])
               (out_path options "/w/proj/out" "x.ts") in
    pairs = l1 ++ f :: l2 ++ f :: l3
    ∧ ∀ w2,
        buildFiles Examples.transform pairs options w1 = (Ret tt, w2) →
        ∃ jss1 js1 jss2 js2 jss3 wa wb wc wd,
          Built Examples.transform options l1 jss1 w1 wa
          ∧ Built Examples.transform options [f] [js1] wa wb
          ∧ Built Examples.transform options l2 jss2 wb wc
          ∧ Built Examples.transform options [f] [js2] wc wd
          ∧ Built Examples.transform options l3 jss3 wd w2
          ∧ file_at wb (outPath f) = Some js1
          ∧ file_at wd (outPath f) = Some js2.
Proof.
  apply (file_named_twice_is_built_twice Examples.JSON_parse Examples.globCb
           Examples.transform
           (mkCLIOptions (Some "/w/proj/out") None (Some "proj") "js" []
              (Some true) (Examples.sucrase_defaults ["typescript"]))
           "/w/proj/out" "proj" (Examples.project_world "both") "both"
           Examples.manifest_both
           (Examples.project_tree_with_out "both") "x.ts" ["x.ts"] "*.ts"
           ["/w/proj/x.ts"; "/w/proj/z.ts"]);
    try (vm_compute; reflexivity).
  - done.
  - by repeat constructor.
  - apply list_elem_of_here.
  - apply list_elem_of_here.
  - apply list_elem_of_here.
Defined.

(** The example project: [x.ts] is built twice and written twice to the
    same output path. *)
Example file_named_twice_example :
  let res := buildDirectory Examples.JSON_parse Examples.globCb Examples.transform
               3 (Examples.project_options []) (Examples.project_world "both") in
  fst res = Ret tt
  ∧ trace (snd res)
    = [FsReadFile "proj/tsconfig.json"; FsReadFile "proj/tsconfig.json";
       FsExists "/w/proj/out"; FsMkdir "/w/proj/out"; GlobCall "/w/proj/*.ts";
       FsExists "/w/proj/out";
       FsReadFile "/w/proj/x.ts"; TransformCall "/w/proj/x.ts";
       FsWriteFile "/w/proj/out/x.js" "js:x";
       FsReadFile "/w/proj/x.ts"; TransformCall "/w/proj/x.ts";
       FsWriteFile "/w/proj/out/x.js" "js:x";
       FsReadFile "/w/proj/z.ts"; TransformCall "/w/proj/z.ts";
       FsWriteFile "/w/proj/out/z.js" "js:z"].
Proof. vm_compute. done. Qed.

(** * Further properties of the command line *)

(** ** Validation and the options record *)

Lemma validate_Ret_world c w : fst (validate c w) = Ret tt → snd (validate c w) = w.
Proof.
  unfold validate.
  destruct (JS.truthy_str (commander.project c)).
  - destruct (_ || _); [discriminate|done].
  - destruct (JS.truthy_str (commander.outDir c)); [|discriminate].
    destruct (JS.truthy_str (commander.transforms c)); [|discriminate].
    destruct (JS.truthy_str (head (commander.args c))); [done|discriminate].
Qed.

Lemma truthy_str_Some o :
  JS.truthy_str o = true → ∃ s, o = Some s ∧ Str.nonempty s = true.
Proof. destruct o as [s|]; [|done]. intros H. by exists s. Qed.

Lemma validate_tree_accepts c w :
  JS.truthy_str (commander.project c) = false →
  fst (validate c w) = Ret tt →
  JS.truthy_str (commander.outDir c) = true
  ∧ JS.truthy_str (commander.transforms c) = true
  ∧ JS.truthy_str (head (commander.args c)) = true.
Proof.
  intros Hp. unfold validate. rewrite Hp.
  destruct (JS.truthy_str (commander.outDir c)); [|discriminate].
  destruct (JS.truthy_str (commander.transforms c)); [|discriminate].
  destruct (JS.truthy_str (head (commander.args c))); [done|discriminate].
Qed.

Lemma split_concat_sep sep (names : list string) :
  names ≠ [] →
  Forall (λ x, Str.has_char sep x = false) names →
  Str.split sep (Str.concat (String sep "") names) = names.
Proof.
  induction names as [|x names IH]; [done|]. intros _ Hall.
  apply Forall_cons in Hall as [Hx Hall].
  destruct names as [|y names].
  - simpl. by apply StrFacts.split_no_sep.
  - change (Str.concat (String sep "") (x :: y :: names))
      with (x +:+ String sep "" +:+ Str.concat (String sep "") (y :: names)).
    rewrite StrFacts.app_cons, StrFacts.app_nil_l.
    rewrite StrFacts.split_app, IH; [|done|done].
    by rewrite StrFacts.split_no_sep.
Qed.

Section CommandLine.

Variable JSON_parse : string → Err + value.
Variable globCb : gmap string node → string → Err + list string.
Variable transform : string → Options → string → Err + string.

Lemma buildDirectory_tree fuel options w :
  JS.truthy_str (outDirPath options) && JS.truthy_str (srcDirPath options) = true →
  buildDirectory JSON_parse globCb transform fuel options w
  = (let* files := findFiles fuel options in
     buildFiles transform files options) w.
Proof.
  intros H. unfold buildDirectory, discover. rewrite H.
  unfold bind. by destruct (findFiles fuel options w) as [[]].
Qed.

Lemma buildDirectory_project fuel options w :
  JS.truthy_str (outDirPath options) && JS.truthy_str (srcDirPath options) = false →
  JS.truthy_str (project options) = true →
  buildDirectory JSON_parse globCb transform fuel options w
  = (let* '(_, options') :=
       with_options options (updateOptionsFromProject JSON_parse) in
     let* files := runGlob JSON_parse globCb options' in
     buildFiles transform files options') w.
Proof.
  intros H1 H2. unfold buildDirectory, discover. rewrite H1, H2.
  unfold bind.
  destruct (with_options _ (updateOptionsFromProject JSON_parse) w)
    as [[[[] o']| | |] w1]; try done.
  by destruct (runGlob JSON_parse globCb o' w1) as [[]].
Qed.

(** X1.  With [--project], giving any of an output directory, a
    transform list, a source directory or the legacy TypeScript interop
    flag makes [run] print one error and exit with status 1: nothing is
    read, created or built. *)
Theorem project_excludes_other_inputs fuel c w :
  JS.truthy_str (commander.project c) = true →
  JS.truthy_str (commander.outDir c) || JS.truthy_str (commander.transforms c)
  || JS.truthy_str (head (commander.args c))
  || JS.truthy_flag (commander.enableLegacyTypescriptModuleInterop c) = true →
  run JSON_parse globCb transform fuel c w
  = (Exit 1,
     log w [ConsoleError
              ("If TypeScript project is specified, out directory, transforms, source "
               +:+ "directory, and --enable-legacy-typescript-module-interop may not be specified.")]).
Proof.
  intros Hp Hany. unfold run, validate. rewrite Hp, Hany. reflexivity.
Qed.

(** X2.  Without [--project], [run] requires an output directory, a
    transform list and a source directory, and checks them in that order:
    it prints the error of the first one that is missing or empty and
    exits with status 1, with no other effect. *)
Theorem tree_mode_required_options fuel c w :
  JS.truthy_str (commander.project c) = false →
  JS.truthy_str (commander.outDir c) && JS.truthy_str (commander.transforms c)
  && JS.truthy_str (head (commander.args c)) = false →
  run JSON_parse globCb transform fuel c w
  = (Exit 1,
     log w [ConsoleError
              (if negb (JS.truthy_str (commander.outDir c))
               then "Out directory is required"
               else if negb (JS.truthy_str (commander.transforms c))
               then "Transforms option is required."
               else "Source directory is required.")]).
Proof.
  intros Hp Hmiss. unfold run, validate. rewrite Hp.
  destruct (JS.truthy_str (commander.outDir c)); [|reflexivity].
  destruct (JS.truthy_str (commander.transforms c)); [|reflexivity].
  destruct (JS.truthy_str (head (commander.args c))); [discriminate|reflexivity].
Qed.

(** X3.  A command line that passes the checks of [run] has no effect
    during the checks and always reaches one of the two discovery modes:
    without [--project] the options record holds a non-empty output
    directory, source directory and transform list and [buildDirectory]
    walks the tree; with [--project] the record holds neither directory
    and an empty transform list and [buildDirectory] resolves the
    project.  The configuration error of [buildDirectory] is out of reach
    from [run]. *)
Theorem validated_command_selects_a_mode fuel c w :
  fst (validate c w) = Ret tt →
  let options := options_of c in
  snd (validate c w) = w
  ∧ ((JS.truthy_str (commander.project c) = false
      ∧ (∃ out src,
           outDirPath options = Some out ∧ srcDirPath options = Some src
           ∧ Str.nonempty out = true ∧ Str.nonempty src = true)
      ∧ transforms (sucraseOptions options) ≠ []
      ∧ buildDirectory JSON_parse globCb transform fuel options w
        = (let* files := findFiles fuel options in
           buildFiles transform files options) w)
     ∨ (JS.truthy_str (commander.project c) = true
        ∧ JS.truthy_str (outDirPath options) = false
        ∧ JS.truthy_str (srcDirPath options) = false
        ∧ transforms (sucraseOptions options) = []
        ∧ buildDirectory JSON_parse globCb transform fuel options w
          = (let* '(_, options') :=
               with_options options (updateOptionsFromProject JSON_parse) in
             let* files := runGlob JSON_parse globCb options' in
             buildFiles transform files options') w)).
Proof.
  intros Hv. split; [by apply validate_Ret_world|].
  revert Hv. unfold validate.
  destruct (JS.truthy_str (commander.project c)) eqn:Hp.
  - destruct (JS.truthy_str (commander.outDir c)) eqn:Ho; [discriminate|].
    destruct (JS.truthy_str (commander.transforms c)) eqn:Ht; [discriminate|].
    destruct (JS.truthy_str (head (commander.args c))) eqn:Hs; [discriminate|].
    intros _. right.
    split; [done|]. split; [done|]. split; [done|].
    split.
    { simpl. unfold split_commas. destruct (commander.transforms c) as [s|]; [|done].
      simpl in Ht. by rewrite Ht. }
    apply buildDirectory_project; simpl; [by rewrite Ho|by rewrite Hp].
  - destruct (JS.truthy_str (commander.outDir c)) eqn:Ho; [|discriminate].
    destruct (JS.truthy_str (commander.transforms c)) eqn:Ht; [|discriminate].
    destruct (JS.truthy_str (head (commander.args c))) eqn:Hs; [|discriminate].
    intros _. left. split; [done|].
    destruct (truthy_str_Some _ Ho) as (out & Hout & Hno).
    destruct (truthy_str_Some _ Hs) as (src & Hsrc & Hns).
    split; [by exists out, src|].
    split.
    { simpl. unfold split_commas.
      destruct (truthy_str_Some _ Ht) as (t & -> & Hnt). rewrite Hnt.
      apply StrFacts.split_nonempty. }
    apply buildDirectory_tree. simpl. by rewrite Ho, Hs.
Qed.

(** X5.  In project mode, when the manifest cannot be read (it is
    missing, or [tsconfig.json] is a directory), [buildDirectory] reports
    it on standard error with the project directory and the error, and
    exits with status 1: the manifest is not parsed, nothing is created
    and nothing is built. *)
Theorem missing_manifest_exits fuel options w p e :
  JS.truthy_str (outDirPath options) && JS.truthy_str (srcDirPath options) = false →
  project options = Some p →
  JS.truthy_str (Some p) = true →
  Fs.readFile (cwd w) (fs w) (Path.join [p; "tsconfig.json"]) = inl e →
  buildDirectory JSON_parse globCb transform fuel options w
  = (Exit 1,
     log w [FsReadFile (Path.join [p; "tsconfig.json"]);
            ConsoleError "Could not find project tsconfig.json";
            ConsoleError ("  --project=" +:+ p);
            ConsoleErrorObj e]).
Proof.
  intros Hmode Hp Ht Hread.
  unfold buildDirectory. unfold bind at 1.
  rewrite discover_project_mode; [|done|by rewrite Hp].
  unfold bind at 1. unfold with_options, updateOptionsFromProject.
  unfold bind at 1. unfold get_options at 1. simpl. rewrite Hp.
  rewrite (bind_Ret _ _ _ _ _ (join_strings [p; "tsconfig.json"] _)).
  unfold bind at 1. unfold liftW. simpl.
  rewrite (read_tsconfig_missing _ _ _ _ Hread). simpl. by rewrite Hp.
Qed.

(** X6.  A manifest that is read but does not parse makes [JSON.parse]
    throw inside manifest resolution; [run] catches the error, sets the
    exit code to 1 and prints the error, and returns normally: the only
    file-system call is the one read of the manifest. *)
Theorem unparsable_manifest_is_reported fuel c w p str e :
  commander.project c = Some p →
  JS.truthy_str (Some p) = true →
  fst (validate c w) = Ret tt →
  Fs.readFile (cwd w) (fs w) (Path.join [p; "tsconfig.json"]) = inr str →
  JSON_parse str = inl e →
  run JSON_parse globCb transform fuel c w
  = (Ret tt,
     log w [FsReadFile (Path.join [p; "tsconfig.json"]); SetExitCode 1;
            ConsoleErrorObj e]).
Proof.
  intros Hp Ht Hv Hread Hparse.
  destruct (validate_project_accepts c w p Hp Ht Hv) as (Ho & _ & _ & _).
  unfold run. unfold bind at 1.
  destruct (validate c w) as [r w0] eqn:Hval. simpl in Hv. subst r.
  pose proof (validate_Ret_world c w) as Hw. rewrite Hval in Hw.
  simpl in Hw. specialize (Hw eq_refl). subst w0.
  unfold try_catch, buildDirectory. unfold bind at 1.
  rewrite discover_project_mode; [|by simpl; rewrite Ho|by simpl; rewrite Hp].
  unfold bind at 1. unfold with_options, updateOptionsFromProject.
  unfold bind at 1. unfold get_options at 1. simpl. rewrite Hp.
  rewrite (bind_Ret _ _ _ _ _ (join_strings [p; "tsconfig.json"] _)).
  unfold bind at 1. unfold liftW. simpl.
  rewrite (read_tsconfig_found _ _ _ _ Hread). simpl.
  unfold bind at 1. rewrite Hparse. simpl.
  unfold bind, emit, console_error_obj, emit, log. simpl.
  by rewrite <- !app_assoc.
Qed.

End CommandLine.

(** X4.  The comma-separated values of [--transforms] and
    [--exclude-dirs] are split back into the names they were joined
    from: a non-empty text made of names without commas yields exactly
    those names, in order. *)
Theorem comma_lists_round_trip c names :
  Str.concat "," names ≠ "" →
  Forall (λ n, Str.has_char "," n = false) names →
  (commander.transforms c = Some (Str.concat "," names) →
   transforms (sucraseOptions (options_of c)) = names)
  ∧ (commander.excludeDirs c = Some (Str.concat "," names) →
     excludeDirs (options_of c) = names).
Proof.
  intros Hne Hall.
  assert (Hnames : names ≠ []) by (by intros ->).
  assert (Hsplit : split_commas (Some (Str.concat "," names)) = names).
  { unfold split_commas.
    apply StrFacts.nonempty_true in Hne. rewrite Hne.
    by apply (split_concat_sep ","). }
  split; intros H; simpl; by rewrite H.
Qed.

Lemma project_excludes_other_inputs_witness :
  run Examples.JSON_parse Examples.globCb Examples.transform 3
    Scenarios.mixed_command (Examples.project_world "plain")
  = (Exit 1,
     log (Examples.project_world "plain")
       [ConsoleError
          ("If TypeScript project is specified, out directory, transforms, source "
           +:+ "directory, and --enable-legacy-typescript-module-interop may not be specified.")]).
Proof.
  apply (project_excludes_other_inputs Examples.JSON_parse Examples.globCb
           Examples.transform 3 Scenarios.mixed_command); reflexivity.
Defined.

Lemma tree_mode_required_options_witness :
  run Examples.JSON_parse Examples.globCb Examples.transform 3
    Scenarios.bare_command Examples.source_world
  = (Exit 1, log Examples.source_world [ConsoleError "Out directory is required"]).
Proof.
  apply (tree_mode_required_options Examples.JSON_parse Examples.globCb
           Examples.transform 3 Scenarios.bare_command); reflexivity.
Defined.

Lemma validated_command_selects_a_mode_witness :
  let c := Scenarios.tree_command in
  let w := Examples.source_world in
  let options := options_of c in
  snd (validate c w) = w
  ∧ ((JS.truthy_str (commander.project c) = false
      ∧ (∃ out src,
           outDirPath options = Some out ∧ srcDirPath options = Some src
           ∧ Str.nonempty out = true ∧ Str.nonempty src = true)
      ∧ transforms (sucraseOptions options) ≠ []
      ∧ buildDirectory Examples.JSON_parse Examples.globCb Examples.transform 3 options w
        = (let* files := findFiles 3 options in
           buildFiles Examples.transform files options) w)
     ∨ (JS.truthy_str (commander.project c) = true
        ∧ JS.truthy_str (outDirPath options) = false
        ∧ JS.truthy_str (srcDirPath options) = false
        ∧ transforms (sucraseOptions options) = []
        ∧ buildDirectory Examples.JSON_parse Examples.globCb Examples.transform 3 options w
          = (let* '(_, options') :=
               with_options options (updateOptionsFromProject Examples.JSON_parse) in
             let* files := runGlob Examples.JSON_parse Examples.globCb options' in
             buildFiles Examples.transform files options') w)).
Proof.
  apply (validated_command_selects_a_mode Examples.JSON_parse Examples.globCb
           Examples.transform 3 Scenarios.tree_command Examples.source_world).
  reflexivity.
Defined.

Lemma comma_lists_round_trip_witness :
  transforms (sucraseOptions (options_of Scenarios.list_command))
  = ["typescript"; "imports"]
  ∧ excludeDirs (options_of Scenarios.list_command) = ["dist"; "tmp"].
Proof.
  split.
  - apply (comma_lists_round_trip Scenarios.list_command ["typescript"; "imports"]);
      [done|by repeat constructor|reflexivity].
  - apply (comma_lists_round_trip Scenarios.list_command ["dist"; "tmp"]);
      [done|by repeat constructor|reflexivity].
Defined.

Lemma missing_manifest_exits_witness :
  let w := Examples.project_world "plain" in
  buildDirectory Examples.JSON_parse Examples.globCb Examples.transform 3
    Scenarios.orphan_options w
  = (Exit 1,
     log w [FsReadFile (Path.join ["nowhere"; "tsconfig.json"]);
            ConsoleError "Could not find project tsconfig.json";
            ConsoleError ("  --project=" +:+ "nowhere");
            ConsoleErrorObj (ENOENT "nowhere/tsconfig.json")]).
Proof.
  apply (missing_manifest_exits Examples.JSON_parse Examples.globCb Examples.transform 3
           Scenarios.orphan_options (Examples.project_world "plain") "nowhere");
    reflexivity.
Defined.

Lemma unparsable_manifest_is_reported_witness :
  let w := Examples.project_world "{ oops" in
  run Examples.JSON_parse Examples.globCb Examples.transform 3
    Examples.project_command w
  = (Ret tt,
     log w [FsReadFile (Path.join ["proj"; "tsconfig.json"]); SetExitCode 1;
            ConsoleErrorObj (SyntaxError "Unexpected token")]).
Proof.
  apply (unparsable_manifest_is_reported Examples.JSON_parse Examples.globCb
           Examples.transform 3 Examples.project_command
           (Examples.project_world "{ oops") "proj" "{ oops"); reflexivity.
Defined.

(** ** More on manifest resolution *)

Section ResolutionFrame.

Variable JSON_parse : string → Err + value.

Lemma applyManifest_imports json o w :
  fst (applyManifest json (o, w)) = Ret tt →
  transforms (sucraseOptions (fst (snd (applyManifest json (o, w)))))
  = transforms (sucraseOptions o)
    ++ (if includes (transforms (sucraseOptions o)) "typescript"
        then [] else ["typescript"])
    ++ (if JS.is_str (JS.prop (JS.prop json "compilerOptions") "module") "commonjs"
           && negb (includes (transforms (sucraseOptions o)) "imports")
        then ["imports"] else []).
Proof.
  assert (Hinc : ∀ l, includes (l ++ ["typescript"]) "imports" = includes l "imports").
  { intros l. unfold includes. apply bool_decide_ext.
    rewrite elem_of_app, list_elem_of_singleton. split; [|by left].
    intros [H|H]; [exact H|by inversion H]. }
  intros Hret. run_options.
  destruct (includes (transforms (sucraseOptions o)) "typescript") eqn:Hts;
    simpl in *;
    (destruct (JS.nullish json); simpl in *; [done|]);
    (destruct (JS.nullish (JS.prop json "compilerOptions")); simpl in *; [done|]);
    (destruct (JS.truthy (JS.prop (JS.prop json "compilerOptions") "outDir"));
     simpl in *;
     [destruct (JS.prop (JS.prop json "compilerOptions") "outDir");
      simpl in *; try done;
      destruct (project o); simpl in *; [|done]|]);
    (destruct (JS.is_true _); simpl in *);
    (destruct (JS.is_str _ _); simpl in *; rewrite ?app_nil_r; try done);
    rewrite ?Hinc in *;
    (destruct (includes (transforms (sucraseOptions o)) "imports"); simpl in *);
    rewrite <- ?app_assoc, ?app_nil_r; done.
Qed.

(** X7.  On a manifest that resolution completes on, the transform list
    afterwards is the input list, followed by [typescript] if the input
    did not hold it, followed by [imports] exactly when
    [compilerOptions.module] is the string [commonjs] and the input did
    not hold [imports]: no pass is removed, reordered or duplicated. *)
Theorem imports_pass_follows_module options w p str json :
  project options = Some p →
  Fs.readFile (cwd w) (fs w) (Path.join [p; "tsconfig.json"]) = inr str →
  JSON_parse str = inr json →
  JS.nullish (JS.prop json "compilerOptions") = false →
  (JS.truthy (JS.prop (JS.prop json "compilerOptions") "outDir") = false
   ∨ ∃ s, JS.prop (JS.prop json "compilerOptions") "outDir" = VStr s) →
  let res := updateOptionsFromProject JSON_parse (options, w) in
  let ts := transforms (sucraseOptions options) in
  fst res = Ret tt
  ∧ transforms (sucraseOptions (fst (snd res)))
    = ts ++ (if includes ts "typescript" then [] else ["typescript"])
         ++ (if JS.is_str (JS.prop (JS.prop json "compilerOptions") "module") "commonjs"
                && negb (includes ts "imports")
             then ["imports"] else []).
Proof.
  intros Hp Hread Hparse Hco Hout. simpl.
  rewrite (updateOptionsFromProject_parsed _ _ _ _ _ _ Hp Hread Hparse).
  assert (Hret : fst (applyManifest json
                        (options, mkWorld (cwd w) (fs w)
                           (trace w ++ [FsReadFile (Path.join [p; "tsconfig.json"])])))
                 = Ret tt).
  { apply applyManifest_completes; [done|done|]. by rewrite Hp. }
  split; [done|]. by apply applyManifest_imports.
Qed.

(** X8.  When [compilerOptions.outDir] is a non-empty string, resolution
    completes and sets the output directory to the join of the working
    directory, the project directory and that string, whatever the
    output directory was before; an [outDir] written as an absolute path
    is therefore placed under the project directory as well. *)
Theorem manifest_outDir_is_joined options w p str json s :
  project options = Some p →
  Fs.readFile (cwd w) (fs w) (Path.join [p; "tsconfig.json"]) = inr str →
  JSON_parse str = inr json →
  JS.prop (JS.prop json "compilerOptions") "outDir" = VStr s →
  Str.nonempty s = true →
  let res := updateOptionsFromProject JSON_parse (options, w) in
  fst res = Ret tt
  ∧ outDirPath (fst (snd res)) = Some (Path.join [cwd w; p; s]).
Proof.
  intros Hp Hread Hparse Hs Hne. simpl.
  rewrite (updateOptionsFromProject_parsed _ _ _ _ _ _ Hp Hread Hparse).
  assert (Hco : JS.nullish (JS.prop json "compilerOptions") = false).
  { destruct (JS.prop json "compilerOptions"); try done. }
  assert (Hj : JS.nullish json = false) by (by destruct json).
  run_options. rewrite Hj, Hco, Hs. simpl. rewrite Hne, Hp.
  split_cases; done.
Qed.

Lemma untouched_refl o : untouched o o.
Proof. by repeat split. Qed.

Lemma applyManifest_untouched json o w :
  untouched o (fst (snd (applyManifest json (o, w)))).
Proof. run_options. split_cases; by repeat split. Qed.

(** X9.  However manifest resolution ends (normally, with an exception
    or with [process.exit]), it assigns nothing but the output
    directory, the transform list and the legacy TypeScript interop
    flag: the project and source directories, the output extension, the
    excluded names, [quiet] and the other transform options are those of
    the input, and the file system and the working directory are
    unchanged. *)
Theorem resolution_frame options w :
  let res := updateOptionsFromProject JSON_parse (options, w) in
  untouched options (fst (snd res))
  ∧ cwd (snd (snd res)) = cwd w
  ∧ fs (snd (snd res)) = fs w.
Proof.
  simpl.
  destruct (updateOptionsFromProject JSON_parse (options, w)) as [r [o' w']] eqn:H.
  simpl. revert H. unfold updateOptionsFromProject.
  unfold bind at 1. unfold get_options at 1. simpl.
  destruct (project options) as [p|] eqn:Hp.
  2:{ unfold bind, join, path_args, path_arg, throw. simpl.
      intros [= <- <- <-]. split; [apply untouched_refl|done]. }
  rewrite (bind_Ret _ _ _ _ _ (join_strings [p; "tsconfig.json"] _)).
  unfold bind at 1. unfold liftW. simpl.
  destruct (Fs.readFile (cwd w) (fs w) (Path.join [p; "tsconfig.json"]))
    as [e|str] eqn:Hread.
  { rewrite (read_tsconfig_missing _ _ _ _ Hread).
    intros [= <- <- <-]. split; [apply untouched_refl|done]. }
  rewrite (read_tsconfig_found _ _ _ _ Hread).
  unfold bind at 1. destruct (JSON_parse str) as [e|json]; simpl.
  { intros [= <- <- <-]. split; [apply untouched_refl|done]. }
  intros H.
  pose proof (applyManifest_untouched json options
                (mkWorld (cwd w) (fs w)
                   (trace w ++ [FsReadFile (Path.join [p; "tsconfig.json"])]))) as Hu.
  pose proof (applyManifest_world json options
                (mkWorld (cwd w) (fs w)
                   (trace w ++ [FsReadFile (Path.join [p; "tsconfig.json"])]))) as Hw.
  rewrite H in Hu, Hw. simpl in Hu, Hw. subst w'. done.
Qed.

(** The frame of resolution, from a result: shared by the proofs
    below. *)
Lemma resolution_keeps_quiet options w o' w' :
  with_options options (updateOptionsFromProject JSON_parse) w = (Ret (tt, o'), w') →
  quiet o' = quiet options.
Proof.
  unfold with_options. intros Hu.
  destruct (updateOptionsFromProject JSON_parse (options, w)) as [r [o1 w1]] eqn:H.
  destruct r as [[]| | |]; try done. injection Hu as <- <-.
  revert H. unfold updateOptionsFromProject.
  unfold bind at 1. unfold get_options at 1. simpl.
  destruct (project options) as [p|] eqn:Hp.
  2:{ unfold bind, join, path_args, path_arg, throw. simpl. done. }
  rewrite (bind_Ret _ _ _ _ _ (join_strings [p; "tsconfig.json"] _)).
  unfold bind at 1. unfold liftW. simpl.
  destruct (Fs.readFile (cwd w) (fs w) (Path.join [p; "tsconfig.json"]))
    as [e|str] eqn:Hread.
  { by rewrite (read_tsconfig_missing _ _ _ _ Hread). }
  rewrite (read_tsconfig_found _ _ _ _ Hread).
  unfold bind at 1. destruct (JSON_parse str) as [e|json]; simpl; [done|].
  intros H.
  pose proof (applyManifest_untouched json options
                (mkWorld (cwd w) (fs w)
                   (trace w ++ [FsReadFile (Path.join [p; "tsconfig.json"])]))) as Hu.
  rewrite H in Hu. simpl in Hu. by destruct Hu as (_ & _ & _ & _ & Hq & _).
Qed.

End ResolutionFrame.

Lemma imports_pass_follows_module_witness :
  let options := Examples.project_options [] in
  let res := updateOptionsFromProject Scenarios.JSON_parse
               (options, Examples.project_world "commonjs") in
  fst res = Ret tt
  ∧ transforms (sucraseOptions (fst (snd res))) = ["typescript"; "imports"].
Proof.
  apply (imports_pass_follows_module Scenarios.JSON_parse (Examples.project_options [])
           (Examples.project_world "commonjs") "proj" "commonjs"
           Scenarios.manifest_commonjs); try reflexivity.
  right. by exists "out".
Defined.

Lemma manifest_outDir_is_joined_witness :
  let res := updateOptionsFromProject Examples.JSON_parse
               (Examples.project_options [], Examples.project_world "plain") in
  fst res = Ret tt ∧ outDirPath (fst (snd res)) = Some "/w/proj/out".
Proof.
  apply (manifest_outDir_is_joined Examples.JSON_parse (Examples.project_options [])
           (Examples.project_world "plain") "proj" "plain" Examples.manifest_plain "out");
    reflexivity.
Defined.

(** ** What discovery and the build loop leave alone *)

Lemma node_kept_refl W k n : node_kept W k n n.
Proof. destruct n; simpl; [done|]. exists []. by rewrite app_nil_r. Qed.

Lemma node_kept_trans W k n1 n2 n3 :
  node_kept W k n1 n2 → node_kept W k n2 n3 → node_kept W k n1 n3.
Proof.
  destruct n1, n2, n3; simpl; try done.
  - intros H1 H2 Hw. rewrite (H2 Hw). by apply H1.
  - intros [m1 ->] [m2 ->]. exists (m1 ++ m2). by rewrite app_assoc.
Qed.

Lemma fs_kept_refl W f : fs_kept W f f.
Proof.
  split; [|split; [done|]].
  - intros k n H. exists n. split; [done|apply node_kept_refl].
  - intros k Hk [n Hn]. congruence.
Qed.

Lemma fs_kept_dirs W f f' k l :
  fs_kept W f f' → f !! k = Some (Dir l) → ∃ more, f' !! k = Some (Dir (l ++ more)).
Proof.
  intros [H _] Hk. destruct (H _ _ Hk) as (n' & Hk' & Hn).
  destruct n' as [|l']; [done|]. destruct Hn as [more ->]. by exists more.
Qed.

Lemma fs_kept_trans W f1 f2 f3 :
  fs_kept W f1 f2 → fs_kept W f2 f3 → fs_kept W f1 f3.
Proof.
  intros (H1 & G1 & L1) (H2 & G2 & L2). split; [|split].
  - intros k n Hk.
    destruct (H1 k n Hk) as (n2 & Hk2 & Hn2).
    destruct (H2 k n2 Hk2) as (n3 & Hk3 & Hn3).
    exists n3. split; [done|]. by eapply node_kept_trans.
  - intros k c Hk Hw. apply G1; [|done]. by apply G2.
  - intros k Hk Hsome. destruct (f2 !! k) as [n2|] eqn:E2.
    + destruct (L1 k Hk) as (l & Hl & Hin); [by rewrite E2|].
      destruct (fs_kept_dirs W f2 f3 _ _ (conj H2 (conj G2 L2)) Hl) as (more & Hm).
      exists (l ++ more). split; [done|]. apply elem_of_app. by left.
    + by apply L2.
Qed.

Lemma fs_kept_files f f' k c :
  fs_kept (λ _, False) f f' → (f' !! k = Some (File c) ↔ f !! k = Some (File c)).
Proof.
  intros (H & G & _). split.
  - intros Hk. apply G; [done|]. by intros [].
  - intros Hk. destruct (H _ _ Hk) as (n' & Hk' & Hn).
    destruct n' as [c'|]; [|done]. simpl in Hn. rewrite Hk'. f_equal. f_equal.
    apply Hn. by intros [].
Qed.

Lemma evolves_refl allowed W w : evolves allowed W w w.
Proof.
  split; [done|]. split; [|apply fs_kept_refl].
  exists []. by rewrite app_nil_r.
Qed.

Lemma evolves_trans allowed W w1 w2 w3 :
  evolves allowed W w1 w2 → evolves allowed W w2 w3 → evolves allowed W w1 w3.
Proof.
  intros (Hc1 & (n1 & Ht1 & Ha1) & Hf1) (Hc2 & (n2 & Ht2 & Ha2) & Hf2).
  split; [congruence|]. split; [|by eapply fs_kept_trans].
  exists (n1 ++ n2). split; [by rewrite Ht2, Ht1, app_assoc|].
  by apply Forall_app.
Qed.

Lemma evolves_log allowed W w events :
  Forall (λ e, allowed e = true) events → evolves allowed W w (log w events).
Proof.
  intros H. split; [done|]. split; [by exists events|apply fs_kept_refl].
Qed.

Section Keeps.

Context {S : Type} (R : S → S → Prop) (E : Z → Prop).
Hypothesis R_refl : ∀ s, R s s.
Hypothesis R_trans : ∀ s1 s2 s3, R s1 s2 → R s2 s3 → R s1 s3.

Lemma keeps_ret {A} (a : A) : keeps R E (ret a).
Proof. intros s r s' [= <- <-]. split; [apply R_refl|done]. Qed.

Lemma keeps_throw {A} e : keeps R E (throw e : M S A).
Proof. intros s r s' [= <- <-]. split; [apply R_refl|done]. Qed.

Lemma keeps_out_of_fuel {A} : keeps R E (out_of_fuel : M S A).
Proof. intros s r s' [= <- <-]. split; [apply R_refl|done]. Qed.

Lemma keeps_lift_result {A} (x : Err + A) : keeps R E (lift_result x).
Proof. destruct x; [apply keeps_throw|apply keeps_ret]. Qed.

Lemma keeps_bind {A B} (m : M S A) (k : A → M S B) :
  keeps R E m → (∀ a, keeps R E (k a)) → keeps R E (bind m k).
Proof.
  intros Hm Hk s r s' H.
  apply bind_inv in H as [(a & s1 & H1 & H2)|[_ Hab]].
  - destruct (Hm _ _ _ H1) as [HR1 _]. destruct (Hk a _ _ _ H2) as [HR2 HE].
    split; [by eapply R_trans|done].
  - destruct Hab as [(e & H1 & ->)|[(c & H1 & ->)|[H1 ->]]];
      destruct (Hm _ _ _ H1) as [HR HE]; (split; [done|]); try done.
    intros c0 [= <-]. by apply HE.
Qed.

Lemma keeps_path_arg p : keeps R E (path_arg p : M S string).
Proof. destruct p; [apply keeps_ret|apply keeps_throw]. Qed.

Lemma keeps_path_args l : keeps R E (path_args l : M S (list string)).
Proof.
  induction l as [|a l IH]; [apply keeps_ret|]. simpl.
  apply keeps_bind; [apply keeps_path_arg|]. intros s.
  apply keeps_bind; [done|]. intros l'. apply keeps_ret.
Qed.

Lemma keeps_join l : keeps R E (join l : M S string).
Proof.
  unfold join. apply keeps_bind; [apply keeps_path_args|]. intros. apply keeps_ret.
Qed.

End Keeps.

(** The steps of the file system. *)

Lemma create_kept (W : string → Prop) (f f' : gmap string node) k p n :
  Fs.create f k p n = inr f' → f !! k = None →
  (∀ c, n = File c → W k) → fs_kept W f f'.
Proof.
  unfold Fs.create. intros H Hk Hn.
  destruct (f !! Path.dirname k) as [[c|entries]|] eqn:Hd; try done.
  injection H as <-. split; [|split].
  - intros q n0 Hq.
    assert (q ≠ k) by (intros ->; congruence).
    rewrite lookup_insert_ne; [|done].
    destruct (decide (q = Path.dirname k)) as [->|Hne].
    + rewrite lookup_insert_eq. rewrite Hd in Hq. injection Hq as <-.
      eexists. split; [done|]. simpl. by eexists.
    + rewrite lookup_insert_ne; [|done]. exists n0. split; [done|apply node_kept_refl].
  - intros q c Hq Hw.
    destruct (decide (q = k)) as [->|Hqk].
    + rewrite lookup_insert_eq in Hq. injection Hq as ->. destruct Hw. by apply (Hn c).
    + rewrite lookup_insert_ne in Hq; [|done].
      destruct (decide (q = Path.dirname k)) as [->|Hne].
      * by rewrite lookup_insert_eq in Hq.
      * by rewrite lookup_insert_ne in Hq.
  - intros q Hq Hsome.
    assert (Hdk : Path.dirname k ≠ k) by (intros Heq; rewrite Heq in Hd; congruence).
    destruct (decide (q = k)) as [->|Hqk].
    + exists (entries ++ [Path.basename k]). split.
      * rewrite lookup_insert_ne; [|done]. by rewrite lookup_insert_eq.
      * apply elem_of_app. right. apply list_elem_of_here.
    + rewrite lookup_insert_ne in Hsome; [|done].
      destruct (decide (q = Path.dirname k)) as [->|Hne]; [congruence|].
      rewrite lookup_insert_ne in Hsome; [|done].
      destruct Hsome as [n0 Hn0]. congruence.
Qed.

Lemma mkdir_kept W dir (f f' : gmap string node) p :
  Fs.mkdir dir f p = inr f' → fs_kept W f f'.
Proof.
  unfold Fs.mkdir. destruct (negb (Str.nonempty p)); [done|].
  destruct (f !! Fs.key dir p) eqn:Hk; [done|].
  intros H. by eapply create_kept.
Qed.

Lemma writeFile_kept (W : string → Prop) dir (f f' : gmap string node) p c :
  Fs.writeFile dir f p c = inr f' → W (Fs.key dir p) → fs_kept W f f'.
Proof.
  unfold Fs.writeFile. destruct (negb (Str.nonempty p)); [done|].
  destruct (f !! Fs.key dir p) as [[c0|l]|] eqn:Hk; [| done |].
  - intros [= <-] HW. split; [|split].
    + intros q n0 Hq.
      destruct (decide (q = Fs.key dir p)) as [->|Hne].
      * rewrite lookup_insert_eq. rewrite Hk in Hq. injection Hq as <-.
        eexists. split; [done|]. simpl. intros Hn. by destruct Hn.
      * rewrite lookup_insert_ne; [|done]. exists n0. split; [done|apply node_kept_refl].
    + intros q c1 Hq Hw.
      destruct (decide (q = Fs.key dir p)) as [->|Hne]; [by destruct Hw|].
      by rewrite lookup_insert_ne in Hq.
    + intros q Hq [n0 Hn0].
      destruct (decide (q = Fs.key dir p)) as [->|Hne]; [congruence|].
      rewrite lookup_insert_ne in Hn0; [|done]. congruence.
  - intros H HW. eapply create_kept; [exact H|done|done].
Qed.

Lemma writeFile_keeps_content dir (f f' : gmap string node) p c q c0 :
  Fs.writeFile dir f p c = inr f' → q ≠ Fs.key dir p →
  (f' !! q = Some (File c0) ↔ f !! q = Some (File c0)).
Proof.
  intros Hw Hq.
  pose proof (writeFile_kept (λ k, k = Fs.key dir p) _ _ _ _ _ Hw eq_refl)
    as (Hkeep & Hnew & _).
  split.
  - intros H. by apply Hnew.
  - intros H. destruct (Hkeep _ _ H) as (n' & Hn' & Hn).
    destruct n' as [c'|]; [|done]. simpl in Hn. by rewrite Hn', (Hn Hq).
Qed.

Lemma readFile_inr dir (f : gmap string node) p c :
  Fs.readFile dir f p = inr c
  ↔ Str.nonempty p = true ∧ f !! Fs.key dir p = Some (File c).
Proof.
  unfold Fs.readFile. destruct (Str.nonempty p); simpl; [|by split; [|intros []]].
  destruct (f !! Fs.key dir p) as [[c0|l]|]; split; try done.
  - by intros [= ->].
  - by intros [_ [= ->]].
  - by intros [_ ?].
  - by intros [_ ?].
Qed.

(** Discovery, function by function. *)

Section DiscoveryFrame.

Variable globCb : gmap string node → string → Err + list string.
Variable E : Z → Prop.

Lemma discovers_refl w : discovers w w.
Proof. apply evolves_refl. Qed.

Lemma discovers_trans w1 w2 w3 : discovers w1 w2 → discovers w2 w3 → discovers w1 w3.
Proof. apply evolves_trans. Qed.

Lemma discovers_log w events :
  Forall (λ e, discovery_event e = true) events → discovers w (log w events).
Proof. apply evolves_log. Qed.

Lemma K_bind {A B} (m : M World A) (k : A → M World B) :
  keeps discovers E m → (∀ a, keeps discovers E (k a)) → keeps discovers E (bind m k).
Proof. apply keeps_bind, discovers_trans. Qed.

Lemma K_ret {A} (a : A) : keeps discovers E (ret a).
Proof. apply keeps_ret, discovers_refl. Qed.

Lemma K_lift_result {A} (x : Err + A) : keeps discovers E (lift_result x).
Proof. apply keeps_lift_result, discovers_refl. Qed.

Lemma K_join l : keeps discovers E (join l).
Proof. apply keeps_join; [apply discovers_refl|apply discovers_trans]. Qed.

Lemma K_emit e : discovery_event e = true → keeps discovers E (emit e).
Proof.
  intros He w r w' [= <- <-]. split; [|done].
  apply (discovers_log w [e]). by constructor.
Qed.

Lemma K_get_fs : keeps discovers E get_fs.
Proof. intros w r w' [= <- <-]. split; [apply discovers_refl|done]. Qed.

Lemma K_process_cwd : keeps discovers E process_cwd.
Proof. intros w r w' [= <- <-]. split; [apply discovers_refl|done]. Qed.

Lemma K_exists p : keeps discovers E (exists_ p).
Proof.
  destruct p as [p|].
  - intros w r w'. rewrite exists_unfold. intros [= <- <-]. split; [|done].
    apply discovers_log. by constructor.
  - intros w r w' [= <- <-]. split; [apply discovers_refl|done].
Qed.

Lemma K_mkdir p : keeps discovers E (mkdir p).
Proof.
  destruct p as [p|].
  - intros w r w'. rewrite mkdir_unfold.
    destruct (Fs.mkdir (cwd w) (fs w) p) as [e|f'] eqn:Hm; intros [= <- <-];
      (split; [|done]).
    + apply discovers_log. by constructor.
    + split; [done|]. split; [exists [FsMkdir p]; split; [done|by constructor]|].
      by eapply mkdir_kept.
  - intros w r w' [= <- <-]. split; [apply discovers_refl|done].
Qed.

Lemma K_readdir p : keeps discovers E (readdir p).
Proof.
  destruct p as [p|].
  - intros w r w'. rewrite readdir_unfold.
    destruct (Fs.readdir (cwd w) (fs w) p); intros [= <- <-]; (split; [|done]);
      apply discovers_log; by constructor.
  - intros w r w' [= <- <-]. split; [apply discovers_refl|done].
Qed.

Lemma K_stat p : keeps discovers E (stat_isDirectory p).
Proof.
  intros w r w'. rewrite stat_isDirectory_unfold.
  destruct (Fs.isDirectory (cwd w) (fs w) p); intros [= <- <-]; (split; [|done]);
    apply discovers_log; by constructor.
Qed.

Lemma K_glob p : keeps discovers E (glob globCb p).
Proof.
  unfold glob.
  apply K_bind; [by apply K_emit|]. intros _.
  apply K_bind; [apply K_get_fs|]. intros f. apply K_lift_result.
Qed.

Lemma K_relative a b : keeps discovers E (relative a b).
Proof.
  unfold relative. apply K_bind; [apply K_process_cwd|]. intros. apply K_ret.
Qed.

Lemma K_findFiles_children rec options exts children :
  (∀ o, keeps discovers E (rec o)) →
  ∀ outArr, keeps discovers E (findFiles_children rec options exts children outArr).
Proof.
  intros Hrec. induction children as [|child rest IH]; intros outArr.
  { apply K_ret. }
  simpl. destruct (_ || _); [apply IH|].
  apply K_bind; [apply K_join|]. intros s.
  apply K_bind; [apply K_join|]. intros o.
  apply K_bind; [apply K_stat|]. intros [|].
  - apply K_bind; [apply Hrec|]. intros inner. apply IH.
  - destruct (existsb _ _); apply IH.
Qed.

Lemma K_findFiles fuel : ∀ options, keeps discovers E (findFiles fuel options).
Proof.
  induction fuel as [|fuel IH]; intros options.
  { apply keeps_out_of_fuel, discovers_refl. }
  simpl.
  apply K_bind; [apply K_exists|]. intros present.
  apply K_bind; [destruct (negb present); [apply K_mkdir|apply K_ret]|]. intros _.
  apply K_bind; [apply K_readdir|]. intros children.
  by apply K_findFiles_children.
Qed.

Lemma K_runGlob_files options absProject items :
  ∀ ff od, keeps discovers E (runGlob_files options absProject items ff od).
Proof.
  induction items as [|file rest IH]; intros ff od; [apply K_ret|].
  simpl.
  apply K_bind; [apply K_lift_result|]. intros [|]; [apply IH|].
  apply K_bind; [apply K_lift_result|]. intros isTs.
  apply K_bind; [apply K_lift_result|]. intros isJs.
  destruct (_ && _); [apply IH|].
  apply K_bind; [apply K_lift_result|]. intros name.
  apply K_bind; [apply K_join|]. intros srcFile.
  apply K_bind; [apply K_join|]. intros outFile. apply IH.
Qed.

Lemma K_runGlob_matches options absProject files :
  ∀ ff od, keeps discovers E (runGlob_matches options absProject files ff od).
Proof.
  induction files as [|file rest IH]; intros ff od; [apply K_ret|].
  simpl.
  destruct (_ && _); [apply IH|]. destruct (Str.endsWith file ".d.ts"); [apply IH|].
  apply K_bind; [apply K_relative|]. intros rel.
  apply K_bind; [apply K_join|]. intros outFile. apply IH.
Qed.

Lemma K_runGlob_include options absProject patterns :
  ∀ ff od,
    keeps discovers E (runGlob_include globCb options absProject patterns ff od).
Proof.
  induction patterns as [|pattern rest IH]; intros ff od; [apply K_ret|].
  simpl.
  apply K_bind; [apply K_lift_result|]. intros pat.
  apply K_bind; [apply K_join|]. intros full.
  apply K_bind; [apply K_glob|]. intros globFiles.
  apply K_bind; [apply K_runGlob_matches|]. intros [ff' od']. apply IH.
Qed.

Lemma K_make_outDirs dirs : keeps discovers E (make_outDirs dirs).
Proof.
  induction dirs as [|d rest IH]; [apply K_ret|]. simpl.
  apply K_bind; [apply K_exists|]. intros present.
  apply K_bind; [destruct (negb present); [apply K_mkdir|apply K_ret]|]. by intros _.
Qed.

Lemma K_expandManifest options json :
  keeps discovers E (expandManifest globCb options json).
Proof.
  unfold expandManifest.
  apply K_bind; [apply K_lift_result|]. intros files.
  apply K_bind; [apply K_lift_result|]. intros include.
  apply K_bind; [apply K_process_cwd|]. intros dir.
  apply K_bind; [apply K_join|]. intros absProject.
  apply K_bind; [apply K_exists|]. intros present.
  apply K_bind; [destruct (negb present); [apply K_mkdir|apply K_ret]|]. intros _.
  apply K_bind.
  { destruct (JS.truthy files); [|apply K_ret].
    apply K_bind; [apply K_lift_result|]. intros items. apply K_runGlob_files. }
  intros [ff od].
  apply K_bind.
  { destruct (JS.truthy include); [|apply K_ret].
    apply K_bind; [apply K_lift_result|]. intros items. apply K_runGlob_include. }
  intros [ff' od'].
  apply K_bind; [apply K_make_outDirs|]. intros _. apply K_ret.
Qed.

End DiscoveryFrame.

Lemma applyManifest_no_exit json o w c : fst (applyManifest json (o, w)) ≠ Exit c.
Proof. run_options. split_cases; done. Qed.

Section ModeFrame.

Variable JSON_parse : string → Err + value.
Variable globCb : gmap string node → string → Err + list string.

Lemma K_read_tsconfig options p : keeps discovers exit_one (read_tsconfig options p).
Proof.
  intros w r w'. destruct (Fs.readFile (cwd w) (fs w) p) as [e|str] eqn:Hread.
  - rewrite (read_tsconfig_missing _ _ _ _ Hread). intros [= <- <-].
    split; [|by intros c [= <-]].
    apply (discovers_log w [_; _; _; _]). by repeat constructor.
  - rewrite (read_tsconfig_found _ _ _ _ Hread). intros [= <- <-].
    split; [|done]. apply (discovers_log w [_]). by repeat constructor.
Qed.

Lemma K_runGlob options : keeps discovers exit_one (runGlob JSON_parse globCb options).
Proof.
  unfold runGlob.
  apply K_bind; [apply K_join|]. intros p.
  apply K_bind; [apply K_read_tsconfig|]. intros str.
  apply K_bind; [apply K_lift_result|]. intros json. apply K_expandManifest.
Qed.

Lemma K_updateOptionsFromProject options :
  keeps discovers exit_one (with_options options (updateOptionsFromProject JSON_parse)).
Proof.
  intros w r w'. unfold with_options, updateOptionsFromProject.
  unfold bind at 1. unfold get_options at 1. simpl.
  destruct (project options) as [p|] eqn:Hp.
  2:{ unfold bind, join, path_args, path_arg, throw. simpl.
      intros [= <- <-]. split; [apply discovers_refl|done]. }
  rewrite (bind_Ret _ _ _ _ _ (join_strings [p; "tsconfig.json"] _)).
  unfold bind at 1. unfold liftW. simpl.
  destruct (Fs.readFile (cwd w) (fs w) (Path.join [p; "tsconfig.json"]))
    as [e|str] eqn:Hread.
  { rewrite (read_tsconfig_missing _ _ _ _ Hread).
    intros [= <- <-]. split; [|by intros c [= <-]].
    apply (discovers_log w [_; _; _; _]). by repeat constructor. }
  rewrite (read_tsconfig_found _ _ _ _ Hread).
  unfold bind at 1. destruct (JSON_parse str) as [e|json]; simpl.
  { intros [= <- <-]. split; [|done].
    apply (discovers_log w [_]). by repeat constructor. }
  set (w1 := mkWorld _ _ _).
  pose proof (applyManifest_world json options w1) as Hw.
  pose proof (applyManifest_no_exit json options w1) as Hne.
  destruct (applyManifest json (options, w1)) as [r1 [o1 w2]]. simpl in Hw, Hne.
  subst w2.
  assert (Hd : discovers w w1) by (apply (discovers_log w [_]); by repeat constructor).
  destruct r1 as [[]|e|c|]; intros [= <- <-]; (split; [done|]); try done.
  by destruct (Hne c).
Qed.

Lemma K_discover fuel options :
  keeps discovers exit_one (discover JSON_parse globCb fuel options).
Proof.
  unfold discover.
  destruct (_ && _).
  { apply K_bind; [apply K_findFiles|]. intros. apply K_ret. }
  destruct (JS.truthy_str (project options)).
  - apply K_bind; [apply K_updateOptionsFromProject|]. intros [[] o'].
    apply K_bind; [apply K_runGlob|]. intros. apply K_ret.
  - apply K_bind; [by apply K_emit|]. intros _.
    intros w r w' [= <- <-]. split; [apply discovers_refl|by intros c [= <-]].
Qed.

Lemma discover_quiet fuel options w files options' w' :
  discover JSON_parse globCb fuel options w = (Ret (files, options'), w') →
  quiet options' = quiet options.
Proof.
  unfold discover. destruct (_ && _).
  { intros H. apply bind_Ret_inv in H as (fl & w1 & _ & [= _ <- _]). done. }
  destruct (JS.truthy_str (project options)); [|done].
  intros H. apply bind_Ret_inv in H as ([[] o'] & w1 & Hu & H).
  apply bind_Ret_inv in H as (fl & w2 & _ & [= _ <- _]).
  by eapply resolution_keeps_quiet.
Qed.

(** X10.  Discovery, in either mode and however it ends, only adds
    directories: the working directory is unchanged, no file is written
    and no transform is run, the files afterwards are exactly the files
    before with the same contents, every directory is still there and
    has only gained entries, and if discovery ends with [process.exit]
    the status is 1. *)
Theorem discovery_only_adds_directories fuel options w :
  let res := discover JSON_parse globCb fuel options w in
  cwd (snd res) = cwd w
  ∧ (∃ new, trace (snd res) = trace w ++ new
            ∧ Forall (λ e, discovery_event e = true) new)
  ∧ (∀ k c, fs (snd res) !! k = Some (File c) ↔ fs w !! k = Some (File c))
  ∧ (∀ k l, fs w !! k = Some (Dir l) →
        ∃ more, fs (snd res) !! k = Some (Dir (l ++ more)))
  ∧ (∀ code, fst res = Exit code → code = 1%Z).
Proof.
  simpl. destruct (discover JSON_parse globCb fuel options w) as [r w'] eqn:H.
  destruct (K_discover fuel options _ _ _ H) as [(Hc & Ht & Hf) HE].
  simpl. split; [done|]. split; [done|].
  split; [intros k c; by apply fs_kept_files|].
  split; [intros k l Hk; eapply fs_kept_dirs; [exact Hf|exact Hk]|]. exact HE.
Qed.

End ModeFrame.

(** The build loop. *)

Lemma builds_refl options files w : builds options files w w.
Proof. apply evolves_refl. Qed.

Lemma builds_trans options files w1 w2 w3 :
  builds options files w1 w2 → builds options files w2 w3 → builds options files w1 w3.
Proof.
  unfold builds. intros H1 H2. destruct H1 as (Hc & H1). rewrite Hc in H2.
  eapply evolves_trans; [|exact H2]. by split.
Qed.

Lemma announce_build_events options file :
  Forall (λ e, build_event options e = true) (announce options file).
Proof.
  unfold announce. destruct (negb (JS.truthy_flag (quiet options))) eqn:Hq; [|done].
  constructor; [|done]. done.
Qed.

Section BuildFrame.

Variable transform : string → Options → string → Err + string.
Variable options : CLIOptions.

Lemma K_buildFile files file :
  file ∈ files →
  keeps (builds options files) no_exit
    (buildFile transform (srcPath file) (outPath file) options).
Proof.
  intros Hin w r w'. rewrite buildFile_unfold.
  pose proof (announce_build_events options file) as Ha.
  destruct (Fs.readFile (cwd w) (fs w) (srcPath file)) as [e|code].
  { intros [= <- <-]. split; [|done]. apply evolves_log.
    apply Forall_app. split; [done|by repeat constructor]. }
  destruct (transform code (sucraseOptions options) (srcPath file)) as [e|js].
  { intros [= <- <-]. split; [|done]. apply evolves_log.
    apply Forall_app. split; [done|by repeat constructor]. }
  assert (Hev : Forall (λ e, build_event options e = true)
                  (build_events options file js)).
  { apply Forall_app. split; [done|by repeat constructor]. }
  destruct (Fs.writeFile (cwd w) (fs w) (outPath file) js) as [e|fs'] eqn:Hw.
  { intros [= <- <-]. split; [|done]. by apply evolves_log. }
  intros [= <- <-]. split; [|done].
  split; [done|]. split; [by eexists|].
  eapply writeFile_kept; [exact Hw|]. by exists file.
Qed.

Lemma K_buildFiles files l :
  (∀ f, f ∈ l → f ∈ files) →
  keeps (builds options files) no_exit (buildFiles transform l options).
Proof.
  induction l as [|file rest IH]; intros Hsub.
  { apply keeps_ret, builds_refl. }
  simpl. apply keeps_bind; [apply builds_trans| |].
  - apply K_buildFile, Hsub, list_elem_of_here.
  - intros _. apply IH. intros f Hf. by apply Hsub, list_elem_of_further.
Qed.

(** X11.  The build loop, however it ends, writes to output paths only:
    at every location that is not the output path of a pair, the files
    afterwards are exactly the files before with the same contents; no
    file is removed or turned into a directory, every directory is still
    there and has only gained entries, the working directory is unchanged
    and the loop never ends with [process.exit]. *)
Theorem build_writes_only_outputs files w :
  let res := buildFiles transform files options w in
  (∀ code, fst res ≠ Exit code)
  ∧ cwd (snd res) = cwd w
  ∧ (∀ k c, (∀ f, f ∈ files → k ≠ Fs.key (cwd w) (outPath f)) →
       (fs (snd res) !! k = Some (File c) ↔ fs w !! k = Some (File c)))
  ∧ (∀ k c, fs w !! k = Some (File c) → ∃ c', fs (snd res) !! k = Some (File c'))
  ∧ (∀ k l, fs w !! k = Some (Dir l) →
        ∃ more, fs (snd res) !! k = Some (Dir (l ++ more))).
Proof.
  simpl. destruct (buildFiles transform files options w) as [r w'] eqn:H.
  destruct (K_buildFiles files files (λ _ Hf, Hf) _ _ _ H) as [(Hc & Ht & Hf) HE].
  simpl. split; [intros code ->; by apply (HE code)|]. split; [done|].
  split.
  { intros k c Hk. destruct Hf as (Hkeep & Hnew & _).
    assert (Hnw : ¬ output_key (cwd w) files k).
    { intros (f & Hin & ->). by apply (Hk f). }
    split; [intros Hl; by apply Hnew|].
    intros Hl. destruct (Hkeep _ _ Hl) as (n' & Hk' & Hn).
    destruct n' as [c'|]; [|done]. simpl in Hn. by rewrite Hk', (Hn Hnw). }
  split.
  { intros k c Hl. destruct Hf as [Hkeep _].
    destruct (Hkeep _ _ Hl) as (n' & Hk' & Hn).
    destruct n' as [c'|]; [|done]. by exists c'. }
  intros k l Hk. eapply fs_kept_dirs; [exact Hf|exact Hk].
Qed.

Lemma Built_frame files jss w w' k c :
  Built transform options files jss w w' →
  (∀ f, f ∈ files → k ≠ Fs.key (cwd w) (outPath f)) →
  fs w !! k = Some (File c) → fs w' !! k = Some (File c).
Proof.
  induction 1 as [w|file rest code js jss fs' w w' Hread Htr Hwrite Hrest IH];
    intros Hk Hl; [done|].
  apply IH; simpl.
  - intros f Hf. apply Hk. by apply list_elem_of_further.
  - apply (writeFile_keeps_content _ _ _ _ _ _ _ Hwrite); [|done].
    apply Hk, list_elem_of_here.
Qed.

(** X12.  When the build loop completes on pairs whose output paths are
    pairwise distinct locations and none of which is the source of a
    pair, every pair's output file holds, at the end, the transform of
    the content its source file had at the start. *)
Theorem completed_build_outputs files w w' :
  buildFiles transform files options w = (Ret tt, w') →
  NoDup (map (λ f, Fs.key (cwd w) (outPath f)) files) →
  (∀ f g, f ∈ files → g ∈ files →
     Fs.key (cwd w) (srcPath f) ≠ Fs.key (cwd w) (outPath g)) →
  ∀ f, f ∈ files →
    ∃ code js,
      Fs.readFile (cwd w) (fs w) (srcPath f) = inr code
      ∧ transform code (sucraseOptions options) (srcPath f) = inr js
      ∧ file_at w' (outPath f) = Some js.
Proof.
  intros Hrun. apply buildFiles_Ret_Built in Hrun as [jss HB].
  induction HB as [w|file rest code js jss fs' w w' Hread Htr Hwrite Hrest IH];
    intros Hnd Hdisj f Hin.
  { by apply elem_of_nil in Hin. }
  simpl in Hnd. apply NoDup_cons in Hnd as [Hfresh Hnd]. simpl in IH.
  assert (Hcwd : cwd w' = cwd w) by (by apply Built_cwd in Hrest).
  apply elem_of_cons in Hin as [->|Hin].
  - exists code, js. split; [done|]. split; [done|].
    unfold file_at. rewrite Hcwd.
    rewrite (Built_frame _ _ _ _ (Fs.key (cwd w) (outPath file)) js Hrest); [done| |].
    + simpl. intros g Hg Heq. apply Hfresh. rewrite Heq.
      apply (list_elem_of_fmap_2 (λ f, Fs.key (cwd w) (outPath f))). done.
    + simpl. by eapply FsFacts.writeFile_lookup_same.
  - destruct (IH Hnd) with (f := f) as (code' & js' & Hr' & Ht' & Hf'); [|done|].
    { intros f0 g Hf0 Hg. apply Hdisj; by apply list_elem_of_further. }
    exists code', js'. split; [|done].
    apply readFile_inr in Hr' as [Hne Hl]. apply readFile_inr. split; [done|].
    apply (writeFile_keeps_content _ _ _ _ _ _ _ Hwrite); [|done].
    apply Hdisj; [by apply list_elem_of_further|apply list_elem_of_here].
Qed.

End BuildFrame.

Lemma completed_build_outputs_witness :
  let w := Scenarios.flat_world in
  let w' := snd (buildFiles Examples.transform Scenarios.flat_pairs
                   Examples.explicit_options w) in
  ∃ code js,
    Fs.readFile (cwd w) (fs w) "/c.ts" = inr code
    ∧ Examples.transform code (sucraseOptions Examples.explicit_options) "/c.ts" = inr js
    ∧ file_at w' "/out/c.js" = Some js.
Proof.
  refine (completed_build_outputs Examples.transform Examples.explicit_options
            Scenarios.flat_pairs Scenarios.flat_world
            (snd (buildFiles Examples.transform Scenarios.flat_pairs
                    Examples.explicit_options Scenarios.flat_world))
            _ _ _ (mkFileInfo "/c.ts" "/out/c.js") _).
  - vm_compute. reflexivity.
  - apply (bool_decide_unpack _). by vm_compute.
  - intros f g Hf Hg.
    apply elem_of_cons in Hf as [->|Hf]; [|apply list_elem_of_singleton in Hf as ->];
      (apply elem_of_cons in Hg as [->|Hg]; [|apply list_elem_of_singleton in Hg as ->]);
      vm_compute; discriminate.
  - apply list_elem_of_further, list_elem_of_here.
Defined.

(** ** What [run] prints and how it ends *)

Lemma prints_nothing_refl w : prints_nothing w w.
Proof. exists []. by rewrite app_nil_r. Qed.

Lemma prints_nothing_trans w1 w2 w3 :
  prints_nothing w1 w2 → prints_nothing w2 w3 → prints_nothing w1 w3.
Proof.
  intros (n1 & H1 & A1) (n2 & H2 & A2). exists (n1 ++ n2).
  split; [by rewrite H2, H1, app_assoc|by apply Forall_app].
Qed.

Lemma discovers_prints_nothing w w' : discovers w w' → prints_nothing w w'.
Proof.
  intros (_ & (new & Ht & Hall) & _). exists new. split; [done|].
  eapply Forall_impl; [exact Hall|]. by intros [].
Qed.

Lemma builds_prints_nothing options files w w' :
  JS.truthy_flag (quiet options) = true →
  builds options files w w' → prints_nothing w w'.
Proof.
  intros Hq (_ & (new & Ht & Hall) & _). exists new. split; [done|].
  eapply Forall_impl; [exact Hall|]. intros [] ; simpl; try done. by rewrite Hq.
Qed.

Lemma validate_prints_nothing c w : prints_nothing w (snd (validate c w)).
Proof.
  assert (Hf : ∀ msg w0, prints_nothing w0 (snd (fail_with msg w0))).
  { intros msg w0. exists [ConsoleError msg]. split; [done|by repeat constructor]. }
  unfold validate.
  destruct (JS.truthy_str (commander.project c)).
  - destruct (_ || _); [apply Hf|apply prints_nothing_refl].
  - destruct (JS.truthy_str (commander.outDir c)); [|apply Hf].
    destruct (JS.truthy_str (commander.transforms c)); [|apply Hf].
    destruct (JS.truthy_str (head (commander.args c)));
      [apply prints_nothing_refl|apply Hf].
Qed.

Section Endings.

Variable JSON_parse : string → Err + value.
Variable globCb : gmap string node → string → Err + list string.
Variable transform : string → Options → string → Err + string.

Lemma buildDirectory_prints_nothing fuel options w :
  JS.truthy_flag (quiet options) = true →
  prints_nothing w (snd (buildDirectory JSON_parse globCb transform fuel options w)).
Proof.
  intros Hq. unfold buildDirectory, bind.
  destruct (discover JSON_parse globCb fuel options w) as [r w1] eqn:Hd.
  destruct (K_discover JSON_parse globCb fuel options _ _ _ Hd) as [Hdisc _].
  apply discovers_prints_nothing in Hdisc.
  destruct r as [[files options']| | |]; try done.
  apply discover_quiet in Hd.
  destruct (buildFiles transform files options' w1) as [r2 w2] eqn:Hb.
  destruct (K_buildFiles transform options' files files (λ _ Hf, Hf) _ _ _ Hb)
    as [Hbuilds _].
  simpl. eapply prints_nothing_trans; [exact Hdisc|].
  eapply builds_prints_nothing; [|exact Hbuilds]. by rewrite Hd.
Qed.

(** X13.  With [--quiet], [run] prints nothing on standard output,
    whatever the mode and however discovery and the build end: no
    progress line is among the effects. *)
Theorem quiet_run_prints_no_progress fuel c w :
  JS.truthy_flag (commander.quiet c) = true →
  ∃ new,
    trace (snd (run JSON_parse globCb transform fuel c w)) = trace w ++ new
    ∧ ∀ msg, ConsoleLog msg ∉ new.
Proof.
  intros Hq.
  assert (H : prints_nothing w (snd (run JSON_parse globCb transform fuel c w))).
  { unfold run, bind.
    pose proof (validate_prints_nothing c w) as Hv.
    destruct (validate c w) as [[[]| | |] w1]; try done. simpl in Hv.
    eapply prints_nothing_trans; [exact Hv|].
    unfold try_catch.
    pose proof (buildDirectory_prints_nothing fuel (options_of c) w1 Hq) as Hb.
    destruct (buildDirectory JSON_parse globCb transform fuel (options_of c) w1)
      as [[[]|e| |] w2]; try done. simpl in Hb.
    eapply prints_nothing_trans; [exact Hb|].
    exists [SetExitCode 1; ConsoleErrorObj e]. split; [|by repeat constructor].
    unfold bind, emit, console_error_obj, emit. simpl. by rewrite <- app_assoc. }
  destruct H as (new & Ht & Hall). exists new. split; [done|].
  intros msg Hin. rewrite Forall_forall in Hall. by specialize (Hall _ Hin).
Qed.



(** X15.  Without [--project], once the command line has passed the
    checks, [run] never calls [process.exit]: a failure of the tree walk
    or of the build is reported through the exit code, and [run] ends
    normally (or, in the model, runs out of fuel). *)
Theorem tree_mode_never_exits fuel c w :
  JS.truthy_str (commander.project c) = false →
  fst (validate c w) = Ret tt →
  let res := run JSON_parse globCb transform fuel c w in
  fst res = Ret tt ∨ fst res = OutOfFuel.
Proof.
  intros Hp Hv. simpl.
  pose proof (validate_Ret_world c w Hv) as Hw.
  destruct (validate_tree_accepts c w Hp Hv) as (Ho & _ & Hs).
  unfold run, bind. destruct (validate c w) as [rv w1]. simpl in Hv, Hw. subst rv w1.
  unfold try_catch.
  rewrite buildDirectory_tree; [|by simpl; rewrite Ho, Hs]. unfold bind.
  destruct (findFiles fuel (options_of c) w) as [r w1] eqn:Hf.
  destruct (K_findFiles no_exit fuel (options_of c) _ _ _ Hf) as [_ HE].
  destruct r as [files|e|code|]; simpl; [| by left | by destruct (HE code) | by right].
  destruct (buildFiles transform files (options_of c) w1) as [r2 w2] eqn:Hbf.
  destruct (K_buildFiles transform (options_of c) files files (λ _ Hf, Hf) _ _ _ Hbf)
    as [_ HE2].
  destruct r2 as [[]|e|code|]; simpl; [by left|by left|by destruct (HE2 code)|by right].
Qed.

End Endings.

Lemma quiet_run_prints_no_progress_witness :
  ∃ new,
    trace (snd (run Examples.JSON_parse Examples.globCb Examples.transform 3
                  Scenarios.tree_command Examples.source_world))
    = trace Examples.source_world ++ new
    ∧ ∀ msg, ConsoleLog msg ∉ new.
Proof.
  apply (quiet_run_prints_no_progress Examples.JSON_parse Examples.globCb
           Examples.transform 3 Scenarios.tree_command Examples.source_world).
  reflexivity.
Defined.

Lemma tree_mode_never_exits_witness :
  let res := run Examples.JSON_parse Examples.globCb Examples.transform 3
               Scenarios.tree_command Examples.source_world in
  fst res = Ret tt ∨ fst res = OutOfFuel.
Proof.
  apply (tree_mode_never_exits Examples.JSON_parse Examples.globCb Examples.transform 3
           Scenarios.tree_command Examples.source_world); reflexivity.
Defined.

(** ** The tree walk covers the source tree *)

Lemma isDirectory_stable W dir f f' p b :
  fs_kept W f f' → Fs.isDirectory dir f p = inr b → Fs.isDirectory dir f' p = inr b.
Proof.
  intros [H _]. unfold Fs.isDirectory. destruct (negb (Str.nonempty p)); [done|].
  destruct (f !! Fs.key dir p) as [n|] eqn:Hk; [|done].
  destruct (H _ _ Hk) as (n' & -> & Hn).
  by destruct n, n'.
Qed.

Lemma readdir_stable W dir f f' p l c :
  fs_kept W f f' → Fs.readdir dir f p = inr l → c ∈ l →
  ∃ l', Fs.readdir dir f' p = inr l' ∧ c ∈ l'.
Proof.
  intros [H _]. unfold Fs.readdir. destruct (negb (Str.nonempty p)); [done|].
  destruct (f !! Fs.key dir p) as [n|] eqn:Hk; [|done].
  destruct (H _ _ Hk) as (n' & -> & Hn).
  destruct n as [|entries], n' as [|entries']; try done.
  destruct Hn as [more ->]. intros [= <-] Hc.
  eexists. split; [done|]. rewrite filter_app. apply elem_of_app. by left.
Qed.

Lemma exists_stable W dir f f' p :
  fs_kept W f f' → Fs.exists_ dir f p = true → Fs.exists_ dir f' p = true.
Proof.
  intros [H _]. unfold Fs.exists_. destruct (Str.nonempty p); [|done]. simpl.
  intros Hk. apply bool_decide_eq_true in Hk as [n Hk].
  destruct (H _ _ Hk) as (n' & Hk' & _). apply bool_decide_eq_true. by exists n'.
Qed.

Lemma readdir_isDirectory dir f p l :
  Fs.readdir dir f p = inr l → Fs.isDirectory dir f p = inr true.
Proof.
  unfold Fs.readdir, Fs.isDirectory. destruct (negb (Str.nonempty p)); [done|].
  by destruct (f !! Fs.key dir p) as [[]|].
Qed.

Lemma listed_stable W options dir f f' names :
  fs_kept W f f' →
  ∀ src, listed options dir f src names → listed options dir f' src names.
Proof.
  intros Hk. induction names as [|c rest IH]; intros src; [done|].
  simpl. intros ((l & Hl & Hc) & Hs & Hrest).
  split; [by eapply readdir_stable|]. split; [done|]. by apply IH.
Qed.

Lemma listed_inner options src0 out0 c0 dir f names :
  ∀ src, listed options dir f src names →
         listed (inner_options options src0 out0 c0) dir f src names.
Proof.
  induction names as [|c rest IH]; intros src; [done|].
  simpl. intros (Hl & Hs & Hrest). split; [done|]. split; [done|]. by apply IH.
Qed.

(** What a completed pass over the children of a directory has done for
    each child that is not passed over. *)
Lemma findFiles_children_complete rec options exts src out children :
  srcDirPath options = Some src → outDirPath options = Some out →
  (∀ o, keeps discovers no_exit (rec o)) →
  ∀ outArr w pairs w',
    findFiles_children rec options exts children outArr w = (Ret pairs, w') →
    (∀ f, f ∈ outArr → f ∈ pairs)
    ∧ ∀ c, c ∈ children → skipped options c = false →
        ∃ wc isDir,
          discovers w wc
          ∧ Fs.isDirectory (cwd wc) (fs wc) (Path.join [src; c]) = inr isDir
          ∧ if isDir then
              ∃ inner w2,
                rec (inner_options options src out c)
                  (log wc [FsStat (Path.join [src; c])]) = (Ret inner, w2)
                ∧ discovers w2 w'
                ∧ ∀ f, f ∈ inner → f ∈ pairs
            else
              existsb (λ ext, Str.endsWith (Path.join [src; c]) ext) exts = true →
              mkFileInfo (Path.join [src; c])
                (Str.replace_ext (Path.join [out; c]) ("." +:+ outExtension options))
              ∈ pairs.
Proof.
  intros Hsrc Hout Hrec.
  induction children as [|child rest IH]; intros outArr w pairs w' H.
  { injection H as <- <-. split; [done|]. intros c Hc. by apply elem_of_nil in Hc. }
  simpl in H. fold (skipped options child) in H.
  destruct (skipped options child) eqn:Hskip.
  { destruct (IH _ _ _ _ H) as [Ha Hc]. split; [done|].
    intros c Hin Hs. apply elem_of_cons in Hin as [->|Hin]; [congruence|].
    by apply Hc. }
  rewrite Hsrc, Hout in H.
  rewrite (bind_Ret _ _ _ _ _ (join_strings [src; child] _)) in H.
  rewrite (bind_Ret _ _ _ _ _ (join_strings [out; child] _)) in H.
  apply bind_Ret_inv in H as (isDir & w1 & Hstat & H).
  rewrite stat_isDirectory_unfold in Hstat.
  destruct (Fs.isDirectory (cwd w) (fs w) (Path.join [src; child])) as [e|b] eqn:Hdir;
    [done|].
  injection Hstat as <- <-.
  assert (Hlog : discovers w (log w [FsStat (Path.join [src; child])])).
  { apply discovers_log. by repeat constructor. }
  destruct b.
  - apply bind_Ret_inv in H as (inner & w2 & Hinner & H).
    destruct (Hrec _ _ _ _ Hinner) as [Hd2 _].
    pose proof (K_findFiles_children no_exit rec options exts rest Hrec _ _ _ _ H)
      as [Hd3 _].
    destruct (IH _ _ _ _ H) as [Ha Hc]. split.
    { intros f Hf. apply Ha, elem_of_app. by left. }
    intros c Hin Hs. apply elem_of_cons in Hin as [->|Hin].
    + exists w, true. split; [apply discovers_refl|]. split; [done|].
      exists inner, w2. split; [done|]. split; [done|].
      intros f Hf. apply Ha, elem_of_app. by right.
    + destruct (Hc c Hin Hs) as (wc & isDir & Hwc & Hrest).
      exists wc, isDir. split; [|done].
      eapply discovers_trans; [exact Hlog|]. by eapply discovers_trans.
  - destruct (existsb _ exts) eqn:Hext.
    + destruct (IH _ _ _ _ H) as [Ha Hc]. split.
      { intros f Hf. apply Ha, elem_of_app. by left. }
      intros c Hin Hs. apply elem_of_cons in Hin as [->|Hin].
      * exists w, false. split; [apply discovers_refl|]. split; [done|].
        intros _. apply Ha, elem_of_app. right. apply list_elem_of_here.
      * destruct (Hc c Hin Hs) as (wc & isDir & Hwc & Hrest).
        exists wc, isDir. split; [|done]. by eapply discovers_trans.
    + destruct (IH _ _ _ _ H) as [Ha Hc]. split; [done|].
      intros c Hin Hs. apply elem_of_cons in Hin as [->|Hin].
      * exists w, false. split; [apply discovers_refl|]. split; [done|].
        intros Hx. simpl in Hx. congruence.
      * destruct (Hc c Hin Hs) as (wc & isDir & Hwc & Hrest).
        exists wc, isDir. split; [|done]. by eapply discovers_trans.
Qed.

(** The first steps of a completed [findFiles]: the world in which the
    source directory is listed, where the output directory exists. *)
Lemma findFiles_Ret_inv fuel options src out w pairs w' :
  srcDirPath options = Some src → outDirPath options = Some out →
  findFiles (S fuel) options w = (Ret pairs, w') →
  ∃ w1 children,
    discovers w w1
    ∧ Fs.exists_ (cwd w1) (fs w1) out = true
    ∧ Fs.readdir (cwd w1) (fs w1) src = inr children
    ∧ findFiles_children (findFiles fuel) options (extensions_of options) children []
        (log w1 [FsReaddir src])
      = (Ret pairs, w').
Proof.
  intros Hsrc Hout H. simpl in H. rewrite Hsrc, Hout in H.
  apply bind_Ret_inv in H as (present & w0 & Hex & H).
  rewrite exists_unfold in Hex. injection Hex as <- <-.
  apply bind_Ret_inv in H as ([] & w1 & Hmk & H).
  apply bind_Ret_inv in H as (children & w2 & Hrd & H).
  rewrite readdir_unfold in Hrd.
  destruct (Fs.readdir (cwd w1) (fs w1) src) as [e|names] eqn:Hnames; [done|].
  injection Hrd as <- <-.
  exists w1, names.
  assert (Hw0 : discovers w (log w [FsExists out])).
  { apply discovers_log. by repeat constructor. }
  destruct (Fs.exists_ (cwd w) (fs w) out) eqn:Hpresent; simpl in Hmk.
  - injection Hmk as <-. split; [done|]. split; [done|]. by split.
  - rewrite mkdir_unfold in Hmk. simpl in Hmk.
    destruct (Fs.mkdir (cwd w) (fs w) out) as [e|f'] eqn:Hm; [done|].
    injection Hmk as <-. split.
    { eapply discovers_trans; [exact Hw0|].
      split; [done|]. split; [exists [FsMkdir out]; split; [done|by repeat constructor]|].
      by eapply mkdir_kept. }
    split; [by eapply FsFacts.mkdir_exists|]. by split.
Qed.

(** X16.  The tree walk misses no source file.  When [findFiles]
    completes, every file of the initial file system that is reached from
    the source directory through names that their parent directories list
    and that are not passed over, and whose path ends with an accepted
    extension, has its pair in the result: its path under the source
    directory and the same location under the output directory with the
    extension pattern replaced. *)
Theorem walk_finds_every_source_file fuel :
  ∀ options src out w pairs names ext,
    srcDirPath options = Some src →
    outDirPath options = Some out →
    fst (findFiles fuel options w) = Ret pairs →
    names ≠ [] →
    listed options (cwd w) (fs w) src names →
    Fs.isDirectory (cwd w) (fs w) (descend src names) = inr false →
    ext ∈ extensions_of options →
    Str.endsWith (descend src names) ext = true →
    mkFileInfo (descend src names)
      (Str.replace_ext (descend out names) ("." +:+ outExtension options))
    ∈ pairs.
Proof.
  induction fuel as [|fuel IH];
    intros options src out w pairs names ext Hsrc Hout Hret Hne Hl Hfile Hext Hend.
  { done. }
  destruct (findFiles (S fuel) options w) as [r w'] eqn:Hrun. simpl in Hret. subst r.
  destruct (findFiles_Ret_inv _ _ _ _ _ _ _ Hsrc Hout Hrun)
    as (w1 & children & (Hc1 & Ht1 & Hk1) & _ & Hrd & Hloop).
  destruct names as [|c rest]; [done|].
  destruct Hl as ((l & Hl & Hcl) & Hskip & Hrest).
  rewrite <- Hc1 in Hl.
  destruct (readdir_stable _ _ _ _ _ _ _ Hk1 Hl Hcl) as (l' & Hl' & Hcl').
  rewrite Hrd in Hl'. injection Hl' as <-.
  destruct (findFiles_children_complete (findFiles fuel) options (extensions_of options)
              src out children Hsrc Hout (K_findFiles no_exit fuel) _ _ _ _ Hloop)
    as [_ Hc].
  destruct (Hc c Hcl' Hskip) as (wc & isDir & (Hcc & Htc & Hkc) & Hdir & Hcase).
  simpl in Hcc, Hkc.
  assert (Hk : fs_kept (λ _, False) (fs w) (fs wc)) by (by eapply fs_kept_trans).
  assert (Hcwd : cwd wc = cwd w) by congruence.
  rewrite PathFacts.descend_cons in *.
  destruct rest as [|c2 rest].
  - simpl in *.
    rewrite <- Hcwd in Hfile.
    rewrite (isDirectory_stable _ _ _ _ _ _ Hk Hfile) in Hdir. injection Hdir as <-.
    apply Hcase. apply existsb_exists. exists ext.
    split; [by apply list_elem_of_In|done].
  - assert (Hd : Fs.isDirectory (cwd wc) (fs wc) (Path.join [src; c]) = inr true).
    { destruct Hrest as ((l2 & Hl2 & _) & _).
      apply readdir_isDirectory in Hl2. rewrite <- Hcwd in Hl2.
      by eapply isDirectory_stable. }
    rewrite Hd in Hdir. injection Hdir as <-.
    destruct Hcase as (inner & w2 & Hinner & _ & Hsub).
    apply Hsub.
    apply (IH (inner_options options src out c) (Path.join [src; c]) (Path.join [out; c])
             (log wc [FsStat (Path.join [src; c])]) inner (c2 :: rest) ext);
      try done.
    + by rewrite Hinner.
    + simpl cwd. simpl fs. rewrite Hcwd.
      apply listed_inner. exact (listed_stable _ options _ _ _ _ Hk _ Hrest).
    + simpl cwd. simpl fs. rewrite <- Hcwd in Hfile. by eapply isDirectory_stable.
Qed.

(** X17.  The tree walk mirrors every directory.  When [findFiles]
    completes, the output directory exists, and so does, under it, the
    mirror of every directory of the initial file system that is reached
    from the source directory through listed names that are not passed
    over; this holds for a directory without any source file too. *)
Theorem walk_mirrors_every_directory fuel :
  ∀ options src out w pairs w' names,
    srcDirPath options = Some src →
    outDirPath options = Some out →
    findFiles fuel options w = (Ret pairs, w') →
    listed options (cwd w) (fs w) src names →
    Fs.isDirectory (cwd w) (fs w) (descend src names) = inr true →
    Fs.exists_ (cwd w') (fs w') (descend out names) = true.
Proof.
  induction fuel as [|fuel IH];
    intros options src out w pairs w' names Hsrc Hout Hrun Hl Hdirs.
  { done. }
  destruct (findFiles_Ret_inv _ _ _ _ _ _ _ Hsrc Hout Hrun)
    as (w1 & children & (Hc1 & Ht1 & Hk1) & Hex & Hrd & Hloop).
  pose proof (K_findFiles_children no_exit (findFiles fuel) options
                (extensions_of options) children (K_findFiles no_exit fuel)
                _ _ _ _ Hloop) as [(Hc2 & _ & Hk2) _].
  simpl in Hc2, Hk2.
  destruct names as [|c rest].
  { simpl. rewrite Hc2. by eapply exists_stable. }
  destruct Hl as ((l & Hl & Hcl) & Hskip & Hrest).
  rewrite <- Hc1 in Hl.
  destruct (readdir_stable _ _ _ _ _ _ _ Hk1 Hl Hcl) as (l' & Hl' & Hcl').
  rewrite Hrd in Hl'. injection Hl' as <-.
  destruct (findFiles_children_complete (findFiles fuel) options (extensions_of options)
              src out children Hsrc Hout (K_findFiles no_exit fuel) _ _ _ _ Hloop)
    as [_ Hc].
  destruct (Hc c Hcl' Hskip) as (wc & isDir & (Hcc & Htc & Hkc) & Hdir & Hcase).
  simpl in Hcc, Hkc.
  assert (Hk : fs_kept (λ _, False) (fs w) (fs wc)) by (by eapply fs_kept_trans).
  assert (Hcwd : cwd wc = cwd w) by congruence.
  rewrite PathFacts.descend_cons in *.
  assert (Hd : Fs.isDirectory (cwd wc) (fs wc) (Path.join [src; c]) = inr true).
  { rewrite Hcwd. eapply isDirectory_stable; [exact Hk|].
    destruct rest as [|c2 rest]; [done|].
    destruct Hrest as ((l2 & Hl2 & _) & _). by apply readdir_isDirectory in Hl2. }
  rewrite Hd in Hdir. injection Hdir as <-.
  destruct Hcase as (inner & w2 & Hinner & (Hcw & _ & Hkw) & _).
  rewrite Hcw. eapply exists_stable; [exact Hkw|].
  apply (IH (inner_options options src out c) (Path.join [src; c]) (Path.join [out; c])
           (log wc [FsStat (Path.join [src; c])]) inner w2 rest); try done.
  - simpl cwd. simpl fs. rewrite Hcwd.
    apply listed_inner. exact (listed_stable _ options _ _ _ _ Hk _ Hrest).
  - simpl cwd. simpl fs. rewrite Hcwd. by eapply isDirectory_stable.
Qed.

(** X18.  [findFiles] creates the output directory before it lists the
    source directory: when the source directory cannot be listed (it
    does not exist, or it is a file), the walk fails with that error, and
    the output directory it has just created stays behind. *)
Theorem walk_creates_output_before_listing_source fuel options src out w f' e :
  srcDirPath options = Some src →
  outDirPath options = Some out →
  Fs.exists_ (cwd w) (fs w) out = false →
  Fs.mkdir (cwd w) (fs w) out = inr f' →
  Fs.readdir (cwd w) f' src = inl e →
  findFiles (S fuel) options w
  = (Throw e,
     mkWorld (cwd w) f' (trace w ++ [FsExists out; FsMkdir out; FsReaddir src])).
Proof.
  intros Hsrc Hout Hex Hmk Hrd. simpl. rewrite Hsrc, Hout.
  unfold bind at 1. rewrite exists_unfold, Hex. simpl.
  unfold bind at 1. rewrite mkdir_unfold. simpl. rewrite Hmk.
  unfold bind at 1. rewrite readdir_unfold. simpl. rewrite Hrd.
  unfold log. simpl. by rewrite <- !app_assoc.
Qed.

Lemma walk_finds_every_source_file_witness :
  mkFileInfo (descend "src" ["sub"; "b.x.tsx"])
    (Str.replace_ext (descend "out" ["sub"; "b.x.tsx"])
       ("." +:+ outExtension Examples.explicit_options))
  ∈ Scenarios.source_pairs.
Proof.
  apply (walk_finds_every_source_file 3 Examples.explicit_options "src" "out"
           Examples.source_world Scenarios.source_pairs
           ["sub"; "b.x.tsx"] ".tsx"); try reflexivity; try done.
  - simpl. split.
    { eexists. split; [vm_compute; reflexivity|].
      apply list_elem_of_further, list_elem_of_further, list_elem_of_here. }
    split; [reflexivity|]. split.
    { eexists. split; [vm_compute; reflexivity|]. apply list_elem_of_here. }
    split; [reflexivity|done].
  - apply list_elem_of_further, list_elem_of_here.
Defined.

Lemma walk_mirrors_every_directory_witness :
  let w' := snd (findFiles 3 Examples.explicit_options Examples.source_world) in
  Fs.exists_ (cwd w') (fs w') (descend "out" ["sub"]) = true.
Proof.
  apply (walk_mirrors_every_directory 3 Examples.explicit_options "src" "out"
           Examples.source_world Scenarios.source_pairs
           (snd (findFiles 3 Examples.explicit_options Examples.source_world))
           ["sub"]); try reflexivity.
  simpl. split.
  { eexists. split; [vm_compute; reflexivity|].
    apply list_elem_of_further, list_elem_of_further, list_elem_of_here. }
  split; [reflexivity|done].
Defined.

Lemma walk_creates_output_before_listing_source_witness :
  let w := Examples.source_world in
  findFiles 1 Scenarios.lost_options w
  = (Throw (ENOENT "nosrc"),
     mkWorld (cwd w) Scenarios.source_tree_with_out
       (trace w ++ [FsExists "out"; FsMkdir "out"; FsReaddir "nosrc"])).
Proof.
  apply (walk_creates_output_before_listing_source 0 Scenarios.lost_options
           "nosrc" "out" Examples.source_world Scenarios.source_tree_with_out
           (ENOENT "nosrc")); vm_compute; reflexivity.
Defined.

(** ** Project file resolution, entry by entry *)

Lemma files_pairs_inv options out absProject items f :
  f ∈ files_pairs options out absProject items →
  ∃ name,
    VStr name ∈ items ∧ source_suffix name = true
    ∧ f = mkFileInfo (Path.join [absProject; name]) (out_path options out name).
Proof.
  unfold files_pairs. intros H.
  apply list_elem_of_In, in_flat_map in H as (v & Hv & Hf).
  apply list_elem_of_In in Hv. destruct v as [| | | |name| |]; try done.
  destruct (source_suffix name) eqn:Hs; [|done].
  apply list_elem_of_In, list_elem_of_singleton in Hf. by exists name.
Qed.

Lemma include_pairs_inv globCb dir f0 options out absProject patterns f :
  f ∈ include_pairs globCb dir f0 options out absProject patterns →
  ∃ pat matches file,
    VStr pat ∈ patterns
    ∧ globCb f0 (Path.join [absProject; pat]) = inr matches
    ∧ file ∈ matches ∧ source_suffix file = true
    ∧ f = mkFileInfo file (out_path options out (Path.relative dir absProject file)).
Proof.
  unfold include_pairs. intros H.
  apply list_elem_of_In, in_flat_map in H as (v & Hv & Hf).
  apply list_elem_of_In in Hv. destruct v as [| | | |pat| |]; try done.
  destruct (globCb f0 (Path.join [absProject; pat])) as [e|matches] eqn:Hg; [done|].
  unfold matches_pairs in Hf.
  apply list_elem_of_In in Hf.
  apply (list_elem_of_fmap_1
           (λ file, mkFileInfo file
                      (out_path options out (Path.relative dir absProject file))))
    in Hf as (file & -> & Hin).
  apply list_elem_of_filter in Hin as [Hs Hin].
  by exists pat, matches, file.
Qed.

Lemma entries_falsy v : JS.truthy v = false → entries v = [].
Proof. unfold entries. by intros ->. Qed.

Section ProjectPairs.

Variable JSON_parse : string → Err + value.
Variable globCb : gmap string node → string → Err + list string.
Variable transform : string → Options → string → Err + string.

(** X19.  Every pair that project file resolution returns comes from an
    entry of [files] or from a match of a pattern of [include] whose
    name ends in [.ts] or [.js] and does not end in [.d.ts]: nothing
    else, in particular no [.tsx], [.jsx] or declaration file, is ever
    built in project mode. *)
Theorem project_pairs_are_kept_sources options out p w pairs w' f :
  outDirPath options = Some out →
  project options = Some p →
  runGlob JSON_parse globCb options w = (Ret pairs, w') →
  f ∈ pairs →
  ∃ str json,
    Fs.readFile (cwd w) (fs w) (Path.join [p; "tsconfig.json"]) = inr str
    ∧ JSON_parse str = inr json
    ∧ ((∃ name,
          VStr name ∈ entries (JS.prop json "files")
          ∧ (Str.endsWith name ".ts" || Str.endsWith name ".js") = true
          ∧ Str.endsWith name ".d.ts" = false
          ∧ srcPath f = Path.join [Path.join [cwd w; p]; name]
          ∧ outPath f = out_path options out name)
       ∨ (∃ pat f1 matches,
            VStr pat ∈ entries (JS.prop json "include")
            ∧ globCb f1 (Path.join [Path.join [cwd w; p]; pat]) = inr matches
            ∧ srcPath f ∈ matches
            ∧ (Str.endsWith (srcPath f) ".ts" || Str.endsWith (srcPath f) ".js") = true
            ∧ Str.endsWith (srcPath f) ".d.ts" = false
            ∧ outPath f
              = out_path options out
                  (Path.relative (cwd w) (Path.join [cwd w; p]) (srcPath f)))).
Proof.
  intros Hout Hp Hrun Hin.
  destruct (runGlob_Ret_inv JSON_parse globCb _ _ _ _ _ Hp Hrun)
    as (str & json & Hread & Hparse & Hexp).
  exists str, json. split; [done|]. split; [done|].
  destruct (expandManifest_spec globCb _ _ _ _ _ _ _ Hout Hp Hexp)
    as (f1 & created & _ & Hpairs & _).
  simpl in Hpairs. rewrite Hpairs in Hin. apply elem_of_app in Hin as [Hin|Hin].
  - left. apply files_pairs_inv in Hin as (name & Hname & Hs & ->).
    exists name. unfold source_suffix in Hs.
    apply andb_true_iff in Hs as [Hs1 Hs2]. apply negb_true_iff in Hs2. done.
  - right.
    apply include_pairs_inv in Hin
      as (pat & matches & file & Hpat & Hg & Hfile & Hs & ->).
    exists pat, f1, matches. unfold source_suffix in Hs.
    apply andb_true_iff in Hs as [Hs1 Hs2]. apply negb_true_iff in Hs2. done.
Qed.

(** X20.  Conversely, when project file resolution completes, every
    entry of [files] whose name ends in [.ts] or [.js] and not in
    [.d.ts] has its pair in the result: the entry joined to the absolute
    project directory, and the entry joined to the output directory with
    the extension pattern replaced.  Whether the file exists is not
    looked at. *)
Theorem kept_files_entries_are_paired options out p w pairs w' str json name :
  outDirPath options = Some out →
  project options = Some p →
  Fs.readFile (cwd w) (fs w) (Path.join [p; "tsconfig.json"]) = inr str →
  JSON_parse str = inr json →
  runGlob JSON_parse globCb options w = (Ret pairs, w') →
  VStr name ∈ entries (JS.prop json "files") →
  source_suffix name = true →
  mkFileInfo (Path.join [Path.join [cwd w; p]; name]) (out_path options out name)
  ∈ pairs.
Proof.
  intros Hout Hp Hread Hparse Hrun Hname Hs.
  rewrite (runGlob_parsed JSON_parse globCb _ _ _ _ _ Hp Hread Hparse) in Hrun.
  destruct (expandManifest_spec globCb _ _ _ _ _ _ _ Hout Hp Hrun)
    as (f1 & created & _ & Hpairs & _).
  simpl in Hpairs. rewrite Hpairs. apply elem_of_app. left.
  by apply files_pairs_elem.
Qed.

(** X21.  A manifest with neither [files] nor [include] (absent, or
    falsy) resolves to no pair at all: project file resolution only
    reads the manifest and makes sure the output directory exists, no
    pattern is expanded, and the build loop that follows does nothing. *)
Theorem manifest_without_files_yields_nothing options out p w pairs w' str json :
  outDirPath options = Some out →
  project options = Some p →
  Fs.readFile (cwd w) (fs w) (Path.join [p; "tsconfig.json"]) = inr str →
  JSON_parse str = inr json →
  JS.truthy (JS.prop json "files") = false →
  JS.truthy (JS.prop json "include") = false →
  runGlob JSON_parse globCb options w = (Ret pairs, w') →
  pairs = []
  ∧ trace w'
    = trace w ++ [FsReadFile (Path.join [p; "tsconfig.json"]); FsExists out]
      ++ (if Fs.exists_ (cwd w) (fs w) out then [] else [FsMkdir out])
  ∧ Fs.exists_ (cwd w') (fs w') out = true
  ∧ buildFiles transform pairs options w' = (Ret tt, w').
Proof.
  intros Hout Hp Hread Hparse Hfiles Hinc Hrun.
  rewrite (runGlob_parsed JSON_parse globCb _ _ _ _ _ Hp Hread Hparse) in Hrun.
  destruct (expandManifest_spec globCb _ _ _ _ _ _ _ Hout Hp Hrun)
    as (f1 & created & Hf1 & Hpairs & Htrace & Hcreated & Hcwd).
  simpl in *.
  rewrite (entries_falsy _ Hfiles), (entries_falsy _ Hinc) in Hpairs. simpl in Hpairs.
  rewrite (entries_falsy _ Hinc) in Htrace. simpl in Htrace.
  subst pairs. simpl in Hcreated. inversion Hcreated; subst.
  split; [done|]. split; [by rewrite Htrace, app_nil_r, <- app_assoc|].
  split; [|done]. rewrite Hcwd.
  destruct (Fs.exists_ (cwd w) (fs w) out) eqn:Hex.
  - by rewrite Hf1.
  - by eapply FsFacts.mkdir_exists.
Qed.

End ProjectPairs.

(** X22.  An entry of [files] that is not a string makes the loop over
    [files] throw a [TypeError], whatever the entries around it are; the
    loop itself has no effect. *)
Theorem non_string_files_entry_is_rejected options out absProject items :
  outDirPath options = Some out →
  (∃ v, v ∈ items ∧ ∀ s, v ≠ VStr s) →
  ∀ foundFiles outDirs w,
    ∃ msg,
      runGlob_files options absProject items foundFiles outDirs w
      = (Throw (TypeError msg), w).
Proof.
  intros Hout (v & Hin & Hv).
  induction items as [|file rest IH]; [by apply elem_of_nil in Hin|].
  intros ff od w. simpl.
  destruct file as [| | | |name| |];
    try (by eexists; unfold bind, lift_result, throw; simpl).
  assert (Hrest : v ∈ rest).
  { apply elem_of_cons in Hin as [->|Hin]; [by destruct (Hv name)|done]. }
  specialize (IH Hrest).
  unfold bind at 1. simpl.
  destruct (Str.endsWith name ".d.ts"); [apply IH|].
  unfold bind at 1. simpl. unfold bind at 1. simpl.
  destruct (negb (Str.endsWith name ".ts") && negb (Str.endsWith name ".js"));
    [apply IH|].
  unfold bind at 1. simpl.
  rewrite (bind_Ret _ _ _ _ _ (join_strings [absProject; name] _)).
  rewrite Hout.
  rewrite (bind_Ret _ _ _ _ _ (join_strings [out; name] _)).
  apply IH.
Qed.

Lemma project_pairs_are_kept_sources_witness :
  let options := Scenarios.resolved_options in
  let w := Examples.project_world "both" in
  let f := mkFileInfo "/w/proj/z.ts" "/w/proj/out/z.js" in
  ∃ str json,
    Fs.readFile (cwd w) (fs w) (Path.join ["proj"; "tsconfig.json"]) = inr str
    ∧ Examples.JSON_parse str = inr json
    ∧ ((∃ name,
          VStr name ∈ entries (JS.prop json "files")
          ∧ (Str.endsWith name ".ts" || Str.endsWith name ".js") = true
          ∧ Str.endsWith name ".d.ts" = false
          ∧ srcPath f = Path.join [Path.join [cwd w; "proj"]; name]
          ∧ outPath f = out_path options "/w/proj/out" name)
       ∨ (∃ pat f1 matches,
            VStr pat ∈ entries (JS.prop json "include")
            ∧ Examples.globCb f1 (Path.join [Path.join [cwd w; "proj"]; pat])
              = inr matches
            ∧ srcPath f ∈ matches
            ∧ (Str.endsWith (srcPath f) ".ts" || Str.endsWith (srcPath f) ".js") = true
            ∧ Str.endsWith (srcPath f) ".d.ts" = false
            ∧ outPath f
              = out_path options "/w/proj/out"
                  (Path.relative (cwd w) (Path.join [cwd w; "proj"]) (srcPath f)))).
Proof.
  apply (project_pairs_are_kept_sources Examples.JSON_parse Examples.globCb
           Scenarios.resolved_options "/w/proj/out" "proj" (Examples.project_world "both")
           Scenarios.resolved_pairs
           (snd (runGlob Examples.JSON_parse Examples.globCb Scenarios.resolved_options
                   (Examples.project_world "both"))));
    [reflexivity|reflexivity|by vm_compute|].
  apply list_elem_of_further, list_elem_of_further, list_elem_of_here.
Defined.

Lemma kept_files_entries_are_paired_witness :
  mkFileInfo (Path.join [Path.join ["/w"; "proj"]; "x.ts"])
    (out_path Scenarios.resolved_options "/w/proj/out" "x.ts")
  ∈ Scenarios.resolved_pairs.
Proof.
  apply (kept_files_entries_are_paired Examples.JSON_parse Examples.globCb
           Scenarios.resolved_options "/w/proj/out" "proj" (Examples.project_world "both")
           Scenarios.resolved_pairs
           (snd (runGlob Examples.JSON_parse Examples.globCb Scenarios.resolved_options
                   (Examples.project_world "both")))
           "both" Examples.manifest_both "x.ts");
    try reflexivity.
  apply list_elem_of_here.
Defined.

Lemma manifest_without_files_yields_nothing_witness :
  let options := Scenarios.resolved_options in
  let w := Examples.project_world "plain" in
  let w' := snd (runGlob Examples.JSON_parse Examples.globCb options w) in
  ([] : list FileInfo) = []
  ∧ trace w'
    = trace w ++ [FsReadFile (Path.join ["proj"; "tsconfig.json"]);
                  FsExists "/w/proj/out"]
      ++ (if Fs.exists_ (cwd w) (fs w) "/w/proj/out" then []
          else [FsMkdir "/w/proj/out"])
  ∧ Fs.exists_ (cwd w') (fs w') "/w/proj/out" = true
  ∧ buildFiles Examples.transform [] options w' = (Ret tt, w').
Proof.
  apply (manifest_without_files_yields_nothing Examples.JSON_parse Examples.globCb
           Examples.transform Scenarios.resolved_options "/w/proj/out" "proj"
           (Examples.project_world "plain") []
           (snd (runGlob Examples.JSON_parse Examples.globCb Scenarios.resolved_options
                   (Examples.project_world "plain")))
           "plain" Examples.manifest_plain);
    reflexivity.
Defined.

Lemma non_string_files_entry_is_rejected_witness :
  ∃ msg,
    runGlob_files Scenarios.resolved_options "/w/proj"
      (entries (JS.prop Scenarios.manifest_bad_entry "files")) [] []
      (Examples.project_world "plain")
    = (Throw (TypeError msg), Examples.project_world "plain").
Proof.
  apply (non_string_files_entry_is_rejected Scenarios.resolved_options "/w/proj/out"
           "/w/proj" (entries (JS.prop Scenarios.manifest_bad_entry "files")));
    [reflexivity|].
  exists (VNum 7). split; [|done].
  apply list_elem_of_further, list_elem_of_here.
Defined.

(** ** The extension swap *)

Lemma getSubstitution_plain (matched before after repl : string) :
  Str.has_char "$" repl = false →
  Str.getSubstitution matched before after repl = repl.
Proof.
  induction repl as [|c r IH]; [done|]. simpl. intros H.
  apply orb_false_iff in H as [Hc Hr]. apply bool_decide_eq_false in Hc.
  destruct (Ascii.eqb c "$") eqn:E; [by apply Ascii.eqb_eq in E|].
  by rewrite IH.
Qed.

(** X23.  The extension swap [replace(/\.\w+$/, "." + outExtension)]
    replaces the last extension only and inserts the output extension
    verbatim as long as it holds no [$]: the text before the last dot is
    kept as it is, dots included, and the output extension may itself
    hold dots. *)
Theorem extension_swap_is_verbatim (pre e ext : string) :
  Str.nonempty e = true → Str.all_word e = true →
  Str.has_char "$" ext = false →
  Str.replace_ext (pre +:+ String "." e) ("." +:+ ext) = pre +:+ "." +:+ ext.
Proof.
  intros Hne Hw Hd. unfold Str.replace_ext.
  rewrite (StrFacts.match_ext_last_dot _ _ Hne Hw).
  rewrite getSubstitution_plain; [done|].
  rewrite StrFacts.app_cons, StrFacts.app_nil_l. simpl. by rewrite Hd.
Qed.

Lemma valid_name_other_extension (stem e1 e2 : string) :
  Fs.valid_name (stem +:+ String "." e1) = true →
  Str.nonempty e2 = true → Str.all_word e2 = true →
  Fs.valid_name (stem +:+ String "." e2) = true.
Proof.
  intros Hv Hne Hw.
  apply PathFacts.valid_name_inv in Hv as (_ & _ & _ & Hs).
  rewrite StrFacts.has_char_app in Hs. apply orb_false_iff in Hs as [Hs _].
  assert (He2 : Str.has_char "/" e2 = false).
  { by apply StrFacts.all_word_no_char. }
  apply PathFacts.valid_name_intro.
  - destruct stem; discriminate.
  - destruct stem as [|a stem]; [destruct e2; [done|discriminate]|].
    rewrite StrFacts.app_cons. intros [= _ H]. by destruct stem.
  - destruct stem as [|a [|b stem]].
    + rewrite StrFacts.app_nil_l. intros [= ->]. done.
    + rewrite StrFacts.app_cons, StrFacts.app_nil_l. intros [= _ He].
      by rewrite He in Hne.
    + rewrite !StrFacts.app_cons. intros [= _ _ H]. by destruct stem.
  - rewrite StrFacts.has_char_app, Hs. simpl. by rewrite He2.
Qed.

(** X24.  Two files of one directory whose names differ in the
    extension only ([a.ts] and [a.tsx], say) are given the same output
    path: whichever is built later overwrites the output of the
    other. *)
Theorem sources_differing_in_extension_collide options out (stem e1 e2 : string) :
  Fs.valid_name (stem +:+ String "." e1) = true →
  Str.nonempty e1 = true → Str.all_word e1 = true →
  Str.nonempty e2 = true → Str.all_word e2 = true →
  Str.has_char "$" (outExtension options) = false →
  Str.replace_ext (Path.join [out; stem +:+ String "." e1])
    ("." +:+ outExtension options)
  = Str.replace_ext (Path.join [out; stem +:+ String "." e2])
      ("." +:+ outExtension options).
Proof.
  intros Hv Hn1 Hw1 Hn2 Hw2 Hd.
  pose proof (valid_name_other_extension _ _ _ Hv Hn2 Hw2) as Hv2.
  rewrite !PathFacts.join_child; [|done|done].
  assert (Hswap : ∀ e, Str.nonempty e = true → Str.all_word e = true →
            Str.replace_ext (Path.child_prefix out +:+ stem +:+ String "." e)
              ("." +:+ outExtension options)
            = (Path.child_prefix out +:+ stem) +:+ "." +:+ outExtension options).
  { intros e Hne Hw. rewrite <- StrFacts.app_assoc. unfold Str.replace_ext.
    rewrite (StrFacts.match_ext_last_dot _ _ Hne Hw).
    rewrite getSubstitution_plain; [done|].
    rewrite StrFacts.app_cons, StrFacts.app_nil_l. simpl. by rewrite Hd. }
  by rewrite !Hswap.
Qed.

Lemma extension_swap_is_verbatim_witness :
  Str.replace_ext ("out/a.b" +:+ String "." "ts") ("." +:+ "min.js")
  = "out/a.b" +:+ "." +:+ "min.js".
Proof. apply (extension_swap_is_verbatim "out/a.b" "ts" "min.js"); reflexivity. Defined.

Lemma sources_differing_in_extension_collide_witness :
  Str.replace_ext (Path.join ["out/sub"; "a" +:+ String "." "ts"])
    ("." +:+ outExtension Examples.explicit_options)
  = Str.replace_ext (Path.join ["out/sub"; "a" +:+ String "." "tsx"])
      ("." +:+ outExtension Examples.explicit_options).
Proof.
  apply (sources_differing_in_extension_collide Examples.explicit_options "out/sub"
           "a" "ts" "tsx"); reflexivity.
Defined.

(** ** The exit code *)

Lemma leaves_exit_code_refl w : leaves_exit_code w w.
Proof. exists []. by rewrite app_nil_r. Qed.

Lemma leaves_exit_code_trans w1 w2 w3 :
  leaves_exit_code w1 w2 → leaves_exit_code w2 w3 → leaves_exit_code w1 w3.
Proof.
  intros (n1 & H1 & A1) (n2 & H2 & A2). exists (n1 ++ n2).
  split; [by rewrite H2, H1, app_assoc|by apply Forall_app].
Qed.

Lemma discovers_leaves_exit_code w w' : discovers w w' → leaves_exit_code w w'.
Proof.
  intros (_ & (new & Ht & Hall) & _). exists new. split; [done|].
  eapply Forall_impl; [exact Hall|]. by intros [].
Qed.

Lemma builds_leaves_exit_code options files w w' :
  builds options files w w' → leaves_exit_code w w'.
Proof.
  intros (_ & (new & Ht & Hall) & _). exists new. split; [done|].
  eapply Forall_impl; [exact Hall|]. by intros [].
Qed.

Lemma validate_leaves_exit_code c w : leaves_exit_code w (snd (validate c w)).
Proof.
  assert (Hf : ∀ msg w0, leaves_exit_code w0 (snd (fail_with msg w0))).
  { intros msg w0. exists [ConsoleError msg]. split; [done|by repeat constructor]. }
  unfold validate.
  destruct (JS.truthy_str (commander.project c)).
  - destruct (_ || _); [apply Hf|apply leaves_exit_code_refl].
  - destruct (JS.truthy_str (commander.outDir c)); [|apply Hf].
    destruct (JS.truthy_str (commander.transforms c)); [|apply Hf].
    destruct (JS.truthy_str (head (commander.args c)));
      [apply leaves_exit_code_refl|apply Hf].
Qed.

Section ExitCode.

Variable JSON_parse : string → Err + value.
Variable globCb : gmap string node → string → Err + list string.
Variable transform : string → Options → string → Err + string.

Lemma buildDirectory_leaves_exit_code fuel options w :
  leaves_exit_code w (snd (buildDirectory JSON_parse globCb transform fuel options w)).
Proof.
  unfold buildDirectory, bind.
  destruct (discover JSON_parse globCb fuel options w) as [r w1] eqn:Hd.
  destruct (K_discover JSON_parse globCb fuel options _ _ _ Hd) as [Hdisc _].
  apply discovers_leaves_exit_code in Hdisc.
  destruct r as [[files options']| | |]; try done.
  destruct (buildFiles transform files options' w1) as [r2 w2] eqn:Hb.
  destruct (K_buildFiles transform options' files files (λ _ Hf, Hf) _ _ _ Hb)
    as [Hbuilds _].
  simpl. eapply leaves_exit_code_trans; [exact Hdisc|].
  by eapply builds_leaves_exit_code.
Qed.

Lemma no_code_in new :
  Forall (λ e, keeps_code e = true) new → ∀ code, SetExitCode code ∉ new.
Proof.
  intros Hall code Hin. rewrite Forall_forall in Hall. by specialize (Hall _ Hin).
Qed.

(** X25.  [run] assigns [process.exitCode] only in its [catch] handler:
    when the checks pass and discovery or the build throws, the last two
    effects of [run] are the assignment of 1 and the print of the caught
    error, and [run] ends normally; in every other case (a rejected
    command line, [process.exit], a completed build) the exit code is
    never assigned. *)
Theorem exit_code_records_caught_error fuel c w :
  let res := run JSON_parse globCb transform fuel c w in
  let built := buildDirectory JSON_parse globCb transform fuel (options_of c) w in
  ∃ new,
    trace (snd res) = trace w ++ new
    ∧ ((∃ e pre,
          fst (validate c w) = Ret tt
          ∧ fst built = Throw e
          ∧ fst res = Ret tt
          ∧ new = pre ++ [SetExitCode 1; ConsoleErrorObj e]
          ∧ ∀ code, SetExitCode code ∉ pre)
       ∨ ((fst (validate c w) = Ret tt → ∀ e, fst built ≠ Throw e)
          ∧ ∀ code, SetExitCode code ∉ new)).
Proof.
  simpl. unfold run, bind.
  pose proof (validate_leaves_exit_code c w) as Hv.
  pose proof (validate_Ret_world c w) as Hw.
  destruct (validate c w) as [rv w1]. simpl in Hv, Hw.
  destruct rv as [[]|e|code|].
  2-4: destruct Hv as (new & Ht & Hall); exists new; split; [done|]; right;
       split; [done|by apply no_code_in].
  specialize (Hw eq_refl). subst w1. clear Hv.
  unfold try_catch.
  pose proof (buildDirectory_leaves_exit_code fuel (options_of c) w) as Hb.
  destruct (buildDirectory JSON_parse globCb transform fuel (options_of c) w)
    as [rb w2]. simpl in Hb. destruct Hb as (new & Ht & Hall).
  destruct rb as [[]|e|code|].
  2: { exists (new ++ [SetExitCode 1; ConsoleErrorObj e]). split.
       { unfold bind, emit, console_error_obj, emit. simpl.
         by rewrite Ht, <- !app_assoc. }
       left. exists e, new. repeat split; try done. by apply no_code_in. }
  all: exists new; split; [done|]; right; split; [done|by apply no_code_in].
Qed.

End ExitCode.

(** ** The path of a child *)

Lemma norm_step_true_kept t seg :
  Forall kept_seg t → Forall kept_seg (Path.norm_step true t seg).
Proof.
  intros Ht. unfold Path.norm_step.
  case_bool_decide as H1; simpl.
  { by destruct (bool_decide (seg = ".")). }
  case_bool_decide as H2; simpl; [done|].
  case_bool_decide as H3.
  - subst. destruct t as [|top rest]; [by repeat constructor|].
    inversion Ht; subst. case_bool_decide; [|done]. by constructor.
  - by constructor.
Qed.

Lemma norm_step_skip b st (seg : string) :
  seg = "" ∨ seg = "." → Path.norm_step b st seg = st.
Proof. intros [-> | ->]; reflexivity. Qed.

Lemma norm_step_push b st (seg : string) :
  seg ≠ "" → seg ≠ "." → seg ≠ ".." → Path.norm_step b st seg = seg :: st.
Proof.
  intros H1 H2 H3. unfold Path.norm_step.
  by rewrite !bool_decide_eq_false_2.
Qed.

Lemma norm_step_simulation t s seg :
  Forall kept_seg t →
  Path.norm_step false (fold_left (Path.norm_step false) (rev t) s) seg
  = fold_left (Path.norm_step false) (rev (Path.norm_step true t seg)) s.
Proof.
  intros Ht.
  destruct (decide (seg = "")) as [->|H1]; [done|].
  destruct (decide (seg = ".")) as [->|H2]; [done|].
  destruct (decide (seg = "..")) as [->|H3].
  - destruct t as [|top rest]; [done|].
    change (Path.norm_step true (top :: rest) "..")
      with (if bool_decide (top = "..") then ".." :: top :: rest else rest).
    case_bool_decide as Htop.
    + simpl. by rewrite !fold_left_app.
    + simpl. rewrite fold_left_app. simpl.
      inversion Ht as [|? ? [Ha Hb] Hrest]; subst.
      rewrite (norm_step_push false _ top) by done.
      change (Path.norm_step false (top :: ?X) "..")
        with (if bool_decide (top = "..") then top :: X else X).
      by rewrite bool_decide_eq_false_2.
  - rewrite (norm_step_push true t seg) by done. simpl. by rewrite fold_left_app.
Qed.

Lemma norm_segs_absorb (A B : list string) :
  Path.norm_segs false (A ++ Path.norm_segs true B) = Path.norm_segs false (A ++ B).
Proof.
  unfold Path.norm_segs. f_equal. rewrite !fold_left_app.
  set (s := fold_left (Path.norm_step false) A []).
  assert (G : ∀ t, Forall kept_seg t →
            fold_left (Path.norm_step false) B
              (fold_left (Path.norm_step false) (rev t) s)
            = fold_left (Path.norm_step false)
                (rev (fold_left (Path.norm_step true) B t)) s).
  { induction B as [|seg B IH]; intros t Ht; [done|].
    simpl. rewrite norm_step_simulation by done.
    apply IH. by apply norm_step_true_kept. }
  symmetry. apply (G []). constructor.
Qed.

Lemma norm_true_no_slash (segs : list string) :
  Forall (λ x, Str.has_char "/" x = false) segs →
  Forall (λ x, Str.has_char "/" x = false ∧ x ≠ "") (Path.norm_segs true segs).
Proof.
  intros Hsegs. unfold Path.norm_segs. apply Forall_rev.
  assert (H : ∀ st, Forall (λ x, Str.has_char "/" x = false ∧ x ≠ "") st →
                    Forall (λ x, Str.has_char "/" x = false ∧ x ≠ "")
                      (fold_left (Path.norm_step true) segs st)).
  { induction Hsegs as [|seg segs Hseg Hsegs IH]; intros st Hst; [done|].
    simpl. apply IH. unfold Path.norm_step.
    case_bool_decide as H1; simpl; [by destruct (bool_decide (seg = "."))|].
    case_bool_decide as H2; simpl; [done|].
    case_bool_decide as H3.
    - destruct st as [|top rest]; [by repeat constructor|].
      inversion Hst; subst. case_bool_decide; [|done]. by constructor.
    - by constructor. }
  apply H. constructor.
Qed.

Lemma concat_no_leading_slash (segs : list string) :
  Forall (λ x, Str.has_char "/" x = false ∧ x ≠ "") segs →
  ∀ y, Str.startsWithSlash (Str.concat "/" segs +:+ y) = Str.startsWithSlash
         (match segs with [] => y | _ => "x" end).
Proof.
  intros H y. destruct segs as [|x l]; [by rewrite StrFacts.app_nil_l|].
  inversion H as [|? ? [Hx Hne] Hl]; subst.
  assert (Hs : ∃ a r, Str.concat "/" (x :: l) = String a r ∧ a ≠ "/"%char).
  { destruct x as [|a r]; [done|]. simpl in Hx. apply orb_false_iff in Hx as [Ha _].
    apply bool_decide_eq_false in Ha.
    destruct l; [by exists a, r|]. eexists a, _. split; [|done].
    change (Str.concat "/" (String a r :: s :: l))
      with (String a r +:+ "/" +:+ Str.concat "/" (s :: l)).
    by rewrite StrFacts.app_cons. }
  destruct Hs as (a & r & -> & Ha). rewrite StrFacts.app_cons. simpl.
  by rewrite bool_decide_eq_false_2.
Qed.

Lemma norm_segs_drop_empty b (l : list string) :
  Path.norm_segs b (l ++ [""]) = Path.norm_segs b l.
Proof. unfold Path.norm_segs. rewrite fold_left_app. done. Qed.

Lemma app_slash (a b : string) : a +:+ "/" +:+ b = a +:+ String "/" b.
Proof. by rewrite (StrFacts.app_cons "/" "" b), StrFacts.app_nil_l. Qed.

Lemma split_slash_cons (r : string) :
  Str.split "/" (String "/" r) = "" :: Str.split "/" r.
Proof. reflexivity. Qed.

(** The resolved segments of a child. *)
Lemma resolve_segs_child cwd (d c : string) :
  Fs.valid_name c = true →
  Path.resolve_segs cwd (Path.join [d; c]) = Path.resolve_segs cwd d ++ [c].
Proof.
  intros Hc. pose proof (PathFacts.valid_name_inv c Hc) as (Hc1 & Hc2 & Hc3 & Hc4).
  rewrite (PathFacts.join_child _ _ Hc). unfold Path.child_prefix.
  case_bool_decide as Hd.
  { subst d. rewrite StrFacts.app_nil_l. unfold Path.resolve_segs.
    rewrite (PathFacts.startsWithSlash_valid _ Hc). simpl.
    rewrite !app_slash.
    rewrite !StrFacts.split_app, (StrFacts.split_no_sep _ _ Hc4). simpl.
    rewrite (PathFacts.norm_segs_snoc _ _ _ Hc). by rewrite norm_segs_drop_empty. }
  destruct (Str.startsWithSlash d) eqn:Habs.
  - change (negb true) with false.
    unfold Path.resolve_segs at 2. rewrite Habs.
    assert (Hsegs : Forall (λ n, Fs.valid_name n = true)
                      (Path.norm_segs false (Str.split "/" d)))
      by apply RelativeFacts.norm_segs_valid, RelativeFacts.split_no_slash.
    unfold Path.resolve_segs.
    destruct (Path.norm_segs false (Str.split "/" d)) as [|x l].
    + rewrite StrFacts.app_nil_r, (StrFacts.app_cons "/" "" c), StrFacts.app_nil_l.
      simpl Str.startsWithSlash. cbv iota.
      rewrite split_slash_cons, (StrFacts.split_no_sep _ _ Hc4).
      change ["" ; c] with ([""] ++ [c]).
      by rewrite (PathFacts.norm_segs_snoc _ _ _ Hc).
    + rewrite !StrFacts.app_assoc, app_slash.
      rewrite (StrFacts.app_cons "/" "" _), StrFacts.app_nil_l.
      simpl Str.startsWithSlash. cbv iota.
      rewrite split_slash_cons.
      rewrite StrFacts.split_app, (StrFacts.split_no_sep _ _ Hc4).
      rewrite RelativeFacts.split_concat;
        [|done|by apply RelativeFacts.valid_no_slash].
      change ("" :: (x :: l) ++ [c]) with (([""] ++ (x :: l)) ++ [c]).
      rewrite (PathFacts.norm_segs_snoc _ _ _ Hc).
      by rewrite (RelativeFacts.norm_segs_app_valid _ _ _ Hsegs).
  - rewrite StrFacts.app_nil_l.
    change (negb false) with true.
    assert (Hsegs : Forall (λ x, Str.has_char "/" x = false ∧ x ≠ "")
                      (Path.norm_segs true (Str.split "/" d)))
      by apply norm_true_no_slash, RelativeFacts.split_no_slash.
    assert (Hrel : Path.resolve_segs cwd d
                   = Path.norm_segs false
                       (Str.split "/" cwd ++ Path.norm_segs true (Str.split "/" d))).
    { unfold Path.resolve_segs. rewrite Habs, app_slash.
      rewrite StrFacts.split_app. by rewrite norm_segs_absorb. }
    rewrite Hrel. unfold Path.resolve_segs.
    destruct (Path.norm_segs true (Str.split "/" d)) as [|x l].
    + rewrite StrFacts.app_nil_l, (PathFacts.startsWithSlash_valid _ Hc), app_slash.
      rewrite StrFacts.split_app, (StrFacts.split_no_sep _ _ Hc4).
      rewrite app_nil_r. by rewrite (PathFacts.norm_segs_snoc _ _ _ Hc).
    + rewrite StrFacts.app_assoc.
      rewrite (concat_no_leading_slash (x :: l) Hsegs). simpl Str.startsWithSlash.
      cbv iota.
      rewrite !app_slash.
      rewrite !StrFacts.split_app, (StrFacts.split_no_sep _ _ Hc4).
      rewrite RelativeFacts.split_concat; [|done|].
      2:{ eapply Forall_impl; [exact Hsegs|]. by intros ? [? _]. }
      rewrite app_assoc. by rewrite (PathFacts.norm_segs_snoc _ _ _ Hc).
Qed.

Lemma chars_app (a b : string) :
  String.list_ascii_of_string (a +:+ b)
  = String.list_ascii_of_string a ++ String.list_ascii_of_string b.
Proof.
  induction a as [|x a IH]; [by rewrite StrFacts.app_nil_l|].
  rewrite StrFacts.app_cons. simpl. by rewrite IH.
Qed.

Lemma chars_no_slash (c : string) :
  Str.has_char "/" c = false →
  Forall (λ a, a ≠ "/"%char) (String.list_ascii_of_string c).
Proof.
  induction c as [|a c IH]; [constructor|]. simpl. intros H.
  apply orb_false_iff in H as [Ha Hc]. apply bool_decide_eq_false in Ha.
  constructor; [done|by apply IH].
Qed.

Lemma dirname_end_none l b n :
  Forall (λ a, a ≠ "/"%char) l → Path.dirname_end l b n = None.
Proof.
  intros H. revert b n. induction H as [|a l Ha Hl IH]; intros b n; [done|].
  simpl. rewrite bool_decide_eq_false_2 by done. apply IH.
Qed.

Lemma dirname_end_scan l rest b n :
  Forall (λ a, a ≠ "/"%char) l → (l ≠ [] ∨ b = false) →
  Path.dirname_end (l ++ "/"%char :: rest) b n = Some (n + length l).
Proof.
  intros H. revert b n. induction H as [|a l Ha Hl IH]; intros b n Hb.
  - destruct Hb as [Hb| ->]; [done|]. simpl. f_equal. lia.
  - simpl. rewrite bool_decide_eq_false_2 by done.
    rewrite IH by (by right). f_equal. lia.
Qed.

Lemma substring_prefix (a b : string) :
  String.substring 0 (length (String.list_ascii_of_string a)) (a +:+ b) = a.
Proof.
  induction a as [|x a IH]; simpl.
  - rewrite StrFacts.app_nil_l. by destruct b.
  - rewrite ?StrFacts.app_cons. simpl. by rewrite IH.
Qed.

Lemma dirname_child (R : list string) (c : string) :
  Forall (λ n, Fs.valid_name n = true) R → Fs.valid_name c = true →
  Path.dirname ("/" +:+ Str.concat "/" (R ++ [c])) = "/" +:+ Str.concat "/" R.
Proof.
  intros HR Hc. pose proof (PathFacts.valid_name_inv c Hc) as (Hc1 & _ & _ & Hc4).
  pose proof (chars_no_slash c Hc4) as Hcs.
  rewrite StrFacts.concat_snoc. destruct R as [|x l].
  - rewrite (StrFacts.app_cons "/" "" c), StrFacts.app_nil_l.
    unfold Path.dirname. rewrite bool_decide_eq_false_2 by done. simpl.
    rewrite dirname_end_none; [done|]. by apply Forall_rev.
  - set (X := Str.concat "/" (x :: l)).
    assert (HX : X ≠ "") by (by apply RelativeFacts.concat_valid_nonempty).
    rewrite (StrFacts.app_cons "/" "" (X +:+ _)), StrFacts.app_nil_l.
    rewrite (StrFacts.app_cons "/" "" X), StrFacts.app_nil_l.
    rewrite app_slash.
    change (String "/" (X +:+ String "/" c)) with (String "/" X +:+ String "/" c).
    unfold Path.dirname. rewrite bool_decide_eq_false_2 by done.
    rewrite chars_app. simpl String.list_ascii_of_string. simpl tail.
    rewrite rev_app_distr. simpl rev. rewrite <- app_assoc. simpl app.
    rewrite dirname_end_scan.
    2:{ by apply Forall_rev. }
    2:{ left. destruct c; [done|]. simpl. by destruct (rev _). }
    simpl Str.startsWithSlash.
    rewrite length_rev. simpl length. rewrite length_app. simpl length.
    replace (S (length (String.list_ascii_of_string X)
                + S (length (String.list_ascii_of_string c))) - 1
             - (0 + length (String.list_ascii_of_string c)))
      with (S (length (String.list_ascii_of_string X))) by lia.
    destruct X as [|a X']; [done|]. simpl Nat.eqb. simpl andb. cbv iota.
    change (S (length (String.list_ascii_of_string (String a X'))))
      with (length (String.list_ascii_of_string (String "/" (String a X')))).
    apply substring_prefix.
Qed.

Lemma basename_child (R : list string) (c : string) :
  Forall (λ n, Fs.valid_name n = true) R → Fs.valid_name c = true →
  Path.basename ("/" +:+ Str.concat "/" (R ++ [c])) = c.
Proof.
  intros HR Hc. pose proof (PathFacts.valid_name_inv c Hc) as (Hc1 & _ & _ & Hc4).
  unfold Path.basename.
  rewrite (StrFacts.app_cons "/" "" _), StrFacts.app_nil_l, split_slash_cons.
  rewrite RelativeFacts.split_concat.
  2:{ by destruct R. }
  2:{ apply RelativeFacts.valid_no_slash. apply Forall_app. split; [done|].
      by constructor. }
  rewrite filter_cons, decide_False by (by intros H; apply H).
  rewrite filter_app, filter_cons, decide_True, filter_nil by done.
  destruct (filter (λ a, a ≠ "") R ++ [c]) as [|y l'] eqn:E.
  { by destruct (filter _ R). }
  rewrite <- E. apply List.last_last.
Qed.

Lemma resolve_segs_valid cwd p :
  Forall (λ n, Fs.valid_name n = true) (Path.resolve_segs cwd p).
Proof. apply RelativeFacts.norm_segs_valid, RelativeFacts.split_no_slash. Qed.

Lemma key_child_dirname cwd (d c : string) :
  Fs.valid_name c = true →
  Path.dirname (Fs.key cwd (Path.join [d; c])) = Fs.key cwd d.
Proof.
  intros Hc. unfold Fs.key, Path.resolve. rewrite (resolve_segs_child _ _ _ Hc).
  apply dirname_child; [apply resolve_segs_valid|done].
Qed.

Lemma key_child_basename cwd (d c : string) :
  Fs.valid_name c = true →
  Path.basename (Fs.key cwd (Path.join [d; c])) = c.
Proof.
  intros Hc. unfold Fs.key, Path.resolve. rewrite (resolve_segs_child _ _ _ Hc).
  apply basename_child; [apply resolve_segs_valid|done].
Qed.

(** ** A walk into its own output *)

Lemma descend_replicate_S src (c : string) n :
  descend src (replicate (S n) c) = Path.join [descend src (replicate n c); c].
Proof. by rewrite replicate_S_end, PathFacts.descend_snoc. Qed.

Lemma nesting_open_kept dir f f' src c :
  fs_kept (λ _, False) f f' → Fs.valid_name c = true →
  nesting_open dir f src c → nesting_open dir f' src c.
Proof.
  intros Hk Hv H n. specialize (H n).
  destruct (f' !! Fs.key dir (descend src (replicate (S n) c))) as [[x|l']|] eqn:E';
    [| |done].
  - apply (fs_kept_files _ _ _ _ Hk) in E'. by rewrite E' in H.
  - destruct (f !! Fs.key dir (descend src (replicate (S n) c))) as [[x|l0]|] eqn:E.
    + done.
    + destruct H as (l & Hl & Hc).
      destruct (fs_kept_dirs _ _ _ _ _ Hk Hl) as (more & Hm).
      exists (l ++ more). split; [done|]. apply elem_of_app. by left.
    + destruct Hk as (_ & _ & L).
      destruct (L _ E) as (l & Hl & Hc); [by rewrite E'|].
      rewrite descend_replicate_S in Hl, Hc.
      rewrite key_child_dirname in Hl by done.
      rewrite key_child_basename in Hc by done.
      by exists l.
Qed.

Lemma nesting_open_shift dir f src c :
  nesting_open dir f src c → nesting_open dir f (Path.join [src; c]) c.
Proof.
  intros H n. specialize (H (S n)).
  by rewrite <- !PathFacts.descend_cons.
Qed.

(** X26.  A walk whose output directory is a child [c] of its source
    directory never completes.  [findFiles] creates [src/c] before it
    lists [src], so the listing holds [c], the walk descends into it
    with output directory [src/c/c], and so on without end: provided no
    path [src/c/.../c] is a file and [c] is not passed over, no amount of
    fuel yields a list of pairs.  (The model puts no bound on the length
    of a path.) *)
Theorem walk_into_own_output_never_completes fuel :
  ∀ options src c w,
    srcDirPath options = Some src →
    outDirPath options = Some (Path.join [src; c]) →
    Fs.valid_name c = true →
    skipped options c = false →
    nesting_open (cwd w) (fs w) src c →
    ∀ pairs, fst (findFiles fuel options w) ≠ Ret pairs.
Proof.
  induction fuel as [|fuel IH]; intros options src c w Hsrc Hout Hv Hskip Hopen pairs Hrun.
  { done. }
  destruct (findFiles (S fuel) options w) as [r w'] eqn:Hres. simpl in Hrun. subst r.
  destruct (findFiles_Ret_inv _ _ _ _ _ _ _ Hsrc Hout Hres)
    as (w1 & children & (Hc1 & Ht1 & Hk1) & Hex & Hrd & Hloop).
  assert (Hopen1 : nesting_open (cwd w1) (fs w1) src c).
  { rewrite Hc1. by eapply nesting_open_kept. }
  (* the output directory exists, so the source directory lists it *)
  assert (Hin : c ∈ children).
  { pose proof (Hopen1 0) as H0. simpl in H0.
    unfold Fs.exists_ in Hex. apply andb_true_iff in Hex as [_ Hex].
    apply bool_decide_eq_true in Hex as [n Hn]. rewrite Hn in H0.
    destruct n as [x|l0]; [done|]. destruct H0 as (l & Hl & Hc).
    unfold Fs.readdir in Hrd. destruct (negb (Str.nonempty src)); [done|].
    rewrite Hl in Hrd. injection Hrd as <-.
    apply list_elem_of_filter. by split. }
  destruct (findFiles_children_complete (findFiles fuel) options (extensions_of options)
              src (Path.join [src; c]) children Hsrc Hout (K_findFiles no_exit fuel)
              _ _ _ _ Hloop) as [_ Hc].
  destruct (Hc c Hin Hskip) as (wc & isDir & (Hcc & Htc & Hkc) & Hdir & Hcase).
  simpl in Hcc, Hkc.
  assert (Hopenc : nesting_open (cwd wc) (fs wc) src c).
  { rewrite Hcc. by eapply nesting_open_kept. }
  destruct isDir.
  - destruct Hcase as (inner & w2 & Hinner & _).
    apply (IH (inner_options options src (Path.join [src; c]) c) (Path.join [src; c]) c
              (log wc [FsStat (Path.join [src; c])])
              eq_refl eq_refl Hv Hskip (nesting_open_shift _ _ _ _ Hopenc) inner).
    by rewrite Hinner.
  - pose proof (Hopenc 0) as H0. simpl in H0.
    unfold Fs.isDirectory in Hdir. destruct (negb (Str.nonempty (Path.join [src; c]))); [done|].
    destruct (fs wc !! Fs.key (cwd wc) (Path.join [src; c])) as [[x|l]|]; done.
Qed.

Lemma resolve_segs_nested cwd src (c : string) n :
  Fs.valid_name c = true →
  Path.resolve_segs cwd (descend src (replicate n c))
  = Path.resolve_segs cwd src ++ replicate n c.
Proof.
  intros Hv. induction n as [|n IH]; [by rewrite app_nil_r|].
  rewrite descend_replicate_S, resolve_segs_child by done.
  by rewrite IH, replicate_S_end, app_assoc.
Qed.

Lemma flat_tree_nesting_open : nesting_open "/" Scenarios.flat_tree "." "out".
Proof.
  intros [|n].
  - vm_compute. eexists. split; [done|].
    apply list_elem_of_further, list_elem_of_further, list_elem_of_here.
  - replace (Scenarios.flat_tree !! _) with (@None node); [done|].
    symmetry. apply not_elem_of_list_to_map_1.
    unfold Fs.key, Path.resolve. rewrite resolve_segs_nested by done.
    change (Path.resolve_segs "/" ".") with (@nil string).
    destruct n; simpl; rewrite !elem_of_cons, elem_of_nil; intros [?|[?|[?|[?|?]]]]; done.
Qed.

Lemma walk_into_own_output_never_completes_witness :
  nesting_open "/" Scenarios.flat_tree "." "out"
  ∧ ∀ pairs, fst (findFiles 100 Scenarios.inward_options Scenarios.flat_world) ≠ Ret pairs.
Proof.
  split; [exact flat_tree_nesting_open|].
  apply (walk_into_own_output_never_completes 100 Scenarios.inward_options "." "out"
           Scenarios.flat_world); try reflexivity.
  exact flat_tree_nesting_open.
Defined.
